(** * kcg-dataset-downloader: a shallow embedding and its properties

    The development follows the layout of the Python package:

    - [PyStr]    the [str] methods and [os.path] functions the code calls;
    - [Utils]    [utils.py]   ([get_file_extension]);
    - [Net]      [downloader.py] (single fetch, retry loop, batch fetch);
    - [Os]       the calls of [os] on the output tree;
    - [Store]    [storage.py] (batch directories on a file system);
    - [Parquet]  [parquet_handler.py] (life cycle by renaming, row filter);
    - [App]      [app.py] ([process_parquet_file] and the loop body of
                 [resume]);
    - [Spec]     the notions the statements are written with;
    - [Fixture]  concrete inputs.

    Python integers are [Z]; a string is a [string], the sequence of its
    characters, each character being its code point, which is taken to be
    below 256 (names and URLs with other characters are outside the model);
    a dictionary or a directory is a [gmap]; an exception is a value of
    [exn] returned in place of the result. *)

From Stdlib Require Import ZArith Ascii String List Bool Lia.
From stdpp Require Import base numbers option list gmap strings pretty.

Local Open Scope string_scope.
Local Open Scope Z_scope.

(** ** Exceptions and results *)

Inductive exn : Type :=
  | FileNotFoundError (path : string)
  | FileExistsError (path : string)
  | IsADirectoryError (path : string)
  | NotADirectoryError (path : string)
  | UnboundLocalError (var : string)
  | AttributeError (msg : string)
  | KeyError (msg : string)
  | ValueError (msg : string).

(** [str(exc)]: the text an exception prints as.  Only the fact that it is
    some string matters below. *)
Definition str_of_exn (e : exn) : string :=
  match e with
  | FileNotFoundError p => "[Errno 2] No such file or directory: " +:+ p
  | FileExistsError p => "[Errno 17] File exists: " +:+ p
  | IsADirectoryError p => "[Errno 21] Is a directory: " +:+ p
  | NotADirectoryError p => "[Errno 20] Not a directory: " +:+ p
  | UnboundLocalError v => "local variable referenced before assignment: " +:+ v
  | AttributeError m => m
  | KeyError m => m
  | ValueError m => m
  end.

Inductive result (A : Type) : Type :=
  | Ok (a : A)
  | Raise (e : exn).
Arguments Ok {A} a.
Arguments Raise {A} e.

Definition is_ok {A} (r : result A) : bool :=
  match r with Ok _ => true | Raise _ => false end.

(** ** Code that changes a state and may raise

    A method is a function from the state before to the outcome and the
    state after: an exception leaves the changes made before it in place. *)

Definition M (S A : Type) : Type := S -> result A * S.

Definition ret {S A} (a : A) : M S A := fun s => (Ok a, s).
Definition bind {S A B} (m : M S A) (k : A -> M S B) : M S B :=
  fun s => match m s with
           | (Ok a, s') => k a s'
           | (Raise e, s') => (Raise e, s')
           end.
Definition gets {S A} (f : S -> A) : M S A := fun s => (Ok (f s), s).
Definition modify {S} (f : S -> S) : M S unit := fun s => (Ok tt, f s).

(** [try: m except Exception as e: h e]. *)
Definition try_except {S A} (m : M S A) (h : exn -> M S A) : M S A :=
  fun s => match m s with
           | (Ok a, s') => (Ok a, s')
           | (Raise e, s') => h e s'
           end.

Notation "x <- m ;; k" := (bind m (fun x => k))
  (at level 63, m at next level, right associativity).
Notation "m ;;; k" := (bind m (fun _ => k))
  (at level 63, right associativity).

(** ** Python [str] methods and [os.path] (POSIX flavour) *)

Module PyStr.

(** [s.split(sep)[0]] for a one-character separator: the part of [s]
    before the first [sep], all of [s] when there is none. *)
Fixpoint split_head (sep : ascii) (s : string) : string :=
  match s with
  | EmptyString => EmptyString
  | String a s' => if Ascii.eqb a sep then EmptyString
                   else String a (split_head sep s')
  end.

(** [s.rfind(c)] for a one-character needle: the highest index of [c]
    in [s], or [-1]. *)
Fixpoint rfind (c : ascii) (s : string) : Z :=
  match s with
  | EmptyString => -1
  | String a s' =>
      let r := rfind c s' in
      if 0 <=? r then r + 1 else if Ascii.eqb a c then 0 else -1
  end.

(** [s[i:j]] for [0 <= i], [0 <= j]. *)
Definition slice (i j : Z) (s : string) : string :=
  substring (Z.to_nat i) (Z.to_nat (j - i)) s.

(** [s[i:]] for [0 <= i]. *)
Definition slice_from (i : Z) (s : string) : string :=
  substring (Z.to_nat i) (String.length s - Z.to_nat i) s.

Definition chars (s : string) : list ascii := list_ascii_of_string s.

(** The characters below 256 that have a lower case of their own: A to Z,
    and the capital letters from 192 to 222 but for the sign at 215. *)
Definition lower_char (a : ascii) : ascii :=
  let n := nat_of_ascii a in
  if ((65 <=? n) && (n <=? 90)
      || (192 <=? n) && (n <=? 222) && negb (n =? 215))%nat
  then ascii_of_nat (n + 32) else a.

(** [s.lower()]. *)
Fixpoint lower (s : string) : string :=
  match s with
  | EmptyString => EmptyString
  | String a s' => String (lower_char a) (lower s')
  end.

(** [s.replace(a, b)] for one-character [a] and [b]. *)
Fixpoint replace_char (a b : ascii) (s : string) : string :=
  match s with
  | EmptyString => EmptyString
  | String c s' => String (if Ascii.eqb c a then b else c) (replace_char a b s')
  end.

(** [s.startswith(p)]. *)
Fixpoint startswith (p s : string) : bool :=
  match p, s with
  | EmptyString, _ => true
  | String a p', String b s' => Ascii.eqb a b && startswith p' s'
  | String _ _, EmptyString => false
  end.

(** [s.replace(old, new)] for a non-empty [old]: the occurrences of [old]
    are found from the left and do not overlap.  [skip] counts the
    characters of a match that are still to be dropped. *)
Fixpoint replace_go (old new : string) (skip : nat) (s : string) : string :=
  match s with
  | EmptyString => EmptyString
  | String c s' =>
      match skip with
      | S k => replace_go old new k s'
      | O => if startswith old s
             then new +:+ replace_go old new (String.length old - 1) s'
             else String c (replace_go old new 0 s')
      end
  end.

Definition replace (old new s : string) : string := replace_go old new 0 s.

Fixpoint endswith_go (p s : string) : bool :=
  String.eqb p s ||
  match s with
  | EmptyString => false
  | String _ s' => endswith_go p s'
  end.

(** [s.endswith(p)]. *)
Definition endswith (p s : string) : bool := endswith_go p s.

Fixpoint contains_char (c : ascii) (s : string) : bool :=
  match s with
  | EmptyString => false
  | String a s' => Ascii.eqb a c || contains_char c s'
  end.

(** [genericpath._splitext(p, '/', None, '.')], which is
    [posixpath.splitext]: the extension starts at the last dot of the last
    path component, unless that component has only dots before it. *)
Definition splitext (p : string) : string * string :=
  let sepIndex := rfind "/" p in
  let dotIndex := rfind "." p in
  if sepIndex <? dotIndex then
    if existsb (fun c => negb (Ascii.eqb c "."))
               (chars (slice (sepIndex + 1) dotIndex p))
    then (slice 0 dotIndex p, slice_from dotIndex p)
    else (p, EmptyString)
  else (p, EmptyString).

(** [s.rstrip(c)] for a one-character [c]. *)
Fixpoint rstrip (c : ascii) (s : string) : string :=
  match s with
  | EmptyString => EmptyString
  | String a s' =>
      let r := rstrip c s' in
      if String.eqb r "" && Ascii.eqb a c then EmptyString else String a r
  end.

(** [posixpath.split(p)]. *)
Definition split (p : string) : string * string :=
  let i := rfind "/" p + 1 in
  let head := slice 0 i p in
  let tail := slice_from i p in
  if negb (String.eqb head "") && negb (String.eqb (rstrip "/" head) "")
  then (rstrip "/" head, tail)
  else (head, tail).

Definition dirname (p : string) : string := fst (split p).
Definition basename (p : string) : string := snd (split p).

(** The decimal digits 0 to 9. *)
Definition is_decimal_char (a : ascii) : bool :=
  let n := nat_of_ascii a in ((48 <=? n) && (n <=? 57))%nat.

(** The characters [c] with [c.isdigit()]: below 256 these are the decimal
    digits and the superscripts two, three and one (178, 179, 185), which
    are digits but not decimal. *)
Definition is_digit_char (a : ascii) : bool :=
  let n := nat_of_ascii a in
  is_decimal_char a || ((n =? 178) || (n =? 179) || (n =? 185))%nat.

(** [s.isdigit()]: non-empty and only digits. *)
Definition isdigit (s : string) : bool :=
  negb (String.eqb s "") && forallb is_digit_char (chars s).

(** The number a string of decimal digits stands for. *)
Definition int_of_digits (s : string) : Z :=
  fold_left (fun acc a => 10 * acc + (Z.of_nat (nat_of_ascii a) - 48)) (chars s) 0.

(** [int(s)] for a string [s] with [s.isdigit()]: the number when every
    digit is decimal, and [ValueError] otherwise.  (The message of the
    exception also quotes [s]; that part is left out.) *)
Definition all_decimal (s : string) : bool :=
  forallb is_decimal_char (chars s).

Definition int_ (s : string) : result Z :=
  if all_decimal s
  then Ok (int_of_digits s)
  else Raise (ValueError "invalid literal for int() with base 10").

(** [[int(d) for d in l]]: the first [int(d)] that raises ends it. *)
Fixpoint ints (l : list string) : result (list Z) :=
  match l with
  | [] => Ok []
  | d :: l' =>
      match int_ d with
      | Raise e => Raise e
      | Ok n =>
          match ints l' with
          | Raise e => Raise e
          | Ok ns => Ok (n :: ns)
          end
      end
  end.

Fixpoint zeros (n : nat) : string :=
  match n with O => EmptyString | S n' => String "0" (zeros n') end.

Definition zfill (w : nat) (s : string) : string :=
  zeros (w - String.length s) +:+ s.

(** The f-string field [{n:06d}]: the sign counts in the width. *)
Definition format_06d (n : Z) : string :=
  match n with
  | Zneg q => "-" +:+ zfill 5 (pretty (Npos q))
  | _ => zfill 6 (pretty (Z.to_N n))
  end.

Fixpoint strip_prefix (p s : string) : option string :=
  match p, s with
  | EmptyString, _ => Some s
  | String a p', String b s' => if Ascii.eqb a b then strip_prefix p' s' else None
  | String _ _, EmptyString => None
  end.

(** [posixpath.join(a, b)]. *)
Definition join (a b : string) : string :=
  if startswith "/" b then b
  else if String.eqb a "" || endswith "/" a then a +:+ b
  else a +:+ "/" +:+ b.

End PyStr.

(** ** utils.py *)

Module Utils.
Import PyStr.

Definition allowed_extensions : list string :=
  [".jpg"; ".jpeg"; ".png"; ".gif"; ".webp"; ".bmp"].

Definition get_file_extension (url : string) : string :=
  let path := split_head "?" url in
  let ext := lower (snd (splitext path)) in
  if String.eqb ext "" || negb (existsb (String.eqb ext) allowed_extensions)
  then ".jpg"
  else ext.

Section Decorator.

Variable A : Type.

(** [func calls]: what the decorated function does when it is called for
    the [calls]-th time (counted from 0): a value, or an exception. *)
Variable func : nat -> result A.
Variable max_retries : Z.

(** The [while] loop of [wrapper], with [fuel] turns allowed.  [retries] is
    the loop's counter, [calls] counts the calls of [func] made so far and
    [sleeps] the calls of [time.sleep(delay)].  The answer is [Ok (Some a)]
    for [return func(...)], [Raise e] for the bare [raise], and [Ok None]
    when the loop ends by its condition and the function falls off its end;
    the outer [None] says that the fuel ran out. *)
Fixpoint wrapper_loop (fuel : nat) (retries : Z) (calls sleeps : nat)
    : option (result (option A) * nat * nat) :=
  match fuel with
  | O => None
  | S fuel' =>
      if retries <=? max_retries then
        match func calls with
        | Ok a => Some (Ok (Some a), S calls, sleeps)
        | Raise e =>
            let retries := retries + 1 in
            if max_retries <? retries then Some (Raise e, S calls, sleeps)
            else wrapper_loop fuel' retries (S calls) (S sleeps)
        end
      else Some (Ok None, calls, sleeps)
  end.

(** [retry(max_retries, delay)(func)(...)]. *)
Definition retry (fuel : nat) : option (result (option A) * nat * nat) :=
  wrapper_loop fuel 0 0 0.

End Decorator.

End Utils.

(** ** Rows and index labels

    A row of the table is read through its index label ([row.name], the
    [idx] of [iterrows]) and its URL column.  Labels are what pandas allows
    as index values here: integers (the default [RangeIndex]) or strings. *)

Inductive label : Type :=
  | IntLabel (n : Z)
  | StrLabel (s : string).

Global Instance label_eq_dec : EqDecision label.
Proof. solve_decision. Defined.

(** [str(key)]. *)
Definition str_of_label (k : label) : string :=
  match k with
  | IntLabel n => pretty n
  | StrLabel s => s
  end.

(** The managed columns hold [None] (missing) or a string.  A downloaded
    body (the [BytesIO] stream) is represented by its number of bytes, the
    only thing the storage layer ever measures. *)
Record row : Type := mkRow {
  url : string;
  status : option string;
  error : option string;
  filepath : option string;
}.

Definition stream : Type := N.

(** ** downloader.py *)

Module Net.

(** What one [urlopen] does: a body, or an exception caught on the spot. *)
Inductive response : Type :=
  | Body (s : stream)
  | Failure (msg : string).

(** The triple [(key, img_stream, err)]. *)
Definition fetched : Type := label * option stream * option string.

Definition succeeded (t : fetched) : bool :=
  match t with (_, Some _, _) => true | _ => false end.

Record Downloader : Type := mkDownloader {
  timeout : Z;
  retries : Z;
  max_workers : Z;
}.

Section WithNetwork.

(** [urlopen tmo k u i]: the answer of the network to the [i]-th request
    (counted from 0) made for the row labelled [k] with URL [u], under
    time limit [tmo]. *)
Variable urlopen : Z -> label -> string -> nat -> response.

(** [download_image]: the [try] turns every failure into a triple. *)
Definition download_image (self : Downloader) (key : label) (r : row)
    (i : nat) : fetched :=
  match urlopen (timeout self) key (url r) i with
  | Body s => (key, Some s, None)
  | Failure msg => (key, None, Some msg)
  end.

(** The [for] loop of [download_image_with_retry], [n] iterations to go.
    [i] counts the calls of [download_image] made so far; [locals] holds
    the loop's variables [key, img_stream, err], unbound before the
    first iteration.  The left result is the early [return]. *)
Fixpoint retry_loop (self : Downloader) (key : label) (r : row) (n : nat)
    (i : nat) (locals : option fetched) : (fetched + option fetched) * nat :=
  match n with
  | O => (inr locals, i)
  | S n' =>
      let t := download_image self key r i in
      if succeeded t then (inl t, S i)
      else retry_loop self key r n' (S i) (Some t)
  end.

(** [download_image_with_retry]: the result, and the number of calls of
    [download_image] it made.  [range(retries + 1)] is empty when
    [retries + 1 <= 0]; the last line then reads unbound locals. *)
Definition download_image_with_retry (self : Downloader) (key : label)
    (r : row) : result fetched * nat :=
  match retry_loop self key r (Z.to_nat (retries self + 1)) 0 None with
  | (inl t, i) => (Ok t, i)
  | (inr (Some (k, _, err)), i) => (Ok (k, None, err), i)
  | (inr None, i) => (Raise (UnboundLocalError "key"), i)
  end.

(** A Python [dict] as the code uses it: insertion ordered, a repeated
    key keeps its place and takes the new value. *)
Fixpoint dict_set {V} (k : label) (v : V) (d : list (label * V))
    : list (label * V) :=
  match d with
  | [] => [(k, v)]
  | (k', v') :: d' =>
      if decide (k' = k) then (k, v) :: d' else (k', v') :: dict_set k v d'
  end.

(** What the completion loop stores for one finished task. *)
Definition task_result (self : Downloader) (idx : label) (r : row)
    : option stream * option string :=
  match fst (download_image_with_retry self idx r) with
  | Ok (_, img_stream, err) => (img_stream, err)
  | Raise exc => (None, Some (str_of_exn exc))
  end.

(** [download_batch]: one task per row of [df]; [as_completed] yields
    them in an order chosen by the thread pool, here what [completed] makes
    of the submitted rows. *)
Definition download_batch (self : Downloader)
    (completed : list (label * row) -> list (label * row))
    (df : list (label * row))
    : result (list (label * (option stream * option string))) :=
  if max_workers self <=? 0
  then Raise (ValueError "max_workers must be greater than 0")
  else Ok (fold_left
             (fun results '(idx, r) => dict_set idx (task_result self idx r) results)
             (completed df) []).

End WithNetwork.

End Net.

(** ** The file system

    Paths are compared as strings, the way the program builds them: there
    are no links, and [..] or doubled separators are not resolved.  [dirs]
    holds the paths of the directories, [files] the regular files with
    their sizes in bytes. *)

Record filesystem : Type := mkFs {
  dirs : gset string;
  files : gmap string N;
}.

Module Os.
Import PyStr.

Definition isdir (fs : filesystem) (p : string) : bool :=
  bool_decide (p ∈ dirs fs).

Definition isfile (fs : filesystem) (p : string) : bool :=
  bool_decide (is_Some (files fs !! p)).

Definition getsize (fs : filesystem) (p : string) : N :=
  default 0%N (files fs !! p).

(** What [join d] puts in front of a relative name. *)
Definition dir_prefix (d : string) : string :=
  if String.eqb d "" || endswith "/" d then d else d +:+ "/".

(** The name [n] with [p = join d n], when [p] lies directly in [d]. *)
Definition child_name (d p : string) : option string :=
  match strip_prefix (dir_prefix d) p with
  | Some n => if String.eqb n "" || contains_char "/" n then None else Some n
  | None => None
  end.

(** [os.listdir(d)], in no particular order. *)
Definition listdir (fs : filesystem) (d : string) : result (list string) :=
  if isdir fs d
  then Ok (omap (child_name d) (elements (dirs fs ∪ dom (files fs))))
  else if isfile fs d then Raise (NotADirectoryError d)
  else Raise (FileNotFoundError d).

(** [os.makedirs(d, exist_ok=True)], the parent of [d] being there. *)
Definition makedirs (fs : filesystem) (d : string) : result filesystem :=
  if isfile fs d then Raise (FileExistsError d)
  else Ok (mkFs ({[ d ]} ∪ dirs fs) (files fs)).

(** [open(p, "wb")], [write] of [n] bytes and close. *)
Definition write_file (fs : filesystem) (p : string) (n : N)
    : result filesystem :=
  let b := basename p in
  if isdir fs p || String.eqb b "" || String.eqb b "." || String.eqb b ".."
  then Raise (IsADirectoryError p)
  else if isdir fs (dirname p)
  then Ok (mkFs (dirs fs) (<[ p := n ]> (files fs)))
  else if isfile fs (dirname p) then Raise (NotADirectoryError p)
  else Raise (FileNotFoundError p).

(** [os.remove(p)] by some other actor; nothing happens when [p] is not a
    regular file. *)
Definition unlink (fs : filesystem) (p : string) : filesystem :=
  mkFs (dirs fs) (delete p (files fs)).

End Os.

(** ** storage.py *)

Module Store.
Import PyStr Os.

Record Storage : Type := mkStorage {
  output_dir : string;
  batch_size_gb : Z;
  current_batch : Z;
  current_batch_size : Z;
}.

Definition set_current_batch (self : Storage) (n : Z) : Storage :=
  mkStorage (output_dir self) (batch_size_gb self) n (current_batch_size self).

(** Methods run on the object and the file system. *)
Definition state : Type := Storage * filesystem.

Definition get_self : M state Storage := gets fst.
Definition put_self (self : Storage) : M state unit :=
  modify (fun s => (self, snd s)).
Definition lift {A} (f : filesystem -> result A) : M state A :=
  fun s => (f (snd s), s).
Definition update_fs (f : filesystem -> result filesystem) : M state unit :=
  fun s => match f (snd s) with
           | Ok fs' => (Ok tt, (fst s, fs'))
           | Raise e => (Raise e, s)
           end.

(** [max(l)] for a non-empty list [x :: l]. *)
Definition max_list (x : Z) (l : list Z) : Z := fold_left Z.max l x.

Definition _get_next_batch_number (out : string) (fs : filesystem)
    : result Z :=
  match listdir fs out with
  | Raise e => Raise e
  | Ok names =>
      match ints (filter (fun d => isdir fs (join out d) && isdigit d = true)
                         names) with
      | Raise e => Raise e
      | Ok existing_batches =>
          match existing_batches with
          | [] => Ok 1
          | x :: l => Ok (max_list x l + 1)
          end
      end
  end.

Definition _get_batch_dir (self : Storage) : string :=
  join (output_dir self) (format_06d (current_batch self)).

Definition _ensure_batch_dir_exists : M state unit :=
  self <- get_self ;;
  update_fs (fun fs => makedirs fs (_get_batch_dir self)).

(** [Storage(output_dir, batch_size_gb, logger)]. *)
Definition init (out : string) (gb : Z) (fs : filesystem)
    : result (Storage * filesystem) :=
  match _get_next_batch_number out fs with
  | Raise e => Raise e
  | Ok n =>
      match _ensure_batch_dir_exists (mkStorage out gb n 0, fs) with
      | (Ok _, s) => Ok s
      | (Raise e, _) => Raise e
      end
  end.

(** The sum of [_check_batch_size], in bytes. *)
Definition total_size (fs : filesystem) (batch_dir : string)
    (names : list string) : Z :=
  foldr Z.add 0
    (map (fun f => Z.of_N (getsize fs (join batch_dir f)))
         (filter (fun f => isfile fs (join batch_dir f) = true) names)).

(** [total_size / 1024 ** 3 >= batch_size_gb], with the quotient taken
    exactly (the float quotient is exact for sizes below [2 ^ 53]). *)
Definition _check_batch_size : M state bool :=
  self <- get_self ;;
  let batch_dir := _get_batch_dir self in
  names <- lift (fun fs => listdir fs batch_dir) ;;
  size <- lift (fun fs => Ok (total_size fs batch_dir names)) ;;
  ret (batch_size_gb self * 1024 ^ 3 <=? size).

Definition safe_key (key : label) : string :=
  replace_char "\" "_" (replace_char "/" "_" (str_of_label key)).

Definition save_image (key : label) (img_stream : stream)
    (extension : string) : M state string :=
  full <- _check_batch_size ;;
  (if full : bool then
     self <- get_self ;;
     put_self (set_current_batch self (current_batch self + 1)) ;;;
     _ensure_batch_dir_exists
   else ret tt) ;;;
  self <- get_self ;;
  let filename := safe_key key +:+ extension in
  let filepath := join (_get_batch_dir self) filename in
  update_fs (fun fs => write_file fs filepath img_stream) ;;;
  ret filepath.

End Store.

(** ** parquet_handler.py

    A table is the list of its rows, each under its index label; a managed
    column that a file lacks reads as [None] in every row, which is what
    [read_parquet] fills in.  The input side of the tree is the set of the
    directories there are, by path, and the tables, by path.  The program
    makes no directory there.  Paths are plain (no [.] or [..] component, no
    doubled separator), and no directory is named like a table: the
    listings, which go by the ending [.parquet], meet regular files only,
    and so do [os.rename] and the reading and writing of tables. *)

Definition dataframe : Type := list (label * row).

(** [os.rename] replaces an existing target on POSIX and refuses to on
    Windows. *)
Inductive platform : Type := Posix | Windows.

Module Parquet.
Import PyStr.

(** The directory part [d] of a path names a directory that is there: the
    current directory, written as the empty string, or one of [ds]. *)
Definition dir_there (ds : gset string) (d : string) : bool :=
  String.eqb d "" || bool_decide (d ∈ ds).

(** The exception for a directory part [d] that is no directory: on POSIX
    [NotADirectoryError] when a regular file is in its place and
    [FileNotFoundError] when nothing is; on Windows the latter in both
    cases. *)
Definition no_directory (pl : platform) (t : gmap string dataframe)
    (d path : string) : exn :=
  match pl, t !! d with
  | Posix, Some _ => NotADirectoryError path
  | _, _ => FileNotFoundError path
  end.

(** [os.rename(src, dst)] for a source that is no directory.  The
    directory parts of both paths are resolved before the source is looked
    up, the one of [src] first (the order of Linux); a source that is there
    has its directory.  Renaming a file to itself does nothing.  A target
    that is a directory is refused; a target that is a regular file is
    replaced on POSIX and refused on Windows. *)
Definition os_rename (pl : platform) (ds : gset string) (src dst : string)
    : M (gmap string dataframe) unit :=
  fun t =>
    match t !! src with
    | None =>
        if negb (dir_there ds (dirname src))
        then (Raise (no_directory pl t (dirname src) src), t)
        else if negb (dir_there ds (dirname dst))
        then (Raise (no_directory pl t (dirname dst) src), t)
        else (Raise (FileNotFoundError src), t)
    | Some df =>
        if decide (src = dst) then (Ok tt, t)
        else if negb (dir_there ds (dirname dst))
        then (Raise (no_directory pl t (dirname dst) src), t)
        else if bool_decide (dst ∈ ds)
        then (Raise (match pl with
                     | Posix => IsADirectoryError dst
                     | Windows => FileExistsError dst
                     end), t)
        else match t !! dst, pl with
             | Some _, Windows => (Raise (FileExistsError dst), t)
             | _, _ => (Ok tt, <[ dst := df ]> (delete src t))
             end
    end.

Definition mark_as_processing (pl : platform) (ds : gset string)
    (parquet_file : string) : M (gmap string dataframe) string :=
  let processing_file := replace ".parquet" "_processing.parquet" parquet_file in
  os_rename pl ds parquet_file processing_file ;;;
  ret processing_file.

Definition mark_as_processed (pl : platform) (ds : gset string)
    (processing_file : string) : M (gmap string dataframe) string :=
  let processed_file :=
    replace "_processing.parquet" "_processed.parquet" processing_file in
  os_rename pl ds processing_file processed_file ;;;
  ret processed_file.

Definition read_parquet (parquet_file : string)
    : M (gmap string dataframe) dataframe :=
  fun t =>
    match t !! parquet_file with
    | Some df => (Ok df, t)
    | None => (Raise (FileNotFoundError parquet_file), t)
    end.

(** What a table written without its index reads back as: the rows under
    the default labels [i], [i + 1], ... *)
Fixpoint reset_index_from (i : Z) (df : dataframe) : dataframe :=
  match df with
  | [] => []
  | (_, r) :: df' => (IntLabel i, r) :: reset_index_from (i + 1) df'
  end.

(** [df.to_parquet(parquet_file, index=False)], on the path of a table
    that is there: the program writes a table back where it has read it. *)
Definition write_parquet (df : dataframe) (parquet_file : string)
    : M (gmap string dataframe) unit :=
  modify (fun t => <[ parquet_file := reset_index_from 0 df ]> t).

(** [df['status'].isna()] row by row. *)
Definition isna (r : row) : bool :=
  match status r with None => true | Some _ => false end.

Definition find_incomplete_rows (df : dataframe) : dataframe :=
  filter (fun kr => isna (snd kr) = true) df.

(** The names of the tables directly in [d], in no particular order. *)
Definition listdir_tables (t : gmap string dataframe) (d : string)
    : list string :=
  omap (Os.child_name d) (elements (dom t)).

(** [os.listdir(d)] on the input side, as far as tables go: it raises
    when [d] is no directory (the empty path is none). *)
Definition os_listdir (ds : gset string) (d : string)
    : M (gmap string dataframe) (list string) :=
  fun t =>
    if bool_decide (d ∈ ds) then (Ok (listdir_tables t d), t)
    else (Raise (match t !! d with
                 | Some _ => NotADirectoryError d
                 | None => FileNotFoundError d
                 end), t).

(** [glob.glob(os.path.join(input_dir, "*.parquet"))], for an input
    directory whose path holds none of the pattern characters [*], [?] and
    [[]: the names in the directory part of the pattern that do not start
    with a dot and end with [.parquet], each joined to that directory
    part; nothing when that directory is not there. *)
Definition glob_parquet (ds : gset string) (t : gmap string dataframe)
    (input_dir : string) : list string :=
  let pattern := join input_dir "*.parquet" in
  let dirname := dirname pattern in
  if dir_there ds dirname
  then map (join dirname)
         (filter (fun n => negb (startswith "." n) && endswith ".parquet" n = true)
                 (listdir_tables t dirname))
  else [].

Definition list_parquet_files (ds : gset string) (t : gmap string dataframe)
    (input_dir : string) : list string :=
  filter (fun f => negb (endswith "_processing.parquet" f
                         || endswith "_processed.parquet" f) = true)
         (glob_parquet ds t input_dir).

End Parquet.

(** ** app.py *)

Module App.
Import PyStr Parquet.

(** What a run works on: the tables of the input side, the storage object
    with the output tree, and the directories of the input side, which a
    run leaves as they are. *)
Record world : Type := mkWorld {
  tables : gmap string dataframe;
  store : Store.state;
  in_dirs : gset string;
}.

Definition on_tables {A} (m : M (gmap string dataframe) A) : M world A :=
  fun w => let '(r, t) := m (tables w) in (r, mkWorld t (store w) (in_dirs w)).

(** The calls that look at the directories. *)
Definition on_input {A} (m : gset string -> M (gmap string dataframe) A)
    : M world A :=
  fun w => on_tables (m (in_dirs w)) w.

Definition on_store {A} (m : M Store.state A) : M world A :=
  fun w => let '(r, s) := m (store w) in (r, mkWorld (tables w) s (in_dirs w)).

(** [df.loc[idx, url_column]]: a scalar when exactly one row carries the
    label; with several, pandas hands back a [Series], on which
    [get_file_extension] then fails. *)
Definition loc_url (df : dataframe) (idx : label) : result string :=
  match filter (fun kr => fst kr = idx) df with
  | [] => Raise (KeyError (str_of_label idx))
  | [(_, r)] => Ok (url r)
  | _ => Raise (AttributeError "'Series' object has no attribute 'split'")
  end.

(** [df.loc[idx, col] = v], written as the change [f] of the row: every
    row under the label takes it.  The label is one the table has (the
    loop only meets labels that [iterrows] gave). *)
Definition loc_set (f : row -> row) (idx : label) (df : dataframe)
    : dataframe :=
  map (fun kr => if decide (fst kr = idx) then (fst kr, f (snd kr)) else kr) df.

Definition set_status (v : option string) (r : row) : row :=
  mkRow (url r) v (error r) (filepath r).
Definition set_error (v : option string) (r : row) : row :=
  mkRow (url r) (status r) v (filepath r).
Definition set_filepath (v : option string) (r : row) : row :=
  mkRow (url r) (status r) (error r) v.

Section WithEnvironment.

Variable pl : platform.
Variable urlopen : Z -> label -> string -> nat -> Net.response.
Variable completed : list (label * row) -> list (label * row).
Variable downloader : Net.Downloader.

(** One turn of the loop over [results.items()].  The loop is written
    out twice in app.py: [process_parquet_file] (lines 78-97) does not
    assign the [filepath] column, [resume] (lines 181-201) does;
    [with_filepath] tells the two apart. *)
Definition apply_result (with_filepath : bool)
    (acc : dataframe * Z)
    (item : label * (option stream * option string))
    : M Store.state (dataframe * Z) :=
  let '(df, success_count) := acc in
  let '(idx, (img_stream, err)) := item in
  match img_stream with
  | Some body =>
      try_except
        (url_ <- (fun s => (loc_url df idx, s)) ;;
         let extension := Utils.get_file_extension url_ in
         path <- Store.save_image idx body extension ;;
         let df := loc_set (set_status (Some "success")) idx df in
         let df := loc_set (set_error None) idx df in
         let df := if with_filepath
                   then loc_set (set_filepath (Some path)) idx df
                   else df in
         ret (df, success_count + 1))
        (fun e =>
           let df := loc_set (set_status (Some "failed")) idx df in
           let df := loc_set (set_error (Some (str_of_exn e))) idx df in
           ret (df, success_count))
  | None =>
      let df := loc_set (set_status (Some "failed")) idx df in
      let df := loc_set (set_error err) idx df in
      ret (df, success_count)
  end.

Fixpoint apply_results (with_filepath : bool)
    (results : list (label * (option stream * option string)))
    (acc : dataframe * Z) : M Store.state (dataframe * Z) :=
  match results with
  | [] => ret acc
  | item :: rest =>
      acc' <- apply_result with_filepath acc item ;;
      apply_results with_filepath rest acc'
  end.

Definition download (incomplete_df : dataframe)
    : M world (list (label * (option stream * option string))) :=
  fun w => (Net.download_batch urlopen downloader completed incomplete_df, w).

Definition process_parquet_file (parquet_file : string) : M world Z :=
  processing_file <- on_input (fun ds => mark_as_processing pl ds parquet_file) ;;
  df <- on_tables (read_parquet processing_file) ;;
  let incomplete_df := find_incomplete_rows df in
  match incomplete_df with
  | [] =>
      on_input (fun ds => mark_as_processed pl ds processing_file) ;;;
      ret 0
  | _ =>
      results <- download incomplete_df ;;
      out <- on_store (apply_results false results (df, 0)) ;;
      on_tables (write_parquet (fst out) processing_file) ;;;
      on_input (fun ds => mark_as_processed pl ds processing_file) ;;;
      ret (snd out)
  end.

(** The body of the [for] loop of [resume] for one name found in the
    input directory, before the enclosing [except] logs what it
    raises.  The result is what the turn adds to [total_success]. *)
Definition resume_file (input_dir processing_file : string) : M world Z :=
  let full_path := join input_dir processing_file in
  df <- on_tables (read_parquet full_path) ;;
  let incomplete_df := find_incomplete_rows df in
  match incomplete_df with
  | [] =>
      on_input (fun ds => mark_as_processed pl ds full_path) ;;;
      ret 0
  | _ =>
      results <- download incomplete_df ;;
      out <- on_store (apply_results true results (df, 0)) ;;
      on_tables (write_parquet (fst out) full_path) ;;;
      on_input (fun ds => mark_as_processed pl ds full_path) ;;;
      ret (snd out)
  end.

(** [self.config.input_dir], which is also the handler's. *)
Variable input_dir : string.

(** The [for] loop of [run] over the files still to visit: what a file
    raises is logged and the loop goes on. *)
Fixpoint run_files (parquet_files : list string) (total_success : Z)
    : M world Z :=
  match parquet_files with
  | [] => ret total_success
  | parquet_file :: rest =>
      total_success <-
        try_except
          (success_count <- process_parquet_file parquet_file ;;
           ret (total_success + success_count))
          (fun e => ret total_success) ;;
      run_files rest total_success
  end.

Definition run : M world Z :=
  parquet_files <-
    gets (fun w => list_parquet_files (in_dirs w) (tables w) input_dir) ;;
  match parquet_files with
  | [] => ret 0
  | _ => run_files parquet_files 0
  end.

(** The [for] loop of [resume]. *)
Fixpoint resume_files (processing_files : list string) (total_success : Z)
    : M world Z :=
  match processing_files with
  | [] => ret total_success
  | processing_file :: rest =>
      total_success <-
        try_except
          (success_count <- resume_file input_dir processing_file ;;
           ret (total_success + success_count))
          (fun e => ret total_success) ;;
      resume_files rest total_success
  end.

Definition resume : M world Z :=
  names <- on_input (fun ds => os_listdir ds input_dir) ;;
  let processing_files :=
    filter (fun f => endswith "_processing.parquet" f = true) names in
  match processing_files with
  | [] => run
  | _ =>
      total_success <- resume_files processing_files 0 ;;
      rest <- run ;;
      ret (total_success + rest)
  end.

End WithEnvironment.

End App.

(** * Notions used in the statements *)

Module Spec.
Import PyStr Os Store.

(** The directory of batch number [n] under [out]. *)
Definition batch_dir (out : string) (n : Z) : string :=
  join out (format_06d n).

(** [sizeOf]: the bytes of the regular files directly inside [d], the sum
    [_check_batch_size] computes for the current batch directory. *)
Definition sizeOf (fs : filesystem) (d : string) : Z :=
  total_size fs d (omap (child_name d) (elements (dirs fs ∪ dom (files fs)))).

Definition threshold (gb : Z) : Z := gb * 1024 ^ 3.

(** A directory path in the shape the program builds them: not empty, no
    separator at the end. *)
Definition proper_dir (d : string) : Prop :=
  d <> "" /\ endswith "/" d = false.

(** [old in s]. *)
Fixpoint occurs (old s : string) : bool :=
  startswith old s ||
  match s with
  | EmptyString => false
  | String _ s' => occurs old s'
  end.

(** [glob.has_magic(s)]: one of the pattern characters is in [s]. *)
Definition has_magic (s : string) : bool :=
  contains_char "*" s || contains_char "?" s || contains_char "[" s.

(** No directory of the input side is named like a table. *)
Definition plain_dirs (ds : gset string) : Prop :=
  forall d, d ∈ ds -> endswith ".parquet" d = false.

(** Every regular file lies in a directory. *)
Definition fs_ok (fs : filesystem) : Prop :=
  map_Forall (fun p _ => dirname p ∈ dirs fs) (files fs).

(** What happens to the output tree during a run: the program saves an
    image, or somebody removes a file. *)
Inductive event : Type :=
  | Save (key : label) (img_stream : stream) (extension : string)
  | Remove (path : string).

Definition step (e : event) (s : Store.state) : Store.state :=
  match e with
  | Save key img ext => snd (save_image key img ext s)
  | Remove p => (fst s, unlink (snd s) p)
  end.

Fixpoint run (evs : list event) (s : Store.state) : Store.state :=
  match evs with
  | [] => s
  | e :: evs' => run evs' (step e s)
  end.

(** What a run keeps true of the object and the tree: the batch number is
    not negative, files lie in directories, and no batch directory with a
    number above the current one is there. *)
Definition inv (s : Store.state) : Prop :=
  0 <= current_batch (fst s)
  /\ fs_ok (snd s)
  /\ forall n, current_batch (fst s) < n ->
              batch_dir (output_dir (fst s)) n ∉ dirs (snd s).

(** The names [_get_next_batch_number] takes into account. *)
Definition numeric_subdirs (fs : filesystem) (out : string)
    (names : list string) : list string :=
  filter (fun d => isdir fs (join out d) && isdigit d = true) names.

(** How a row may differ after a pass over its table: not at all, or, if
    its status was unset, by now having the status success or failed; the
    URL stays. *)
Definition terminal (v : option string) : Prop :=
  v = Some "success" \/ v = Some "failed".

Definition row_step (r r' : row) : Prop :=
  url r' = url r /\ (r' = r \/ (status r = None /\ terminal (status r'))).

(** The table in memory during a pass, against the table as loaded: the
    labels stay too. *)
Definition frame_step (df df' : dataframe) : Prop :=
  Forall2 (fun a b => fst a = fst b /\ row_step (snd a) (snd b)) df df'.

(** A table on disk against an earlier one: the rows, in their order. *)
Definition table_step (df df' : dataframe) : Prop :=
  Forall2 (fun a b => row_step (snd a) (snd b)) df df'.

(** Every table there is afterwards comes from a table there was before,
    under whatever name, row by row. *)
Definition tables_step (t t' : gmap string dataframe) : Prop :=
  forall q df', t' !! q = Some df' ->
    exists q0 df0, t !! q0 = Some df0 /\ table_step df0 df'.

(** The key of a row is unique within its table. *)
Definition unique_labels (df : dataframe) : Prop := NoDup (map fst df).

(** What [process_parquet_file] and the loop body of [resume] both run
    once they hold the path of the file in the processing state;
    [with_filepath] is the one line in which the two copies differ. *)
Definition process_rows (pl : platform)
    (urlopen : Z -> label -> string -> nat -> Net.response)
    (completed : list (label * row) -> list (label * row))
    (downloader : Net.Downloader) (with_filepath : bool)
    (processing_file : string) : M App.world Z :=
  df <- App.on_tables (Parquet.read_parquet processing_file) ;;
  let incomplete_df := Parquet.find_incomplete_rows df in
  match incomplete_df with
  | [] =>
      App.on_input (fun ds => Parquet.mark_as_processed pl ds processing_file) ;;;
      ret 0
  | _ =>
      results <- App.download urlopen completed downloader incomplete_df ;;
      out <- App.on_store (App.apply_results with_filepath results (df, 0)) ;;
      App.on_tables (Parquet.write_parquet (fst out) processing_file) ;;;
      App.on_input (fun ds => Parquet.mark_as_processed pl ds processing_file) ;;;
      ret (snd out)
  end.

(** The rows of a table that are marked success, counted. *)
Definition is_success (r : row) : bool :=
  match status r with
  | Some v => String.eqb v "success"
  | None => false
  end.

Definition successes (df : dataframe) : Z :=
  Z.of_nat (length (List.filter (fun a => is_success (snd a)) df)).

(** The [i]-th request made for a row comes back with a body. *)
Definition attempt_ok (urlopen : Z -> label -> string -> nat -> Net.response)
    (self : Net.Downloader) (key : label) (r : row) (i : nat) : Prop :=
  Net.succeeded (Net.download_image urlopen self key r i) = true.

End Spec.

(** * Concrete inputs *)

Module Fixture.

(** A network that times out twice on every row and then answers. *)
Definition flaky_net (tmo : Z) (k : label) (u : string) (i : nat)
    : Net.response :=
  if (i <? 2)%nat then Net.Failure "timed out" else Net.Body 10%N.

Definition a_row : row := mkRow "https://x.com/a.png" None None None.

(** An output directory that is there and empty. *)
Definition empty_out : filesystem := mkFs {[ "out" ]} ∅.

(** The storage object and the tree right after [Storage("out", gb)] on
    it. *)
Definition fresh_store (gb : Z) : Store.state :=
  (Store.mkStorage "out" gb 1 0, mkFs {[ "out/000001"; "out" ]} ∅).

(** One image of a byte more than 1 GiB saved, then removed by somebody
    else. *)
Definition filled : Store.state :=
  Spec.step (Spec.Save (IntLabel 1) (2 ^ 30 + 1)%N ".jpg") (fresh_store 1).
Definition emptied : Store.state :=
  Spec.step (Spec.Remove "out/000001/1.jpg") filled.

(** An output directory with batches 3 and 7, a directory that is not a
    batch, and a regular file with a numeric name. *)
Definition numbered : filesystem :=
  mkFs {[ "out"; "out/000003"; "out/7"; "out/abc" ]} {[ "out/12" := 5%N ]}.



(** A pending table with one row to fetch, and an older copy of it that
    a run left in the processing state with its row done. *)
Definition pending_table : dataframe :=
  [(IntLabel 0, mkRow "https://x.com/a.png" None None None)].
Definition stale_table : dataframe :=
  [(IntLabel 0, mkRow "https://x.com/a.png" (Some "success") None
                  (Some "out/000001/0.png"))].

Definition one_pending : gmap string dataframe :=
  {[ "in/a.parquet" := pending_table ]}.
Definition one_processing : gmap string dataframe :=
  {[ "in/a_processing.parquet" := pending_table ]}.
Definition pending_and_stale : gmap string dataframe :=
  {[ "in/a.parquet" := pending_table;
     "in/a_processing.parquet" := stale_table ]}.

(** The directories of the input side in these examples. *)
Definition in_only : gset string := {[ "in" ]}.


(** A network that answers at once. *)
Definition reliable_net (tmo : Z) (k : label) (u : string) (i : nat)
    : Net.response := Net.Body 10%N.

Definition a_downloader : Net.Downloader := Net.mkDownloader 30 3 16.

(** Tasks that complete in the order they were submitted. *)
Definition in_order (l : list (label * row)) : list (label * row) := l.

(** A table with a row done, a row to fetch and a row that failed. *)
Definition mixed_table : dataframe :=
  [(IntLabel 0, mkRow "https://x.com/a.png" (Some "success") None
                  (Some "out/000001/0.png"));
   (IntLabel 1, mkRow "https://x.com/b.GIF?s=1" None None None);
   (IntLabel 2, mkRow "https://x.com/c.jpg" (Some "failed")
                  (Some "timed out") None)].


(** Two rows under one label, the first of them done. *)
Definition twins_table : dataframe :=
  [(IntLabel 0, mkRow "https://x.com/a.png" (Some "success") None
                  (Some "out/000001/0.png"));
   (IntLabel 0, mkRow "https://x.com/b.png" None None None)].

Definition mixed_world (name : string) : App.world :=
  App.mkWorld {[ name := mixed_table ]} (fresh_store 1)
    {[ PyStr.dirname name ]}.

(** A function that raises twice and then returns 7. *)
Definition flaky_func (calls : nat) : result Z :=
  if (calls <? 2)%nat then Raise (ValueError "busy") else Ok 7.

(** Batch 1 holds 1 GiB, and the path of batch 2 is a regular file. *)
Definition blocked : Store.state :=
  (Store.mkStorage "out" 1 1 0,
   mkFs {[ "out/000001"; "out" ]}
        {[ "out/000001/a.jpg" := (2 ^ 30)%N; "out/000002" := 0%N ]}).


End Fixture.

(** * Properties *)

(** ** downloader.py: the retry loop *)

Section Retry.
Import Net Spec.

Variable urlopen : Z -> label -> string -> nat -> response.
Variable self : Downloader.
Variable key : label.
Variable r : row.

Local Abbreviation ok := (attempt_ok urlopen self key r).
Local Abbreviation attempt := (download_image urlopen self key r).

(** The loop either returns at the first good attempt, or runs out with
    the last attempt in its variables. *)
Lemma retry_loop_cases (n i : nat) (locals : option fetched) :
  (exists j, (j < n)%nat /\ ok (i + j)
             /\ (forall j', (j' < j)%nat -> ~ ok (i + j'))
             /\ retry_loop urlopen self key r n i locals
                = (inl (attempt (i + j)%nat), S (i + j)))
  \/ ((forall j, (j < n)%nat -> ~ ok (i + j))
      /\ retry_loop urlopen self key r n i locals
         = (inr (match n with
                 | O => locals
                 | S n' => Some (attempt (i + n')%nat)
                 end), (i + n)%nat)).
Proof.
  revert i locals. induction n as [|n IH]; intros i locals.
  - right. split; [lia|]. simpl. by rewrite Nat.add_0_r.
  - simpl. destruct (succeeded (attempt i)) eqn:E.
    + left. exists O. rewrite Nat.add_0_r. repeat split; [lia|done|lia].
    + destruct (IH (S i) (Some (attempt i)))
        as [(j & Hj & Hok & Hbefore & Heq)|[Hnone Heq]].
      * left. exists (S j). rewrite Nat.add_succ_r. repeat split; [lia|done| |done].
        intros [|j'] Hlt.
        -- rewrite Nat.add_0_r. unfold attempt_ok. by rewrite E.
        -- rewrite Nat.add_succ_r. apply Hbefore. lia.
      * right. split.
        -- intros [|j] Hlt.
           ++ rewrite Nat.add_0_r. unfold attempt_ok. by rewrite E.
           ++ rewrite Nat.add_succ_r. apply Hnone. lia.
        -- rewrite Heq, Nat.add_succ_r. f_equal. f_equal.
           destruct n; [by rewrite Nat.add_0_r|].
           by rewrite Nat.add_succ_r.
Qed.

Lemma failed_attempt_shape (i : nat) :
  ~ ok i -> exists err, attempt i = (key, None, err).
Proof.
  unfold attempt_ok, download_image.
  destruct (urlopen _ _ _ _); simpl; [done|eauto].
Qed.

(** C6. With [retries >= 0], [download_image_with_retry] returns a triple
    after at least one and at most [retries + 1] calls of
    [download_image]; the triple is a success exactly when one of the
    [retries + 1] attempts is; when the first [N] attempts fail and the
    next succeeds, exactly [N + 1] calls are made and that attempt is
    returned; when all fail, the last failure is returned. *)
Theorem download_image_with_retry_spec :
  0 <= retries self ->
  let n := Z.to_nat (retries self + 1) in
  exists (t : fetched) (calls : nat),
    download_image_with_retry urlopen self key r = (Ok t, calls)
    /\ (1 <= calls <= n)%nat
    /\ (succeeded t = true <-> exists i, (i < n)%nat /\ ok i)
    /\ (forall N, (N < n)%nat -> (forall i, (i < N)%nat -> ~ ok i) -> ok N ->
          calls = S N /\ t = attempt N)
    /\ ((forall i, (i < n)%nat -> ~ ok i) ->
          calls = n /\ t = attempt (n - 1)%nat).
Proof.
  intros Hretries n. unfold download_image_with_retry. fold n.
  assert (Hn : (1 <= n)%nat) by (unfold n; lia).
  destruct (retry_loop_cases n 0 None)
    as [(j & Hj & Hok & Hbefore & ->)|[Hnone ->]]; simpl in *.
  - exists (attempt j), (S j). split; [done|]. split; [lia|].
    split; [|split].
    + split; [eauto|done].
    + intros N HN Hfail HokN.
      destruct (Nat.lt_trichotomy N j) as [Hlt|[->|Hgt]]; [|done|].
      * by destruct (Hbefore N Hlt).
      * by destruct (Hfail j Hgt).
    + intros Hall. by destruct (Hall j Hj).
  - destruct n as [|n']; [lia|].
    destruct (failed_attempt_shape n' (Hnone n' ltac:(lia))) as [err Herr].
    rewrite Herr. exists (key, None, err), (S n'). split; [done|].
    split; [lia|]. split; [|split].
    + split; [done|]. intros (i & Hi & Hoki). by destruct (Hnone i Hi).
    + intros N HN _ HokN. by destruct (Hnone N HN).
    + intros _. split; [done|]. by rewrite Nat.sub_succ, Nat.sub_0_r.
Qed.

(** C9. With [retries < 0] the loop body never runs, no request is made,
    and the final [return] reads the unbound local [key]: the call raises
    [UnboundLocalError], a [NameError].  With [retries >= 0] it returns a
    triple. *)
Theorem download_image_with_retry_negative :
  (retries self < 0 ->
     download_image_with_retry urlopen self key r
     = (Raise (UnboundLocalError "key"), O))
  /\ (0 <= retries self ->
        is_ok (fst (download_image_with_retry urlopen self key r)) = true).
Proof.
  split.
  - intros Hneg. unfold download_image_with_retry.
    replace (Z.to_nat (retries self + 1)) with O by lia. reflexivity.
  - intros Hpos. unfold download_image_with_retry.
    destruct (retry_loop_cases (Z.to_nat (retries self + 1)) 0 None)
      as [(j & _ & _ & _ & ->)|[_ ->]]; [done|].
    destruct (Z.to_nat (retries self + 1)) as [|n'] eqn:E; [lia|].
    by destruct (attempt (0 + n')%nat) as [[? ?] ?].
Qed.

End Retry.

Lemma download_image_with_retry_spec_witness :
  exists t calls,
    Net.download_image_with_retry Fixture.flaky_net (Net.mkDownloader 30 3 16)
      (IntLabel 0) Fixture.a_row = (Ok t, calls)
    /\ calls = 3%nat /\ Net.succeeded t = true.
Proof.
  destruct (download_image_with_retry_spec Fixture.flaky_net
              (Net.mkDownloader 30 3 16) (IntLabel 0) Fixture.a_row)
    as (t & calls & Heq & _ & _ & Hfirst & _).
  { simpl. lia. }
  exists t, calls. split; [exact Heq|].
  destruct (Hfirst 2%nat) as [-> ->].
  - simpl. lia.
  - intros i Hi. unfold Spec.attempt_ok.
    destruct i as [|[|i]]; [by vm_compute..|lia].
  - reflexivity.
  - split; reflexivity.
Defined.

Lemma download_image_with_retry_negative_witness :
  Net.download_image_with_retry Fixture.flaky_net (Net.mkDownloader 30 (-1) 16)
    (IntLabel 0) Fixture.a_row
  = (Raise (UnboundLocalError "key"), O)
  /\ is_ok (fst (Net.download_image_with_retry Fixture.flaky_net
                   (Net.mkDownloader 30 0 16) (IntLabel 0) Fixture.a_row))
     = true.
Proof.
  split.
  - apply (proj1 (download_image_with_retry_negative Fixture.flaky_net
                    (Net.mkDownloader 30 (-1) 16) (IntLabel 0) Fixture.a_row)).
    simpl. lia.
  - apply (proj2 (download_image_with_retry_negative Fixture.flaky_net
                    (Net.mkDownloader 30 0 16) (IntLabel 0) Fixture.a_row)).
    simpl. lia.
Defined.

(** ** Strings and paths *)

Section StringFacts.
Import PyStr.

Lemma app_cons a s t : String a s +:+ t = String a (s +:+ t).
Proof. reflexivity. Qed.

Lemma app_empty_l t : "" +:+ t = t.
Proof. reflexivity. Qed.

Lemma app_empty_r s : s +:+ "" = s.
Proof. induction s as [|a s IH]; [done|]. by rewrite app_cons, IH. Qed.

Lemma app_assoc' s t u : (s +:+ t) +:+ u = s +:+ (t +:+ u).
Proof. induction s as [|a s IH]; [done|]. by rewrite !app_cons, IH. Qed.

Lemma length_app s t :
  String.length (s +:+ t) = (String.length s + String.length t)%nat.
Proof. induction s as [|a s IH]; [done|]. rewrite app_cons. simpl. by rewrite IH. Qed.

Lemma app_eq_empty s t : s +:+ t = "" -> s = "" /\ t = "".
Proof. destruct s; [by rewrite app_empty_l|by rewrite app_cons]. Qed.

Lemma contains_char_app c s t :
  contains_char c (s +:+ t) = contains_char c s || contains_char c t.
Proof.
  induction s as [|a s IH]; [done|].
  rewrite app_cons. simpl. by rewrite IH, orb_assoc.
Qed.


Lemma rfind_none c s : contains_char c s = false -> rfind c s = -1.
Proof.
  induction s as [|a s IH]; simpl; [done|].
  intros [Ha Hs]%orb_false_iff. by rewrite (IH Hs), Ha.
Qed.

Lemma rfind_app_last c s t :
  contains_char c t = false ->
  rfind c (s +:+ String c t) = Z.of_nat (String.length s).
Proof.
  intros Ht. induction s as [|a s IH].
  - rewrite app_empty_l. simpl. by rewrite (rfind_none _ _ Ht), Ascii.eqb_refl.
  - rewrite app_cons. cbn [rfind String.length]. rewrite IH.
    destruct (0 <=? Z.of_nat (String.length s)) eqn:E; lia.
Qed.

Lemma substring_0_app s t : substring 0 (String.length s) (s +:+ t) = s.
Proof.
  induction s as [|a s IH]; [by destruct t|].
  rewrite app_cons. simpl. by rewrite IH.
Qed.

Lemma substring_all s : substring 0 (String.length s) s = s.
Proof. induction s as [|a s IH]; [done|]. simpl. by rewrite IH. Qed.

Lemma substring_skip_app s t :
  substring (String.length s) (String.length t) (s +:+ t) = t.
Proof.
  induction s as [|a s IH]; [rewrite app_empty_l; apply substring_all|].
  by rewrite app_cons.
Qed.

Lemma endswith_go_app_nonempty c s t :
  t <> "" -> endswith_go (String c "") (s +:+ t) = endswith_go (String c "") t.
Proof.
  intros Ht. induction s as [|a s IH]; [done|].
  rewrite app_cons. cbn [endswith_go]. rewrite IH.
  destruct (s +:+ t) eqn:E.
  - apply app_eq_empty in E as [_ ?]. done.
  - cbn. by destruct (Ascii.eqb c a).
Qed.

Lemma endswith_go_contains c s :
  contains_char c s = false -> endswith_go (String c "") s = false.
Proof.
  induction s as [|a s IH]; [done|].
  cbn [contains_char endswith_go]. intros [Ha Hs]%orb_false_iff.
  rewrite (IH Hs), orb_false_r. cbn. rewrite Ascii.eqb_sym, Ha. done.
Qed.

Lemma rstrip_id c s : endswith_go (String c "") s = false -> rstrip c s = s.
Proof.
  induction s as [|a s IH]; [done|].
  cbn [endswith_go rstrip]. intros [Ha Hs]%orb_false_iff.
  rewrite (IH Hs).
  destruct s as [|b s]; [|done]. cbn in Ha |- *.
  rewrite (Ascii.eqb_sym a c). by destruct (Ascii.eqb c a).
Qed.

Lemma rstrip_app_char c s : rstrip c (s +:+ String c "") = rstrip c s.
Proof.
  induction s as [|a s IH].
  - rewrite app_empty_l. cbn. by rewrite Ascii.eqb_refl.
  - rewrite app_cons. cbn [rstrip]. by rewrite IH.
Qed.

Lemma startswith_char_contains c s :
  contains_char c s = false -> startswith (String c "") s = false.
Proof.
  destruct s as [|a s]; [done|]. cbn [contains_char startswith].
  intros [Ha _]%orb_false_iff. by rewrite Ascii.eqb_sym, Ha.
Qed.

(** The path of [n] inside [d], for a proper directory path [d]. *)
Lemma join_plain d n :
  d <> "" -> endswith "/" d = false -> contains_char "/" n = false ->
  join d n = d +:+ "/" +:+ n.
Proof.
  intros Hd Hend Hn. unfold join.
  rewrite (startswith_char_contains _ _ Hn), Hend, orb_false_r.
  by destruct (String.eqb_spec d "").
Qed.

Lemma split_plain d n :
  d <> "" -> endswith "/" d = false -> contains_char "/" n = false ->
  split (d +:+ "/" +:+ n) = (d, n).
Proof.
  intros Hd Hend Hn. unfold split.
  change ("/" +:+ n) with (String "/" n).
  rewrite (rfind_app_last _ _ _ Hn).
  assert (Hhead : slice 0 (Z.of_nat (String.length d) + 1) (d +:+ String "/" n)
                  = d +:+ "/").
  { unfold slice.
    replace (Z.to_nat (Z.of_nat (String.length d) + 1 - 0))
      with (String.length (d +:+ "/")) by (rewrite length_app; simpl; lia).
    change (String "/" n) with ("/" +:+ n).
    rewrite <- app_assoc'. apply substring_0_app. }
  assert (Htail : slice_from (Z.of_nat (String.length d) + 1) (d +:+ String "/" n)
                  = n).
  { unfold slice_from.
    replace (Z.to_nat (Z.of_nat (String.length d) + 1))
      with (String.length (d +:+ "/")) by (rewrite length_app; simpl; lia).
    change (String "/" n) with ("/" +:+ n).
    rewrite <- app_assoc', (length_app (d +:+ "/") n), Nat.add_sub_swap, Nat.sub_diag
      by lia.
    apply substring_skip_app. }
  rewrite Hhead, Htail, rstrip_app_char, (rstrip_id _ _ Hend).
  destruct (String.eqb_spec (d +:+ "/") "") as [E|_].
  { apply app_eq_empty in E as [_ ?]. done. }
  by destruct (String.eqb_spec d "").
Qed.

Lemma strip_prefix_app p n : strip_prefix p (p +:+ n) = Some n.
Proof.
  induction p as [|a p IH]; [by destruct n|].
  rewrite app_cons. cbn. by rewrite Ascii.eqb_refl.
Qed.

Lemma strip_prefix_Some p s n : strip_prefix p s = Some n -> s = p +:+ n.
Proof.
  revert s. induction p as [|a p IH]; intros s.
  - cbn. by intros [= ->].
  - destruct s as [|b s]; cbn; [done|].
    destruct (Ascii.eqb_spec a b) as [->|]; [|done].
    intros H. by rewrite (IH _ H).
Qed.

End StringFacts.

(** ** utils.py: the extension heuristic *)

Section Extension.
Import PyStr Utils.










End Extension.

(** ** Decimal names of batch directories *)

Section Digits.
Import PyStr.

Local Abbreviation digit_step :=
  (fun (acc : Z) (a : ascii) => 10 * acc + (Z.of_nat (nat_of_ascii a) - 48)).

Lemma chars_app s t : chars (s +:+ t) = (chars s ++ chars t)%list.
Proof.
  induction s as [|a s IH]; [done|].
  rewrite app_cons. unfold chars in *. cbn. by rewrite IH.
Qed.

Lemma small_N_cases (d : N) :
  (d < 10)%N ->
  d = 0%N \/ d = 1%N \/ d = 2%N \/ d = 3%N \/ d = 4%N \/ d = 5%N
  \/ d = 6%N \/ d = 7%N \/ d = 8%N \/ d = 9%N.
Proof. lia. Qed.

Lemma pretty_N_char_digit (d : N) :
  (d < 10)%N ->
  is_decimal_char (pretty_N_char d) = true
  /\ Z.of_nat (nat_of_ascii (pretty_N_char d)) - 48 = Z.of_N d.
Proof.
  intros Hd. destruct (small_N_cases d Hd)
    as [->|[->|[->|[->|[->|[->|[->|[->|[->| ->]]]]]]]]]; by vm_compute.
Qed.

Lemma pretty_N_go_digits (x : N) (s : string) :
  forallb is_decimal_char (chars s) = true ->
  forallb is_decimal_char (chars (pretty_N_go x s)) = true.
Proof.
  revert s. induction (N.lt_wf_0 x) as [x _ IH]; intros s Hs.
  destruct (decide (x = 0%N)) as [->|Hx]; [done|].
  rewrite pretty_N_go_step by lia. apply IH.
  - apply N.div_lt; lia.
  - unfold chars in *. cbn [list_ascii_of_string forallb].
    rewrite Hs, andb_true_r.
    apply pretty_N_char_digit, N.mod_lt. lia.
Qed.

Lemma pretty_N_go_value (x : N) (s : string) :
  fold_left digit_step (chars (pretty_N_go x s)) 0
  = fold_left digit_step (chars s) (Z.of_N x).
Proof.
  revert s. induction (N.lt_wf_0 x) as [x _ IH]; intros s.
  destruct (decide (x = 0%N)) as [->|Hx]; [done|].
  rewrite pretty_N_go_step by lia. rewrite IH by (apply N.div_lt; lia).
  cbn [chars list_ascii_of_string fold_left]. f_equal.
  destruct (pretty_N_char_digit (x `mod` 10)%N) as [_ ->].
  { apply N.mod_lt. lia. }
  pose proof (N.div_mod x 10). lia.
Qed.

Lemma pretty_N_go_nonempty (x : N) (s : string) :
  s <> "" -> pretty_N_go x s <> "".
Proof.
  revert s. induction (N.lt_wf_0 x) as [x _ IH]; intros s Hs.
  destruct (decide (x = 0%N)) as [->|Hx]; [done|].
  rewrite pretty_N_go_step by lia. apply IH; [apply N.div_lt; lia|done].
Qed.

Lemma pretty_N_digits (x : N) :
  forallb is_decimal_char (chars (pretty x)) = true.
Proof.
  unfold pretty, pretty_N. case_decide; [done|].
  by apply pretty_N_go_digits.
Qed.

Lemma pretty_N_nonempty (x : N) : pretty x <> "".
Proof.
  unfold pretty, pretty_N. case_decide; [done|].
  rewrite pretty_N_go_step by lia. by apply pretty_N_go_nonempty.
Qed.

Lemma pretty_N_value (x : N) : int_of_digits (pretty x) = Z.of_N x.
Proof.
  unfold int_of_digits, pretty, pretty_N. case_decide as Hx; [by subst|].
  apply pretty_N_go_value.
Qed.

Lemma zeros_digits k : forallb is_decimal_char (chars (zeros k)) = true.
Proof.
  induction k as [|k IH]; [done|].
  unfold chars in *. cbn [zeros list_ascii_of_string forallb]. by rewrite IH.
Qed.

Lemma zeros_value k acc s :
  acc = 0 ->
  fold_left digit_step (chars (zeros k +:+ s)) acc = fold_left digit_step (chars s) 0.
Proof.
  intros ->. induction k as [|k IH]; [done|].
  cbn [zeros]. rewrite app_cons. exact IH.
Qed.

Lemma decimal_is_digit (l : list ascii) :
  forallb is_decimal_char l = true -> forallb is_digit_char l = true.
Proof.
  induction l as [|a l IH]; [done|]. cbn [forallb].
  intros [Ha Hl]%andb_true_iff. rewrite (IH Hl), andb_true_r.
  unfold is_digit_char. by rewrite Ha.
Qed.

Lemma digits_no_char (c : ascii) (s : string) :
  is_digit_char c = false ->
  forallb is_digit_char (chars s) = true -> contains_char c s = false.
Proof.
  intros Hc. induction s as [|a s IH]; [done|].
  cbn [chars list_ascii_of_string forallb contains_char].
  intros [Ha Hs]%andb_true_iff. rewrite (IH Hs), orb_false_r.
  destruct (Ascii.eqb_spec a c) as [->|]; [congruence|done].
Qed.

Lemma zfill_digits w s :
  forallb is_decimal_char (chars s) = true ->
  forallb is_decimal_char (chars (zfill w s)) = true.
Proof.
  intros Hs. unfold zfill. by rewrite chars_app, forallb_app, zeros_digits, Hs.
Qed.

Lemma zfill_nonempty w s : s <> "" -> zfill w s <> "".
Proof. intros Hs [_ ?]%app_eq_empty. done. Qed.

(** A batch number that is not negative prints as digits only, and reads
    back as itself. *)
Lemma format_06d_decimal (n : Z) :
  0 <= n -> forallb is_decimal_char (chars (format_06d n)) = true.
Proof.
  intros Hn.
  assert (format_06d n = zfill 6 (pretty (Z.to_N n))) as -> by by destruct n.
  apply zfill_digits, pretty_N_digits.
Qed.

Lemma format_06d_isdigit (n : Z) : 0 <= n -> isdigit (format_06d n) = true.
Proof.
  intros Hn. unfold isdigit.
  rewrite (decimal_is_digit _ (format_06d_decimal n Hn)), andb_true_r.
  apply negb_true_iff, String.eqb_neq.
  assert (format_06d n = zfill 6 (pretty (Z.to_N n))) as -> by by destruct n.
  apply zfill_nonempty, pretty_N_nonempty.
Qed.

Lemma format_06d_value (n : Z) : 0 <= n -> int_of_digits (format_06d n) = n.
Proof.
  intros Hn.
  assert (format_06d n = zfill 6 (pretty (Z.to_N n))) as -> by by destruct n.
  unfold int_of_digits, zfill. rewrite zeros_value by done.
  fold (int_of_digits (pretty (Z.to_N n))). rewrite pretty_N_value. lia.
Qed.

Lemma format_06d_int (n : Z) : 0 <= n -> int_ (format_06d n) = Ok n.
Proof.
  intros Hn. unfold int_.
  unfold all_decimal. by rewrite (format_06d_decimal n Hn), format_06d_value.
Qed.

Lemma format_06d_inj (n m : Z) :
  0 <= n -> 0 <= m -> format_06d n = format_06d m -> n = m.
Proof.
  intros Hn Hm E.
  by rewrite <- (format_06d_value n Hn), <- (format_06d_value m Hm), E.
Qed.

Lemma format_06d_nonempty (n : Z) : format_06d n <> "".
Proof.
  destruct n; [done| |done].
  apply zfill_nonempty, pretty_N_nonempty.
Qed.

Lemma format_06d_no_slash (n : Z) : contains_char "/" (format_06d n) = false.
Proof.
  destruct n as [|q|q].
  - done.
  - apply digits_no_char; [done|].
    apply decimal_is_digit, zfill_digits, pretty_N_digits.
  - unfold format_06d. change ("-" +:+ ?s) with (String "-" s).
    cbn [contains_char]. rewrite orb_false_l.
    apply digits_no_char; [done|].
    apply decimal_is_digit, zfill_digits, pretty_N_digits.
Qed.

End Digits.

(** ** os: directories and their entries *)

Section OsFacts.
Import PyStr Os Spec.

Lemma join_relative d n :
  contains_char "/" n = false -> join d n = dir_prefix d +:+ n.
Proof.
  intros Hn. unfold join, dir_prefix.
  rewrite (startswith_char_contains _ _ Hn).
  destruct (String.eqb d "" || endswith "/" d); [done|].
  by rewrite app_assoc'.
Qed.

Lemma child_name_Some d p n :
  child_name d p = Some n <->
  p = join d n /\ n <> "" /\ contains_char "/" n = false.
Proof.
  unfold child_name. split.
  - destruct (strip_prefix (dir_prefix d) p) as [m|] eqn:E; [|done].
    apply strip_prefix_Some in E as ->.
    destruct (String.eqb_spec m ""); [done|].
    destruct (contains_char "/" m) eqn:Hm; [done|].
    intros [= ->]. by rewrite join_relative.
  - intros (-> & Hne & Hn). rewrite join_relative, strip_prefix_app by done.
    rewrite Hn. by destruct (String.eqb_spec n "").
Qed.

Lemma split_join d n :
  proper_dir d -> contains_char "/" n = false ->
  split (join d n) = (d, n).
Proof.
  intros [Hd Hend] Hn. rewrite join_plain by done. by apply split_plain.
Qed.

Lemma batch_dir_eq out n : batch_dir out n = dir_prefix out +:+ format_06d n.
Proof. apply join_relative, format_06d_no_slash. Qed.

Lemma batch_dir_proper out n : proper_dir (batch_dir out n).
Proof.
  rewrite batch_dir_eq. split.
  - intros [_ ?]%app_eq_empty. by eapply format_06d_nonempty.
  - unfold endswith. rewrite endswith_go_app_nonempty by apply format_06d_nonempty.
    apply endswith_go_contains, format_06d_no_slash.
Qed.

Lemma batch_dir_inj out n m :
  0 <= n -> 0 <= m -> batch_dir out n = batch_dir out m -> n = m.
Proof.
  rewrite !batch_dir_eq. intros Hn Hm E.
  apply (inj (String.app _)) in E. by apply format_06d_inj.
Qed.

Lemma child_name_batch_dir out n :
  child_name out (batch_dir out n) = Some (format_06d n).
Proof.
  apply child_name_Some. split; [done|].
  split; [apply format_06d_nonempty|apply format_06d_no_slash].
Qed.

Lemma isfile_true fs p : isfile fs p = true <-> is_Some (files fs !! p).
Proof. unfold isfile. apply bool_decide_eq_true. Qed.

Lemma isdir_true fs p : isdir fs p = true <-> p ∈ dirs fs.
Proof. unfold isdir. apply bool_decide_eq_true. Qed.

Lemma total_size_no_files fs d names :
  (forall f, f ∈ names -> isfile fs (join d f) = false) ->
  Store.total_size fs d names = 0.
Proof.
  intros H. unfold Store.total_size.
  replace (filter _ names) with (@nil string); [done|].
  symmetry. induction names as [|f names IH]; [done|].
  rewrite filter_cons_False.
  - apply IH. intros f' Hf'. apply H. by right.
  - rewrite H by left. done.
Qed.

Lemma fs_ok_makedirs fs d fs' :
  fs_ok fs -> makedirs fs d = Ok fs' -> fs_ok fs'.
Proof.
  unfold makedirs. destruct (isfile fs d); [done|]. intros Hok [= <-].
  intros p sz Hp. cbn in *. apply elem_of_union_r. by eapply Hok.
Qed.

Lemma fs_ok_write_file fs p n fs' :
  fs_ok fs -> write_file fs p n = Ok fs' -> fs_ok fs'.
Proof.
  unfold write_file.
  destruct (_ || _); [done|].
  destruct (isdir fs (dirname p)) eqn:Hdir; [|by destruct (isfile _ _)].
  intros Hok [= <-]. apply isdir_true in Hdir.
  intros q sz. cbn. rewrite lookup_insert.
  case_decide as E; [by subst|]. apply Hok.
Qed.

Lemma fs_ok_unlink fs p : fs_ok fs -> fs_ok (unlink fs p).
Proof.
  intros Hok q sz. cbn. rewrite lookup_delete.
  case_decide; [done|]. apply Hok.
Qed.

Lemma makedirs_dirs fs d fs' :
  makedirs fs d = Ok fs' -> dirs fs' = {[ d ]} ∪ dirs fs /\ files fs' = files fs.
Proof.
  unfold makedirs. destruct (isfile fs d); [done|]. by intros [= <-].
Qed.

Lemma write_file_Ok fs p n fs' :
  write_file fs p n = Ok fs' ->
  dirs fs' = dirs fs /\ files fs' = <[ p := n ]> (files fs)
  /\ dirname p ∈ dirs fs.
Proof.
  unfold write_file.
  destruct (_ || _); [done|].
  destruct (isdir fs (dirname p)) eqn:Hdir; [|by destruct (isfile _ _)].
  intros [= <-]. by apply isdir_true in Hdir.
Qed.

End OsFacts.

(** ** storage.py: batches *)

Section StoreFacts.
Import PyStr Os Store Spec.

(** [save_image] step by step. *)
Lemma save_image_unfold key img ext (st : Storage) (fs : filesystem) :
  save_image key img ext (st, fs) =
  match listdir fs (_get_batch_dir st) with
  | Raise e => (Raise e, (st, fs))
  | Ok names =>
      let write (st1 : Storage) (fs1 : filesystem) :=
        let filepath := join (_get_batch_dir st1) (safe_key key +:+ ext) in
        match write_file fs1 filepath img with
        | Ok fs2 => (Ok filepath, (st1, fs2))
        | Raise e => (Raise e, (st1, fs1))
        end in
      if batch_size_gb st * 1024 ^ 3 <=? total_size fs (_get_batch_dir st) names
      then
        let st1 := set_current_batch st (current_batch st + 1) in
        match makedirs fs (_get_batch_dir st1) with
        | Ok fs1 => write st1 fs1
        | Raise e => (Raise e, (st1, fs))
        end
      else write st fs
  end.
Proof.
  unfold save_image, _check_batch_size, _ensure_batch_dir_exists, bind,
    get_self, put_self, lift, update_fs, gets, modify, ret. cbn.
  destruct (listdir fs (_get_batch_dir st)) as [names|e]; [|done]. cbn.
  destruct (_ <=? _); cbn.
  - destruct (makedirs fs _) as [fs1|e]; [|done]. cbn.
    by destruct (write_file fs1 _ img).
  - by destruct (write_file fs _ img).
Qed.

Lemma listdir_Ok fs d names :
  listdir fs d = Ok names ->
  d ∈ dirs fs
  /\ names = omap (child_name d) (elements (dirs fs ∪ dom (files fs))).
Proof.
  unfold listdir. destruct (isdir fs d) eqn:E; [|by destruct (isfile fs d)].
  intros [= <-]. by apply isdir_true in E.
Qed.

(** What a successful [save_image] did. *)
Lemma save_image_Ok key img ext st fs path st' fs' :
  save_image key img ext (st, fs) = (Ok path, (st', fs')) ->
  exists fs1,
    path = join (_get_batch_dir st') (safe_key key +:+ ext)
    /\ write_file fs1 path img = Ok fs'
    /\ ((threshold (batch_size_gb st) <= sizeOf fs (_get_batch_dir st)
         /\ st' = set_current_batch st (current_batch st + 1)
         /\ makedirs fs (_get_batch_dir st') = Ok fs1)
        \/ (sizeOf fs (_get_batch_dir st) < threshold (batch_size_gb st)
            /\ st' = st /\ fs1 = fs)).
Proof.
  rewrite save_image_unfold.
  destruct (listdir fs (_get_batch_dir st)) as [names|e] eqn:Hls; [|done].
  apply listdir_Ok in Hls as [_ ->]. fold (sizeOf fs (_get_batch_dir st)).
  cbn zeta. destruct (_ <=? _) eqn:Hfull.
  - destruct (makedirs fs _) as [fs1|e] eqn:Hmk; [|done].
    destruct (write_file fs1 _ img) as [fs2|e] eqn:Hw; [|done].
    intros [= <- <- <-]. exists fs1. split; [done|]. split; [done|].
    left. unfold threshold. split; [lia|done].
  - destruct (write_file fs _ img) as [fs2|e] eqn:Hw; [|done].
    intros [= <- <- <-]. exists fs. split; [done|]. split; [done|].
    right. unfold threshold. split; [lia|done].
Qed.

(** Whatever [save_image] answers, the object keeps its settings and its
    batch number stays or goes up by one; directories are only added. *)
Lemma save_image_state key img ext st fs :
  let s' := snd (save_image key img ext (st, fs)) in
  output_dir (fst s') = output_dir st
  /\ batch_size_gb (fst s') = batch_size_gb st
  /\ (current_batch (fst s') = current_batch st
      \/ current_batch (fst s') = current_batch st + 1).
Proof.
  rewrite save_image_unfold.
  destruct (listdir fs (_get_batch_dir st)) as [names|e]; [|cbn; auto].
  cbn zeta. destruct (_ <=? _).
  - destruct (makedirs fs _) as [fs1|e]; [|cbn; auto].
    destruct (write_file fs1 _ img); cbn; auto.
  - destruct (write_file fs _ img); cbn; auto.
Qed.

Lemma step_state e (s : Store.state) :
  output_dir (fst (step e s)) = output_dir (fst s)
  /\ batch_size_gb (fst (step e s)) = batch_size_gb (fst s)
  /\ (current_batch (fst (step e s)) = current_batch (fst s)
      \/ current_batch (fst (step e s)) = current_batch (fst s) + 1).
Proof.
  destruct s as [st fs], e as [key img ext|p]; cbn [step]; [|cbn; auto].
  apply save_image_state.
Qed.

Lemma run_state evs (s : Store.state) :
  output_dir (fst (run evs s)) = output_dir (fst s)
  /\ batch_size_gb (fst (run evs s)) = batch_size_gb (fst s)
  /\ current_batch (fst s) <= current_batch (fst (run evs s)).
Proof.
  revert s. induction evs as [|e evs IH]; intros s; cbn [run]; [by auto with lia|].
  destruct (IH (step e s)) as (-> & -> & Hle).
  destruct (step_state e s) as (-> & -> & Hcur). repeat split; lia.
Qed.

End StoreFacts.

(** ** storage.py: numbering *)

Section Numbering.
Import PyStr Os Store Spec.

Lemma fold_max_spec (l : list Z) (x : Z) :
  x <= fold_left Z.max l x
  /\ (forall y, y ∈ l -> y <= fold_left Z.max l x)
  /\ (fold_left Z.max l x = x \/ fold_left Z.max l x ∈ l).
Proof.
  revert x. induction l as [|z l IH]; intros x; cbn [fold_left].
  - split; [lia|]. split; [|by left]. by intros y ?%elem_of_nil.
  - destruct (IH (Z.max x z)) as (Hle & Hall & Hin). split; [lia|]. split.
    + intros y [->|Hy]%elem_of_cons; [lia|by apply Hall].
    + destruct Hin as [Hin|Hin]; [|by right; right].
      rewrite Hin. destruct (Z.max_spec x z) as [[_ ->]|[_ ->]];
        [right; left|by left].
Qed.

Lemma max_list_spec (x : Z) (l : list Z) :
  max_list x l ∈ x :: l /\ forall y, y ∈ x :: l -> y <= max_list x l.
Proof.
  unfold max_list. destruct (fold_max_spec l x) as (Hle & Hall & Hin). split.
  - destruct Hin as [->|Hin]; [left|by right].
  - intros y [->|Hy]%elem_of_cons; [done|by apply Hall].
Qed.

Lemma fold_digits_nonneg (l : list ascii) (acc : Z) :
  0 <= acc -> forallb is_digit_char l = true ->
  0 <= fold_left (fun acc a => 10 * acc + (Z.of_nat (nat_of_ascii a) - 48)) l acc.
Proof.
  revert acc. induction l as [|a l IH]; intros acc Hacc; cbn [fold_left forallb].
  - done.
  - intros [Ha Hl]%andb_true_iff. apply IH; [|done].
    unfold is_digit_char, is_decimal_char in Ha.
    repeat (apply orb_true_iff in Ha as [Ha|Ha]).
    + apply andb_true_iff in Ha as [Ha _]. apply Nat.leb_le in Ha. lia.
    + apply Nat.eqb_eq in Ha. lia.
    + apply Nat.eqb_eq in Ha. lia.
    + apply Nat.eqb_eq in Ha. lia.
Qed.

Lemma isdigit_nonneg (d : string) : isdigit d = true -> 0 <= int_of_digits d.
Proof.
  unfold isdigit. intros [_ Hd]%andb_true_iff. by apply fold_digits_nonneg.
Qed.

(** What the comprehension over the names gives. *)
Lemma ints_cases (l : list string) :
  (Forall (fun d => all_decimal d = true) l
   /\ ints l = Ok (map int_of_digits l))
  \/ (Exists (fun d => all_decimal d = false) l
      /\ ints l = Raise (ValueError "invalid literal for int() with base 10")).
Proof.
  induction l as [|d l IH]; [left; by split|].
  cbn [ints]. unfold int_. destruct (all_decimal d) eqn:Hd.
  - destruct IH as [[Hall ->]|[Hex ->]].
    + left. split; [by constructor|done].
    + right. split; [by apply Exists_cons_tl|done].
  - right. split; [by apply Exists_cons_hd|done].
Qed.

(** The number [_get_next_batch_number] answers, and when it raises. *)
Lemma next_batch_number_cases out fs names :
  listdir fs out = Ok names ->
  (Forall (fun d => all_decimal d = true) (numeric_subdirs fs out names)
   /\ exists n, _get_next_batch_number out fs = Ok n
       /\ ((numeric_subdirs fs out names = [] /\ n = 1)
           \/ (exists d, d ∈ numeric_subdirs fs out names
                  /\ n = int_of_digits d + 1
                  /\ forall d', d' ∈ numeric_subdirs fs out names ->
                       int_of_digits d' <= int_of_digits d)))
  \/ (Exists (fun d => all_decimal d = false) (numeric_subdirs fs out names)
      /\ _get_next_batch_number out fs
         = Raise (ValueError "invalid literal for int() with base 10")).
Proof.
  intros Hls. unfold _get_next_batch_number. rewrite Hls.
  fold (numeric_subdirs fs out names).
  destruct (ints_cases (numeric_subdirs fs out names)) as [[Hall ->]|[Hex ->]];
    [left|by right].
  split; [done|].
  destruct (map int_of_digits (numeric_subdirs fs out names)) as [|x l] eqn:E.
  - exists 1. split; [done|]. left. split; [|done].
    by destruct (numeric_subdirs fs out names).
  - exists (max_list x l + 1). split; [done|]. right.
    destruct (max_list_spec x l) as [Hin Hmax]. rewrite <- E in Hin, Hmax.
    apply list_elem_of_fmap in Hin as (d & Hd & Hin).
    exists d. split; [done|]. split; [by rewrite Hd|].
    intros d' Hd'. rewrite <- Hd. apply Hmax. by apply list_elem_of_fmap_2.
Qed.

Lemma next_batch_number_Ok out fs names n :
  listdir fs out = Ok names ->
  _get_next_batch_number out fs = Ok n ->
  Forall (fun d => all_decimal d = true) (numeric_subdirs fs out names)
  /\ ((numeric_subdirs fs out names = [] /\ n = 1)
      \/ (exists d, d ∈ numeric_subdirs fs out names
             /\ n = int_of_digits d + 1
             /\ forall d', d' ∈ numeric_subdirs fs out names ->
                  int_of_digits d' <= int_of_digits d)).
Proof.
  intros Hls Hn.
  destruct (next_batch_number_cases _ _ _ Hls)
    as [(Hall & n' & Hn' & Hcases)|[_ Hraise]]; [|congruence].
  rewrite Hn in Hn'. injection Hn' as <-. done.
Qed.

Lemma next_batch_number_above out fs n :
  _get_next_batch_number out fs = Ok n ->
  1 <= n /\ forall m, n <= m -> batch_dir out m ∉ dirs fs.
Proof.
  intros Hn.
  destruct (listdir fs out) as [names|e] eqn:Hls;
    [|by unfold _get_next_batch_number in Hn; rewrite Hls in Hn].
  destruct (next_batch_number_Ok _ _ _ _ Hls Hn) as [_ Hcases].
  assert (Hpos : 1 <= n).
  { destruct Hcases as [[_ ->]|(d & Hd & -> & _)]; [done|].
    apply list_elem_of_filter in Hd as [Hd _].
    apply andb_true_iff in Hd as [_ Hd]. apply isdigit_nonneg in Hd. lia. }
  split; [done|]. intros m Hm Hin.
  assert (Hnum : format_06d m ∈ numeric_subdirs fs out names).
  { apply list_elem_of_filter. split.
    - apply andb_true_iff. split; [by apply isdir_true|].
      apply format_06d_isdigit. lia.
    - apply listdir_Ok in Hls as [_ ->]. apply list_elem_of_omap.
      exists (batch_dir out m). split; [|apply child_name_batch_dir].
      apply elem_of_elements, elem_of_union_l, Hin. }
  destruct Hcases as [[Hnil _]|(d & _ & -> & Hmax)].
  - rewrite Hnil in Hnum. by apply elem_of_nil in Hnum.
  - apply Hmax in Hnum. rewrite format_06d_value in Hnum by lia. lia.
Qed.

Lemma init_Ok out gb fs0 (s0 : Store.state) :
  init out gb fs0 = Ok s0 ->
  exists n, _get_next_batch_number out fs0 = Ok n
    /\ fst s0 = mkStorage out gb n 0
    /\ makedirs fs0 (batch_dir out n) = Ok (snd s0).
Proof.
  unfold init. destruct (_get_next_batch_number out fs0) as [n|e]; [|done].
  unfold _ensure_batch_dir_exists, bind, get_self, update_fs, gets. cbn.
  change (_get_batch_dir _) with (batch_dir out n).
  destruct (makedirs fs0 (batch_dir out n)) as [fs1|e] eqn:E; [|done].
  intros [= <-]. by exists n.
Qed.

Lemma init_inv out gb fs0 s0 :
  fs_ok fs0 -> init out gb fs0 = Ok s0 -> inv s0.
Proof.
  intros Hok (n & Hn & Hst & Hmk)%init_Ok.
  destruct (next_batch_number_above _ _ _ Hn) as [Hpos Habove].
  destruct (makedirs_dirs _ _ _ Hmk) as [Hdirs _].
  unfold inv. rewrite Hst. cbn. split; [lia|]. split.
  - by eapply fs_ok_makedirs.
  - intros m Hm. rewrite Hdirs. intros [Heq%elem_of_singleton|Hin]%elem_of_union.
    + apply batch_dir_inj in Heq; lia.
    + apply (Habove m); [lia|done].
Qed.

Lemma step_inv e s : inv s -> inv (step e s).
Proof.
  destruct s as [st fs]. intros (Hpos & Hok & Habove). cbn in *.
  destruct e as [key img ext|p]; cbn [step].
  2:{ split; [done|]. split; [by apply fs_ok_unlink|done]. }
  rewrite save_image_unfold.
  destruct (listdir fs (_get_batch_dir st)) as [names|e]; [|done].
  cbn zeta. destruct (_ <=? _).
  - assert (Hrot : forall fs1,
        fs_ok fs1 -> dirs fs1 ⊆ {[ batch_dir (output_dir st) (current_batch st + 1) ]} ∪ dirs fs ->
        inv (set_current_batch st (current_batch st + 1), fs1)).
    { intros fs1 Hok1 Hsub. split; [cbn; lia|]. split; [done|]. cbn.
      intros n Hn [Heq%elem_of_singleton|Hin]%Hsub%elem_of_union.
      - apply batch_dir_inj in Heq; lia.
      - apply (Habove n); [lia|done]. }
    destruct (makedirs fs _) as [fs1|e] eqn:Hmk.
    + destruct (makedirs_dirs _ _ _ Hmk) as [Hdirs _].
      pose proof (fs_ok_makedirs _ _ _ Hok Hmk) as Hok1.
      destruct (write_file fs1 _ img) as [fs2|e] eqn:Hw; cbn [snd].
      * destruct (write_file_Ok _ _ _ _ Hw) as (Hd2 & _ & _).
        apply Hrot; [by eapply fs_ok_write_file|]. by rewrite Hd2, Hdirs.
      * apply Hrot; [done|]. by rewrite Hdirs.
    + cbn [snd]. apply Hrot; [done|]. set_solver.
  - destruct (write_file fs _ img) as [fs2|e] eqn:Hw; cbn [snd]; [|done].
    destruct (write_file_Ok _ _ _ _ Hw) as (Hd2 & _ & _).
    split; [done|]. split; [by eapply fs_ok_write_file|].
    cbn. by rewrite Hd2.
Qed.

Lemma run_inv evs s : inv s -> inv (run evs s).
Proof.
  revert s. induction evs as [|e evs IH]; intros s Hs; cbn [run]; [done|].
  by apply IH, step_inv.
Qed.

End Numbering.

(** ** storage.py: where an image is written *)

Section SaveImage.
Import PyStr Os Store Spec.

Lemma replace_char_removes a b s :
  a <> b -> contains_char a (replace_char a b s) = false.
Proof.
  intros Hab. induction s as [|c s IH]; [done|].
  cbn [replace_char contains_char]. rewrite IH, orb_false_r.
  destruct (Ascii.eqb_spec c a) as [->|Hca].
  - apply Ascii.eqb_neq. congruence.
  - by apply Ascii.eqb_neq.
Qed.

Lemma replace_char_keeps c a b s :
  c <> b -> contains_char c s = false ->
  contains_char c (replace_char a b s) = false.
Proof.
  intros Hcb. induction s as [|x s IH]; [done|].
  cbn [replace_char contains_char]. intros [Hx Hs]%orb_false_iff.
  rewrite (IH Hs), orb_false_r.
  destruct (Ascii.eqb x a); [|done]. apply Ascii.eqb_neq. congruence.
Qed.

Lemma safe_key_clean key :
  contains_char "/" (safe_key key) = false
  /\ contains_char "\" (safe_key key) = false.
Proof.
  unfold safe_key. split.
  - apply replace_char_keeps; [done|]. by apply replace_char_removes.
  - by apply replace_char_removes.
Qed.

Lemma filename_clean key ext :
  contains_char "/" ext = false ->
  contains_char "/" (safe_key key +:+ ext) = false.
Proof.
  intros Hext. rewrite contains_char_app, Hext.
  by rewrite (proj1 (safe_key_clean key)).
Qed.

Lemma get_batch_dir_eq st :
  _get_batch_dir st = batch_dir (output_dir st) (current_batch st).
Proof. reflexivity. Qed.

(** A successful [save_image] with a plain extension writes directly into
    the batch directory of the number the object then has. *)
Lemma save_image_target key img ext s path s' :
  contains_char "/" ext = false ->
  save_image key img ext s = (Ok path, s') ->
  path = join (_get_batch_dir (fst s')) (safe_key key +:+ ext)
  /\ PyStr.split path = (_get_batch_dir (fst s'), safe_key key +:+ ext)
  /\ forall p, p <> path -> files (snd s') !! p = files (snd s) !! p.
Proof.
  destruct s as [st fs], s' as [st' fs']. intros Hext Hsave.
  apply save_image_Ok in Hsave as (fs1 & Hpath & Hw & Hcases). cbn [fst snd].
  split; [done|]. split.
  - rewrite Hpath. apply split_join; [apply batch_dir_proper|by apply filename_clean].
  - intros p Hp. destruct (write_file_Ok _ _ _ _ Hw) as (_ & -> & _).
    rewrite lookup_insert_ne by done.
    destruct Hcases as [(_ & _ & Hmk)|(_ & _ & ->)]; [|done].
    by destruct (makedirs_dirs _ _ _ Hmk) as [_ ->].
Qed.

Lemma sizeOf_no_children fs d :
  proper_dir d ->
  (forall p, is_Some (files fs !! p) -> dirname p <> d) ->
  sizeOf fs d = 0.
Proof.
  intros Hd Hnone. apply total_size_no_files.
  intros f (p & _ & Hp)%list_elem_of_omap.
  apply child_name_Some in Hp as (-> & _ & Hf).
  destruct (isfile fs (join d f)) eqn:E; [|done].
  apply isfile_true, Hnone in E. unfold dirname in E.
  rewrite split_join in E by done. done.
Qed.

(** C2 (amended). With a threshold above zero, in a run that starts with
    [Storage(out, gb)] and in which nobody else creates batch
    directories (images are saved, files may be removed), every
    successful [save_image] writes into the directory of the batch
    number it ends with, and that directory held fewer bytes than the
    threshold both when the save began and when the write started. *)
Theorem save_image_below_threshold out gb fs0 s0 evs key img ext path s' :
  fs_ok fs0 -> init out gb fs0 = Ok s0 -> 0 < gb ->
  save_image key img ext (run evs s0) = (Ok path, s') ->
  let d := _get_batch_dir (fst s') in
  path = join d (safe_key key +:+ ext)
  /\ sizeOf (snd (run evs s0)) d < threshold gb
  /\ exists fs1, write_file fs1 path img = Ok (snd s')
                 /\ sizeOf fs1 d < threshold gb.
Proof.
  intros Hok0 Hinit Hgb Hsave d.
  pose proof (run_inv evs s0 (init_inv _ _ _ _ Hok0 Hinit)) as Hinv.
  destruct (run_state evs s0) as (Hout & Hgb' & _).
  destruct (init_Ok _ _ _ _ Hinit) as (n0 & _ & Hst0 & _).
  rewrite Hst0 in Hout, Hgb'. cbn in Hout, Hgb'.
  destruct (run evs s0) as [st fs], s' as [st' fs'].
  destruct Hinv as (Hpos & Hok & Habove). cbn [fst snd] in *.
  apply save_image_Ok in Hsave as (fs1 & Hpath & Hw & Hcases).
  split; [done|].
  destruct Hcases as [(_ & Hst' & Hmk)|(Hsize & -> & ->)].
  - assert (Hd : d = batch_dir (output_dir st) (current_batch st + 1))
      by (unfold d; by rewrite Hst').
    assert (Hzero : forall fsx, files fsx = files fs -> sizeOf fsx d = 0).
    { intros fsx Hfiles. apply sizeOf_no_children.
      - rewrite Hd. apply batch_dir_proper.
      - intros p Hp Hdir. rewrite Hfiles in Hp. destruct Hp as [sz Hp].
        apply Hok in Hp. rewrite Hdir, Hd in Hp.
        apply (Habove (current_batch st + 1)); [lia|done]. }
    unfold threshold. split.
    + rewrite Hzero by done. lia.
    + exists fs1. split; [done|].
      rewrite Hzero by (by destruct (makedirs_dirs _ _ _ Hmk)). lia.
  - rewrite Hgb' in Hsize. split; [done|]. by exists fs.
Qed.

End SaveImage.

Lemma fs_ok_empty_out : Spec.fs_ok Fixture.empty_out.
Proof. apply map_Forall_empty. Qed.

Lemma save_image_below_threshold_witness :
  Spec.sizeOf (snd (Spec.run [Spec.Save (IntLabel 1) 100%N ".jpg"]
                      (Fixture.fresh_store 1))) "out/000001" < Spec.threshold 1.
Proof.
  apply (save_image_below_threshold "out" 1 Fixture.empty_out
           (Fixture.fresh_store 1) [Spec.Save (IntLabel 1) 100%N ".jpg"]
           (IntLabel 2) 5%N ".png" "out/000001/2.png"
           (snd (Store.save_image (IntLabel 2) 5%N ".png"
                   (Spec.run [Spec.Save (IntLabel 1) 100%N ".jpg"]
                      (Fixture.fresh_store 1))))).
  - apply fs_ok_empty_out.
  - vm_compute. reflexivity.
  - lia.
  - vm_compute. reflexivity.
Defined.

(** C2 as stated fails for a threshold of zero ([--batch-size-gb 0]): every
    save moves on to a new directory, whose size, zero, is not below the
    threshold. *)
Lemma save_image_zero_threshold :
  Store.init "out" 0 Fixture.empty_out = Ok (Fixture.fresh_store 0)
  /\ fst (Store.save_image (IntLabel 5) 100%N ".jpg" (Fixture.fresh_store 0))
     = Ok "out/000002/5.jpg"
  /\ ~ (Spec.sizeOf (snd (Fixture.fresh_store 0)) "out/000002" < Spec.threshold 0).
Proof.
  split; [by vm_compute|]. split; [by vm_compute|].
  vm_compute. congruence.
Qed.

Section Batches.
Import PyStr Os Store Spec.

Lemma save_image_rotates key img ext st fs :
  _get_batch_dir st ∈ dirs fs ->
  threshold (batch_size_gb st) <= sizeOf fs (_get_batch_dir st) ->
  current_batch (fst (snd (save_image key img ext (st, fs))))
  = current_batch st + 1.
Proof.
  intros Hdir Hfull. rewrite save_image_unfold. unfold listdir.
  apply isdir_true in Hdir. rewrite Hdir. fold (sizeOf fs (_get_batch_dir st)).
  cbn zeta. unfold threshold in Hfull.
  destruct (_ <=? _) eqn:E; [|lia].
  destruct (makedirs fs _) as [fs1|e]; [|done].
  by destruct (write_file fs1 _ img).
Qed.

(** C5 (amended). A batch directory is closed at the moment a save finds
    its size at or above the threshold and moves on to the next number.
    From then on, whatever is saved and whatever files are removed, no
    save writes into a directory whose number is below the current one:
    the path written has another parent, and the files directly inside
    the closed directory stay as they are. *)
Theorem closed_after_rotation :
  (forall key img ext st fs,
      _get_batch_dir st ∈ dirs fs ->
      threshold (batch_size_gb st) <= sizeOf fs (_get_batch_dir st) ->
      current_batch (fst (snd (save_image key img ext (st, fs))))
      = current_batch st + 1)
  /\ (forall s evs n key img ext path s',
        0 <= n < current_batch (fst s) ->
        contains_char "/" ext = false ->
        save_image key img ext (run evs s) = (Ok path, s') ->
        let d := batch_dir (output_dir (fst s)) n in
        dirname path <> d
        /\ forall p, dirname p = d ->
             files (snd s') !! p = files (snd (run evs s)) !! p).
Proof.
  split; [apply save_image_rotates|].
  intros s evs n key img ext path s' Hn Hext Hsave d.
  destruct (run_state evs s) as (Hout & _ & Hcur).
  destruct (save_image_target _ _ _ _ _ _ Hext Hsave) as (_ & Hsplit & Hfiles).
  pose proof (save_image_state key img ext (fst (run evs s)) (snd (run evs s)))
    as (Hout' & _ & Hcur').
  rewrite <- surjective_pairing, Hsave in Hout', Hcur'. cbn [fst snd] in *.
  assert (Hne : dirname path <> d).
  { unfold dirname. rewrite Hsplit. cbn [fst]. rewrite get_batch_dir_eq.
    unfold d. rewrite Hout', Hout. intros E%batch_dir_inj; lia. }
  split; [done|]. intros p Hp. apply Hfiles. intros ->. done.
Qed.



End Batches.

Lemma closed_after_rotation_witness :
  Spec.threshold 1 <= Spec.sizeOf (snd Fixture.filled) "out/000001"
  /\ PyStr.dirname "out/000002/3.jpg" <> "out/000001".
Proof.
  split; [by vm_compute|].
  apply (proj2 closed_after_rotation
           (snd (Store.save_image (IntLabel 2) 5%N ".jpg" Fixture.filled))
           [Spec.Remove "out/000001/1.jpg"] 1 (IntLabel 3) 7%N ".jpg"
           "out/000002/3.jpg"
           (snd (Store.save_image (IntLabel 3) 7%N ".jpg"
                   (Spec.run [Spec.Remove "out/000001/1.jpg"]
                      (snd (Store.save_image (IntLabel 2) 5%N ".jpg"
                              Fixture.filled)))))).
  - vm_compute. split; congruence.
  - reflexivity.
  - vm_compute. reflexivity.
Defined.

(** C5 as stated fails: a directory that has grown past the threshold and
    is emptied by somebody before the next save measures it is written
    again. *)
Lemma full_batch_written_again :
  Store.init "out" 1 Fixture.empty_out = Ok (Fixture.fresh_store 1)
  /\ Spec.threshold 1 < Spec.sizeOf (snd Fixture.filled) "out/000001"
  /\ Spec.sizeOf (snd Fixture.emptied) "out/000001" < Spec.threshold 1
  /\ fst (Store.save_image (IntLabel 2) 5%N ".jpg" Fixture.emptied)
     = Ok "out/000001/2.jpg"
  /\ PyStr.dirname "out/000001/2.jpg" = "out/000001".
Proof. repeat split; by vm_compute. Qed.





(** ** [str.replace] *)

Section Replacing.
Import PyStr.

Lemma replace_go_skip old new a rest :
  replace_go old new (String.length a) (a +:+ rest) = replace_go old new 0 rest.
Proof.
  induction a as [|c a IH]; [by rewrite app_empty_l|].
  rewrite app_cons. exact IH.
Qed.

Lemma startswith_prefix old s :
  startswith old s = true -> exists rest, s = old +:+ rest.
Proof.
  revert s. induction old as [|c old IH]; intros s; [by exists s|].
  destruct s as [|x s]; cbn [startswith]; [done|].
  intros [->%Ascii.eqb_eq Hs]%andb_true_iff.
  destruct (IH s Hs) as [rest ->]. by exists rest.
Qed.

Lemma startswith_app old rest : startswith old (old +:+ rest) = true.
Proof.
  induction old as [|c old IH]; [done|].
  rewrite app_cons. cbn [startswith]. by rewrite Ascii.eqb_refl, IH.
Qed.

Lemma replace_match c old' new rest :
  replace (String c old') new (String c old' +:+ rest)
  = new +:+ replace (String c old') new rest.
Proof.
  unfold replace. rewrite app_cons. cbn [replace_go].
  rewrite <- app_cons, startswith_app. cbn [String.length].
  by rewrite Nat.sub_succ, Nat.sub_0_r, replace_go_skip.
Qed.

Lemma replace_no_match old new x s :
  startswith old (String x s) = false ->
  replace old new (String x s) = String x (replace old new s).
Proof. unfold replace. cbn [replace_go]. by intros ->. Qed.

End Replacing.

(** ** parquet_handler.py: taking a file *)

Section Renaming.
Import PyStr Parquet.



Lemma mark_as_processing_unfold pl ds p t :
  mark_as_processing pl ds p t =
  let q := replace ".parquet" "_processing.parquet" p in
  match os_rename pl ds p q t with
  | (Ok _, t') => (Ok q, t')
  | (Raise e, t') => (Raise e, t')
  end.
Proof. reflexivity. Qed.

(** [os.rename] when source and target directory are there and the target
    is no directory. *)
Lemma os_rename_there pl ds src dst (t : gmap string dataframe) df :
  t !! src = Some df -> src <> dst ->
  dir_there ds (dirname dst) = true -> dst ∉ ds ->
  os_rename pl ds src dst t
  = match t !! dst, pl with
    | Some _, Windows => (Raise (FileExistsError dst), t)
    | _, _ => (Ok tt, <[ dst := df ]> (delete src t))
    end.
Proof.
  intros Hsrc Hne Hdir Hnodir. unfold os_rename. rewrite Hsrc.
  rewrite decide_False by done. rewrite Hdir. cbn [negb].
  by rewrite bool_decide_eq_false_2.
Qed.


End Renaming.



(** ** app.py: the rows of a table *)

Section Rows.
Import PyStr Parquet App Spec.

Lemma row_step_refl r : row_step r r.
Proof. split; [done|by left]. Qed.

Lemma frame_step_refl df : frame_step df df.
Proof.
  unfold frame_step. induction df as [|a df IH]; constructor; [|done].
  split; [done|apply row_step_refl].
Qed.

Lemma table_step_refl df : table_step df df.
Proof.
  unfold table_step. induction df as [|a df IH]; constructor; [|done].
  apply row_step_refl.
Qed.

Lemma frame_step_written df df' i :
  frame_step df df' -> table_step df (reset_index_from i df').
Proof.
  unfold frame_step, table_step. intros Hstep. revert i.
  induction Hstep as [|a [k r] df df' [_ Hrow] _ IH]; intros i; cbn;
    constructor; [done|apply IH].
Qed.

Lemma tables_step_refl t : tables_step t t.
Proof. intros q df Hq. exists q, df. split; [done|apply table_step_refl]. Qed.

(** Tables that were only moved. *)
Lemma tables_step_moved (t0 t t' : gmap string dataframe) :
  tables_step t0 t ->
  (forall q df, t' !! q = Some df -> exists q1, t !! q1 = Some df) ->
  tables_step t0 t'.
Proof. intros Hstep Hmoved q df (q1 & Hq1)%Hmoved. by eapply Hstep. Qed.

Lemma tables_step_from_moved (t0 t t' : gmap string dataframe) :
  (forall q df, t !! q = Some df -> exists q1, t0 !! q1 = Some df) ->
  tables_step t t' ->
  tables_step t0 t'.
Proof.
  intros Hmoved Hstep q df' (q1 & df1 & Hq1 & Hdf)%Hstep.
  apply Hmoved in Hq1 as [q0 Hq0]. by exists q0, df1.
Qed.

(** What [os.rename] can leave: the tables as they were, or the source
    moved to the target. *)
Lemma os_rename_cases pl ds src dst (t : gmap string dataframe) :
  snd (os_rename pl ds src dst t) = t
  \/ exists df, t !! src = Some df /\ src <> dst
                /\ dir_there ds (dirname dst) = true /\ (~ dst ∈ ds)
                /\ os_rename pl ds src dst t
                   = (Ok tt, <[ dst := df ]> (delete src t)).
Proof.
  unfold os_rename. destruct (t !! src) as [df0|] eqn:Hsrc.
  2:{ left. by repeat case_match. }
  destruct (decide (src = dst)); [by left|].
  destruct (dir_there ds (dirname dst)); [|by left]. cbn [negb].
  case_bool_decide; [by left|].
  destruct (t !! dst), pl; try (by left); right; by exists df0.
Qed.

Lemma os_rename_Raise pl ds src dst (t : gmap string dataframe) e t' :
  os_rename pl ds src dst t = (Raise e, t') -> t' = t.
Proof.
  destruct (os_rename_cases pl ds src dst t) as [Hsame|(df & _ & _ & _ & _ & ->)];
    [|done].
  intros E. by rewrite E in Hsame.
Qed.

Lemma os_rename_moved pl ds src dst (t : gmap string dataframe) r t' :
  os_rename pl ds src dst t = (r, t') ->
  forall q df, t' !! q = Some df -> exists q1, t !! q1 = Some df.
Proof.
  intros E. destruct (os_rename_cases pl ds src dst t)
    as [Hsame|(df0 & Hsrc & Hne & _ & _ & Hmv)].
  - rewrite E in Hsame. cbn in Hsame. subst t'. intros q df Hq. by exists q.
  - rewrite Hmv in E. injection E as _ <-. intros q df.
    rewrite lookup_insert. case_decide.
    + intros [= <-]. by exists src.
    + rewrite lookup_delete. case_decide; [done|]. intros Hq. by exists q.
Qed.

Lemma os_rename_target pl ds src dst (t : gmap string dataframe) t' :
  os_rename pl ds src dst t = (Ok tt, t') -> t' !! dst = t !! src.
Proof.
  unfold os_rename. destruct (t !! src) as [df0|] eqn:Hsrc.
  2:{ by repeat case_match. }
  destruct (decide (src = dst)) as [<-|].
  { by intros [= <-]. }
  destruct (dir_there ds (dirname dst)); [|done]. cbn [negb].
  case_bool_decide; [by destruct pl|].
  destruct (t !! dst), pl; intros [= <-]; try done;
    by rewrite lookup_insert_eq.
Qed.

Lemma mark_as_processed_moved pl ds pf (t : gmap string dataframe) r t' :
  mark_as_processed pl ds pf t = (r, t') ->
  forall q df, t' !! q = Some df -> exists q1, t !! q1 = Some df.
Proof.
  unfold mark_as_processed, bind, ret.
  destruct (os_rename pl ds pf _ t) as [[[]|e] t1] eqn:E; intros [= _ <-];
    by eapply os_rename_moved.
Qed.

Lemma loc_set_compose f g idx df :
  loc_set f idx (loc_set g idx df) = loc_set (f ∘ g) idx df.
Proof.
  unfold loc_set. rewrite map_map. apply map_ext. intros [k r]. cbn.
  destruct (decide (k = idx)); cbn; [|by rewrite decide_False].
  by rewrite decide_True.
Qed.

(** Writing a terminal status under a label whose rows were unset. *)
Lemma loc_set_step df0 df idx f :
  frame_step df0 df ->
  Forall (fun a => fst a = idx -> status (snd a) = None) df0 ->
  (forall r, url (f r) = url r /\ terminal (status (f r))) ->
  frame_step df0 (loc_set f idx df).
Proof.
  intros Hstep Hunset Hf. unfold frame_step, loc_set in *.
  induction Hstep as [|a b df0 df [Hk [Hurl Hrow]] _ IH]; [constructor|].
  apply Forall_cons in Hunset as [Ha Hunset]. cbn [map].
  constructor; [|by apply IH].
  destruct (decide (fst b = idx)) as [Hb|]; [|done]. cbn. split; [done|].
  destruct (Hf (snd b)) as [Hfu Hft]. split; [congruence|].
  right. split; [|done]. apply Ha. congruence.
Qed.

Lemma apply_result_step flag df0 df c item s :
  frame_step df0 df ->
  Forall (fun a => fst a = fst item -> status (snd a) = None) df0 ->
  exists df' c' s',
    apply_result flag (df, c) item s = (Ok (df', c'), s')
    /\ frame_step df0 df'.
Proof.
  intros Hstep Hunset. destruct item as [idx [[body|] err]]; cbn in *.
  - assert (Hfail : forall e s1, exists df' c' s',
        ret (S := Store.state)
            (loc_set (set_error (Some (str_of_exn e))) idx
               (loc_set (set_status (Some "failed")) idx df), c) s1
        = (Ok (df', c'), s') /\ frame_step df0 df').
    { intros e s1. eexists _, _, _. split; [reflexivity|].
      rewrite loc_set_compose. apply loc_set_step; [done..|].
      intros r. split; [done|by right]. }
    unfold try_except, bind. destruct (loc_url df idx) as [u|e]; [|apply Hfail].
    destruct (Store.save_image idx body _ s) as [[path|e] s1]; [|apply Hfail].
    eexists _, _, _. split; [reflexivity|].
    destruct flag; rewrite !loc_set_compose; (apply loc_set_step; [done..|]);
      intros r; (split; [done|by left]).
  - eexists _, _, _. split; [reflexivity|].
    rewrite loc_set_compose. apply loc_set_step; [done..|].
    intros r. split; [done|by right].
Qed.

Lemma apply_results_step flag df0 results df c s :
  frame_step df0 df ->
  Forall (fun item =>
            Forall (fun a => fst a = fst item -> status (snd a) = None) df0)
         results ->
  exists df' c' s',
    apply_results flag results (df, c) s = (Ok (df', c'), s')
    /\ frame_step df0 df'.
Proof.
  revert df c s. induction results as [|item results IH]; intros df c s Hstep Hall.
  - by exists df, c, s.
  - apply Forall_cons in Hall as [Hitem Hall]. cbn [apply_results]. unfold bind.
    destruct (apply_result_step flag df0 df c item s Hstep Hitem)
      as (df1 & c1 & s1 & -> & Hstep1).
    by apply IH.
Qed.

End Rows.

Section Files.
Import PyStr Parquet App Spec.

Variable pl : platform.
Variable urlopen : Z -> label -> string -> nat -> Net.response.
Variable completed : list (label * row) -> list (label * row).
Variable downloader : Net.Downloader.

(** The pool hands back tasks that were submitted. *)
Hypothesis completed_submitted : forall l, completed l ⊆ l.

Lemma dict_set_elem {V} (k : label) (v : V) d item :
  item ∈ Net.dict_set k v d -> item = (k, v) \/ item ∈ d.
Proof.
  induction d as [|[k' v'] d IH]; cbn.
  - intros ->%list_elem_of_singleton. by left.
  - destruct (decide (k' = k)).
    + intros [->|Hin]%elem_of_cons; [by left|]. right. by right.
    + intros [->|Hin]%elem_of_cons; [right; left|].
      destruct (IH Hin) as [->|Hd]; [by left|]. right. by right.
Qed.

Lemma download_batch_keys df results :
  Net.download_batch urlopen downloader completed df = Ok results ->
  forall item, item ∈ results -> exists r, (fst item, r) ∈ df.
Proof.
  unfold Net.download_batch. destruct (_ <=? _); [done|]. intros [= <-].
  assert (Hgen : forall l acc item,
    item ∈ fold_left
             (fun results '(idx, r) =>
                Net.dict_set idx (Net.task_result urlopen downloader idx r) results)
             l acc ->
    item ∈ acc \/ exists r, (fst item, r) ∈ l).
  { induction l as [|[k r] l IH]; intros acc item; cbn [fold_left]; [by left|].
    intros [[->|Hacc]%dict_set_elem|(r' & Hr')]%IH.
    - right. exists r. left.
    - by left.
    - right. exists r'. by right. }
  intros item [[]%elem_of_nil|(r & Hr)]%Hgen.
  exists r. by apply completed_submitted.
Qed.

Lemma unique_labels_row df k r r' :
  unique_labels df -> (k, r) ∈ df -> (k, r') ∈ df -> r = r'.
Proof.
  unfold unique_labels. induction df as [|[k0 r0] df IH]; cbn.
  - by intros _ ?%elem_of_nil.
  - intros [Hnotin Hnodup]%NoDup_cons.
    assert (Hfresh : forall x, (k0, x) ∈ df -> False).
    { intros x Hx. apply Hnotin, list_elem_of_In.
      apply (list_elem_of_fmap_2 fst) in Hx. by apply list_elem_of_In in Hx. }
    intros [[= -> ->]|H1]%elem_of_cons [[= ->]|H2]%elem_of_cons.
    + done.
    + by destruct (Hfresh r').
    + subst. by destruct (Hfresh r).
    + by apply IH.
Qed.

(** The labels fetched belong to rows that were unset. *)
Lemma results_unset df results :
  unique_labels df ->
  Net.download_batch urlopen downloader completed (find_incomplete_rows df)
  = Ok results ->
  Forall (fun item =>
            Forall (fun a => fst a = fst item -> status (snd a) = None) df)
         results.
Proof.
  intros Huniq Hres. apply Forall_forall. intros item Hitem.
  destruct (download_batch_keys _ _ Hres item Hitem) as (r0 & Hr0).
  apply list_elem_of_filter in Hr0 as [Hna Hr0]. cbn in Hna.
  apply Forall_forall. intros [k r] Ha Hk. cbn in *. subst k.
  rewrite (unique_labels_row df _ r r0 Huniq Ha Hr0).
  unfold isna in Hna. by destruct (status r0).
Qed.

Lemma process_rows_step flag pf w :
  (forall df, tables w !! pf = Some df -> unique_labels df) ->
  tables_step (tables w)
    (tables (snd (process_rows pl urlopen completed downloader flag pf w))).
Proof.
  intros Huniq. destruct w as [t st ds]. cbn [tables] in *.
  unfold process_rows, bind, on_input, on_tables, on_store, read_parquet, download,
    write_parquet, modify, ret. cbn [tables store in_dirs].
  destruct (t !! pf) as [df|] eqn:Hdf; [|apply tables_step_refl].
  specialize (Huniq df eq_refl).
  destruct (find_incomplete_rows df) as [|a inc] eqn:Hinc.
  - cbn [tables store in_dirs].
    destruct (mark_as_processed pl ds pf t) as [[q|e] t1] eqn:Hmv; cbn;
      (eapply tables_step_moved;
       [apply tables_step_refl|eapply mark_as_processed_moved; eassumption]).
  - rewrite <- Hinc.
    destruct (Net.download_batch _ _ _ _) as [results|e] eqn:Hres;
      [|apply tables_step_refl].
    cbn [tables store in_dirs].
    destruct (apply_results_step flag df results df 0 st (frame_step_refl df)
                (results_unset df results Huniq Hres))
      as (df' & c' & st' & -> & Hstep).
    cbn [fst snd tables store in_dirs].
    assert (Hwritten : tables_step t (<[ pf := reset_index_from 0 df' ]> t)).
    { intros q dfq. rewrite lookup_insert. case_decide.
      - intros [= <-]. exists pf, df. split; [done|].
        by apply frame_step_written.
      - intros Hq. exists q, dfq. split; [done|apply table_step_refl]. }
    destruct (mark_as_processed pl ds pf _) as [[q|e] t1] eqn:Hmv; cbn;
      (eapply tables_step_moved;
       [exact Hwritten|eapply mark_as_processed_moved; eassumption]).
Qed.


End Files.


(** The keys being unique is what the theorem rests on: pandas addresses
    rows by label, so of two rows under one label both are written, the one
    that was done included. *)
Remark rows_sharing_a_label :
  App.tables
    (snd (App.process_parquet_file Posix Fixture.reliable_net Fixture.in_order
            Fixture.a_downloader "in/a.parquet"
            (App.mkWorld {[ "in/a.parquet" := Fixture.twins_table ]}
               (Fixture.fresh_store 1) Fixture.in_only)))
  = {[ "in/a_processed.parquet" :=
         [(IntLabel 0,
           mkRow "https://x.com/a.png" (Some "failed")
             (Some "'Series' object has no attribute 'split'")
             (Some "out/000001/0.png"));
          (IntLabel 1,
           mkRow "https://x.com/b.png" (Some "failed")
             (Some "'Series' object has no attribute 'split'") None)] ]}.
Proof. by vm_compute. Qed.

(** ** app.py: the file path of a saved image *)

Section FilePath.
Import App.

Local Abbreviation paths := (map (fun a : label * row => filepath (snd a))).

Lemma loc_set_filepath f idx df :
  (forall r, filepath (f r) = filepath r) ->
  paths (loc_set f idx df) = paths df.
Proof.
  intros Hf. unfold loc_set. rewrite map_map. apply map_ext.
  intros [k r]. cbn. destruct (decide (k = idx)); [cbn; apply Hf|done].
Qed.

Lemma apply_result_false_filepath df c item s :
  match fst (apply_result false (df, c) item s) with
  | Ok (df', _) => paths df' = paths df
  | Raise _ => True
  end.
Proof.
  destruct item as [idx [[body|] err]]; cbn.
  - unfold try_except, bind. destruct (loc_url df idx) as [u|e]; cbn.
    + destruct (Store.save_image idx body _ s) as [[path|e] s1]; cbn;
        by rewrite !loc_set_filepath.
    + by rewrite !loc_set_filepath.
  - by rewrite !loc_set_filepath.
Qed.

Lemma apply_results_false_filepath results df c s :
  match fst (apply_results false results (df, c) s) with
  | Ok (df', _) => paths df' = paths df
  | Raise _ => True
  end.
Proof.
  revert df c s. induction results as [|item results IH]; intros df c s; [done|].
  cbn [apply_results]. unfold bind.
  pose proof (apply_result_false_filepath df c item s) as H1.
  destruct (apply_result false (df, c) item s) as [[[df1 c1]|e] s1]; [|done].
  cbn in H1. specialize (IH df1 c1 s1).
  destruct (apply_results false results (df1, c1) s1) as [[[df2 c2]|e] s2];
    [|done].
  cbn in *. congruence.
Qed.

(** C3 (the code falls short of it). In [process_parquet_file] a row
    whose image was fetched and saved gets the status success and its
    error cleared, but its [filepath] stays as it was: the update loop of
    that function never writes the column, whatever the results.  On the
    table with one unset row the row ends with no file path although the
    image was saved as out/000001/0.png; the copy of the loop in [resume]
    does record that path. *)
Theorem process_parquet_file_leaves_filepath :
  (forall results df c s,
      match fst (apply_results false results (df, c) s) with
      | Ok (df', _) => paths df' = paths df
      | Raise _ => True
      end)
  /\ process_parquet_file Posix Fixture.reliable_net Fixture.in_order
       Fixture.a_downloader "in/a.parquet"
       (mkWorld Fixture.one_pending (Fixture.fresh_store 1) Fixture.in_only)
     = (Ok 1,
        mkWorld
          {[ "in/a_processed.parquet" :=
               [(IntLabel 0, mkRow "https://x.com/a.png" (Some "success")
                               None None)] ]}
          (Store.mkStorage "out" 1 1 0,
           mkFs {[ "out/000001"; "out" ]} {[ "out/000001/0.png" := 10%N ]})
          Fixture.in_only)
  /\ resume_file Posix Fixture.reliable_net Fixture.in_order
       Fixture.a_downloader "in" "a_processing.parquet"
       (mkWorld Fixture.one_processing (Fixture.fresh_store 1)
          Fixture.in_only)
     = (Ok 1,
        mkWorld
          {[ "in/a_processed.parquet" :=
               [(IntLabel 0, mkRow "https://x.com/a.png" (Some "success")
                               None (Some "out/000001/0.png"))] ]}
          (Store.mkStorage "out" 1 1 0,
           mkFs {[ "out/000001"; "out" ]} {[ "out/000001/0.png" := 10%N ]})
          Fixture.in_only).
Proof.
  split; [apply apply_results_false_filepath|]. split; by vm_compute.
Qed.

End FilePath.

(** * Further properties of the code *)

(** ** parquet_handler.py: the rows still to fetch *)

Section Incomplete.
Import Parquet.

Lemma filter_all {A} (P : A -> Prop) `{forall x, Decision (P x)} (l : list A) :
  Forall P l -> filter P l = l.
Proof.
  induction 1 as [|x l Hx Hl IH]; [done|].
  rewrite filter_cons_True by done. by rewrite IH.
Qed.

Lemma find_incomplete_rows_elem (df : dataframe) kr :
  kr ∈ find_incomplete_rows df <-> kr ∈ df /\ status (snd kr) = None.
Proof.
  unfold find_incomplete_rows. rewrite list_elem_of_filter. unfold isna.
  destruct (status (snd kr)); split; intros [H1 H2]; done.
Qed.

(** X1. [find_incomplete_rows] keeps the rows whose status is missing, in
    their order and under their labels, and nothing else; asking again
    changes nothing; and it answers the empty table exactly when every row
    has a status. *)
Theorem find_incomplete_rows_spec (df : dataframe) :
  find_incomplete_rows (find_incomplete_rows df) = find_incomplete_rows df
  /\ find_incomplete_rows df `sublist_of` df
  /\ (forall kr, kr ∈ find_incomplete_rows df <->
                 kr ∈ df /\ status (snd kr) = None)
  /\ (find_incomplete_rows df = [] <->
      forall kr, kr ∈ df -> status (snd kr) <> None).
Proof.
  split; [|split; [|split]].
  - apply filter_all, Forall_forall. intros kr Hkr.
    apply find_incomplete_rows_elem in Hkr as [_ Hnone].
    unfold isna. by rewrite Hnone.
  - apply sublist_filter.
  - apply find_incomplete_rows_elem.
  - split.
    + intros Hnil kr Hkr Hnone.
      assert (Hin : kr ∈ find_incomplete_rows df)
        by by apply find_incomplete_rows_elem.
      rewrite Hnil in Hin. by apply elem_of_nil in Hin.
    + intros Hall. destruct (find_incomplete_rows df) as [|kr l] eqn:E; [done|].
      assert (Hin : kr ∈ find_incomplete_rows df) by (rewrite E; left).
      apply find_incomplete_rows_elem in Hin as [Hin Hnone].
      by destruct (Hall kr Hin).
Qed.

Lemma find_incomplete_rows_spec_witness :
  find_incomplete_rows Fixture.stale_table = [].
Proof.
  apply (proj2 (proj2 (proj2 (find_incomplete_rows_spec Fixture.stale_table)))).
  intros kr Hkr. apply list_elem_of_singleton in Hkr. subst kr. cbn. discriminate.
Defined.

End Incomplete.

(** ** downloader.py: what a fetch hands back *)

Section Fetched.
Import Net Spec.

Variable urlopen : Z -> label -> string -> nat -> response.
Variable self : Downloader.

Lemma download_image_shape key r i :
  exists s e,
    download_image urlopen self key r i = (key, s, e)
    /\ ((exists body, s = Some body /\ e = None)
        \/ (s = None /\ exists msg, e = Some msg)).
Proof.
  unfold download_image. destruct (urlopen _ _ _ _) as [body|msg];
    eexists _, _; (split; [reflexivity|]); [left|right]; eauto.
Qed.

(** X2. With [retries >= 0], [download_image_with_retry] hands back a
    triple under the key of the row it was given, holding either a body and
    no error, or no body and an error message: never both, never neither. *)
Theorem download_image_with_retry_shape key r :
  0 <= retries self ->
  exists s e,
    fst (download_image_with_retry urlopen self key r) = Ok (key, s, e)
    /\ ((exists body, s = Some body /\ e = None)
        \/ (s = None /\ exists msg, e = Some msg)).
Proof.
  intros Hretries. unfold download_image_with_retry.
  destruct (retry_loop_cases urlopen self key r
              (Z.to_nat (retries self + 1)) 0 None)
    as [(j & _ & _ & _ & ->)|[Hnone ->]].
  - destruct (download_image_shape key r (0 + j)) as (s & e & -> & Hshape).
    by exists s, e.
  - destruct (Z.to_nat (retries self + 1)) as [|n'] eqn:E; [lia|].
    specialize (Hnone n' (Nat.lt_succ_diag_r n')). unfold attempt_ok in Hnone.
    destruct (download_image_shape key r (0 + n')) as (s & e & Heq & Hshape).
    rewrite Heq in Hnone |- *.
    destruct Hshape as [(body & -> & ->)|[-> Hmsg]]; [by destruct Hnone|].
    exists None, e. split; [done|]. by right.
Qed.

End Fetched.

Lemma download_image_with_retry_shape_witness :
  exists s e,
    fst (Net.download_image_with_retry Fixture.flaky_net Fixture.a_downloader
           (IntLabel 0) Fixture.a_row) = Ok (IntLabel 0, s, e)
    /\ ((exists body, s = Some body /\ e = None)
        \/ (s = None /\ exists msg, e = Some msg)).
Proof.
  apply (download_image_with_retry_shape Fixture.flaky_net Fixture.a_downloader
           (IntLabel 0) Fixture.a_row).
  simpl. lia.
Defined.

(** ** downloader.py: the batch *)

Section Batch.
Import Net.

Variable urlopen : Z -> label -> string -> nat -> response.
Variable self : Downloader.
Variable completed : list (label * row) -> list (label * row).

Local Abbreviation store_result :=
  (fun (results : list (label * (option stream * option string)))
       (task : label * row) =>
     let '(idx, r) := task in
     dict_set idx (task_result urlopen self idx r) results).

Lemma dict_set_keys {V} (k : label) (v : V) (d : list (label * V)) :
  (k ∈ map fst d /\ map fst (dict_set k v d) = map fst d)
  \/ (~ k ∈ map fst d /\ map fst (dict_set k v d) = (map fst d ++ [k])%list).
Proof.
  induction d as [|[k' v'] d IH]; cbn.
  - right. split; [apply not_elem_of_nil|done].
  - destruct (decide (k' = k)) as [->|Hne]; cbn.
    + left. split; [left|done].
    + destruct IH as [[Hin ->]|[Hnotin ->]].
      * left. split; [by right|done].
      * right. split; [|done]. intros [?|?]%elem_of_cons; congruence.
Qed.

Lemma dict_set_NoDup {V} (k : label) (v : V) (d : list (label * V)) :
  NoDup (map fst d) -> NoDup (map fst (dict_set k v d)).
Proof.
  intros Hd. destruct (dict_set_keys k v d) as [[_ ->]|[Hnotin ->]]; [done|].
  apply NoDup_app. split; [done|]. split; [|apply NoDup_singleton].
  intros x Hx ->%list_elem_of_singleton. done.
Qed.

Lemma dict_set_key_elem {V} (k : label) (v : V) (d : list (label * V)) k' :
  k' ∈ map fst (dict_set k v d) <-> k' = k \/ k' ∈ map fst d.
Proof.
  destruct (dict_set_keys k v d) as [[Hin ->]|[Hnotin ->]].
  - split; [by right|]. by intros [->|?].
  - rewrite elem_of_app, list_elem_of_singleton. tauto.
Qed.

(** What the completion loop has stored after the tasks [l], starting from
    the dictionary [acc]. *)
Lemma stored_results l acc :
  NoDup (map fst acc) ->
  NoDup (map fst (fold_left store_result l acc))
  /\ (forall k, k ∈ map fst (fold_left store_result l acc) <->
                k ∈ map fst acc \/ k ∈ map fst l)
  /\ (forall k v, (k, v) ∈ fold_left store_result l acc ->
                  (k, v) ∈ acc
                  \/ exists r, (k, r) ∈ l /\ v = task_result urlopen self k r).
Proof.
  revert acc. induction l as [|[idx r] l IH]; intros acc Hacc; cbn [fold_left].
  - split; [done|]. split; [|by left].
    intros k. cbn. split; [by left|]. intros [?|[]%elem_of_nil]. done.
  - destruct (IH (dict_set idx (task_result urlopen self idx r) acc))
      as (Hnodup & Hkeys & Hvals); [by apply dict_set_NoDup|].
    split; [done|]. split.
    + intros k. rewrite Hkeys, dict_set_key_elem. cbn [map fst].
      rewrite elem_of_cons. tauto.
    + intros k v [[[= -> ->]|Hin]%dict_set_elem|(r' & Hr' & ->)]%Hvals.
      * right. exists r. split; [left|done].
      * by left.
      * right. exists r'. split; [by right|done].
Qed.

(** X3. [download_batch] raises [ValueError] when the pool is given no
    worker.  Otherwise, whatever the order in which the tasks complete, the
    dictionary it returns has exactly one entry for every label of the
    table, and the entry under a label is what [download_image_with_retry]
    gave for a row under that label (an exception of the task turned into
    an error message). *)
Theorem download_batch_one_entry_per_label (df : list (label * row)) :
  (max_workers self <= 0 ->
     download_batch urlopen self completed df
     = Raise (ValueError "max_workers must be greater than 0"))
  /\ (0 < max_workers self -> completed df ≡ₚ df ->
        exists results,
          download_batch urlopen self completed df = Ok results
          /\ NoDup (map fst results)
          /\ (forall k, k ∈ map fst results <-> k ∈ map fst df)
          /\ (forall k v, (k, v) ∈ results ->
                exists r, (k, r) ∈ df /\ v = task_result urlopen self k r)).
Proof.
  unfold download_batch. split.
  - intros Hw. by rewrite (proj2 (Z.leb_le _ _) Hw).
  - intros Hw Hperm. rewrite (proj2 (Z.leb_gt _ _) Hw).
    eexists. split; [reflexivity|].
    destruct (stored_results (completed df) []) as (Hnodup & Hkeys & Hvals);
      [constructor|].
    split; [done|]. split.
    + intros k. rewrite Hkeys. cbn [map]. rewrite Hperm.
      split; [by intros [[]%elem_of_nil|?]|by right].
    + intros k v [[]%elem_of_nil|(r & Hr & ->)]%Hvals.
      exists r. split; [|done]. by rewrite <- Hperm.
Qed.

(** X4. With [retries < 0] no request is made for any row: every task
    raises, and every entry of the dictionary [download_batch] returns holds
    no body and the message of that exception. *)
Theorem download_batch_negative_retries (df : list (label * row)) results :
  retries self < 0 ->
  download_batch urlopen self completed df = Ok results ->
  (forall idx r, snd (download_image_with_retry urlopen self idx r) = O)
  /\ Forall (fun item =>
               snd item = (None, Some (str_of_exn (UnboundLocalError "key"))))
            results.
Proof.
  intros Hneg Hres.
  assert (Hraise : forall idx r,
             download_image_with_retry urlopen self idx r
             = (Raise (UnboundLocalError "key"), O)).
  { intros idx r. unfold download_image_with_retry.
    by replace (Z.to_nat (retries self + 1)) with O by lia. }
  split; [intros idx r; by rewrite Hraise|].
  unfold download_batch in Hres. destruct (_ <=? _); [done|].
  injection Hres as <-. apply Forall_forall. intros [k v] Hin. cbn.
  destruct (stored_results (completed df) []) as (_ & _ & Hvals); [constructor|].
  apply Hvals in Hin as [[]%elem_of_nil|(r & _ & ->)].
  unfold task_result. by rewrite Hraise.
Qed.

End Batch.

Lemma download_batch_one_entry_per_label_witness :
  Net.download_batch Fixture.reliable_net (Net.mkDownloader 30 3 0)
    Fixture.in_order Fixture.mixed_table
  = Raise (ValueError "max_workers must be greater than 0")
  /\ exists results,
       Net.download_batch Fixture.reliable_net Fixture.a_downloader
         Fixture.in_order Fixture.mixed_table = Ok results
       /\ NoDup (map fst results)
       /\ (forall k, k ∈ map fst results <-> k ∈ map fst Fixture.mixed_table)
       /\ (forall k v, (k, v) ∈ results ->
             exists r, (k, r) ∈ Fixture.mixed_table
                       /\ v = Net.task_result Fixture.reliable_net
                                Fixture.a_downloader k r).
Proof.
  split.
  - apply (proj1 (download_batch_one_entry_per_label Fixture.reliable_net
                    (Net.mkDownloader 30 3 0) Fixture.in_order
                    Fixture.mixed_table)).
    simpl. lia.
  - apply (proj2 (download_batch_one_entry_per_label Fixture.reliable_net
                    Fixture.a_downloader Fixture.in_order Fixture.mixed_table)).
    + simpl. lia.
    + reflexivity.
Defined.

Lemma download_batch_negative_retries_witness :
  Forall (fun item : label * (option stream * option string) =>
            snd item = (None, Some (str_of_exn (UnboundLocalError "key"))))
         [(IntLabel 0, (None, Some (str_of_exn (UnboundLocalError "key"))))].
Proof.
  apply (proj2 (download_batch_negative_retries Fixture.flaky_net
                  (Net.mkDownloader 30 (-1) 16) Fixture.in_order
                  Fixture.pending_table _ ltac:(simpl; lia) eq_refl)).
Defined.

(** ** utils.py: the retry decorator *)

Section Decorated.
Import Utils.

Variable A : Type.
Variable func : nat -> result A.

(** The loop from call number [c] on, when [k] more failures are allowed. *)
Lemma wrapper_loop_cases (mr k c fuel : nat) :
  (c + k = mr)%nat -> (k < fuel)%nat ->
  (exists j a,
      (j <= k)%nat
      /\ (forall j', (j' < j)%nat -> is_ok (func (c + j')) = false)
      /\ func (c + j)%nat = Ok a
      /\ wrapper_loop A func (Z.of_nat mr) fuel (Z.of_nat c) c c
         = Some (Ok (Some a), S (c + j), (c + j)%nat))
  \/ (exists e,
        (forall j, (j <= k)%nat -> is_ok (func (c + j)) = false)
        /\ func mr = Raise e
        /\ wrapper_loop A func (Z.of_nat mr) fuel (Z.of_nat c) c c
           = Some (Raise e, S mr, mr)).
Proof.
  revert c fuel. induction k as [|k IH]; intros c fuel Hc Hfuel;
    (destruct fuel as [|fuel]; [lia|]); cbn [wrapper_loop];
    rewrite (proj2 (Z.leb_le (Z.of_nat c) (Z.of_nat mr))) by lia;
    destruct (func c) as [a|e] eqn:Hfc.
  - left. exists O, a. rewrite Nat.add_0_r. repeat split; [lia|lia|done].
  - right. exists e. rewrite Nat.add_0_r in Hc. subst c.
    rewrite (proj2 (Z.ltb_lt _ _)) by lia. repeat split; [|done].
    intros j Hj. replace j with O by lia. by rewrite Nat.add_0_r, Hfc.
  - left. exists O, a. rewrite Nat.add_0_r. repeat split; [lia|lia|done].
  - rewrite (proj2 (Z.ltb_ge _ _)) by lia.
    replace (Z.of_nat c + 1) with (Z.of_nat (S c)) by lia.
    destruct (IH (S c) fuel) as [(j & a & Hj & Hfail & Hok & ->)|(e' & Hfail & He' & ->)];
      [lia..| |].
    + left. exists (S j), a. rewrite Nat.add_succ_r. repeat split; [lia| |done].
      intros [|j'] Hlt; [by rewrite Nat.add_0_r, Hfc|].
      rewrite Nat.add_succ_r. apply (Hfail j'). lia.
    + right. exists e'. repeat split; [|done].
      intros [|j] Hle; [by rewrite Nat.add_0_r, Hfc|].
      rewrite Nat.add_succ_r. apply (Hfail j). lia.
Qed.

(** X5. The function [retry(max_retries, delay)] wraps calls [func] until
    it returns, at most [max_retries + 1] times, and sleeps [delay] after
    every failure but the last: when the first [N <= max_retries] calls
    raise and the next returns, that value is returned after [N + 1] calls
    and [N] sleeps; when all [max_retries + 1] calls raise, the exception
    of the last call is raised again after [max_retries] sleeps.  With
    [max_retries < 0] the function is never called and [None] comes
    back. *)
Theorem retry_spec (max_retries : Z) (fuel : nat) :
  (Z.to_nat (max_retries + 1) < fuel)%nat ->
  (max_retries < 0 -> retry A func max_retries fuel = Some (Ok None, O, O))
  /\ (forall N a,
        Z.of_nat N <= max_retries ->
        (forall i, (i < N)%nat -> is_ok (func i) = false) ->
        func N = Ok a ->
        retry A func max_retries fuel = Some (Ok (Some a), S N, N))
  /\ (forall e,
        0 <= max_retries ->
        (forall i, (i < Z.to_nat max_retries)%nat -> is_ok (func i) = false) ->
        func (Z.to_nat max_retries) = Raise e ->
        retry A func max_retries fuel
        = Some (Raise e, S (Z.to_nat max_retries), Z.to_nat max_retries)).
Proof.
  intros Hfuel. unfold retry. split; [|split].
  - intros Hneg. destruct fuel as [|fuel]; [lia|]. cbn [wrapper_loop].
    by rewrite (proj2 (Z.leb_gt _ _)) by lia.
  - intros N a HN Hfail Hok.
    destruct (wrapper_loop_cases (Z.to_nat max_retries) (Z.to_nat max_retries)
                O fuel) as [(j & a' & Hj & Hfail' & Hok' & Hloop)
                           |(e & Hfail' & _ & _)]; [lia..| |].
    + rewrite Z2Nat.id in Hloop by lia. cbn in Hloop, Hok', Hfail'.
      destruct (Nat.lt_trichotomy N j) as [Hlt|[->|Hgt]].
      * specialize (Hfail' N Hlt). by rewrite Hok in Hfail'.
      * rewrite Hok in Hok'. injection Hok' as <-. exact Hloop.
      * specialize (Hfail j Hgt). by rewrite Hok' in Hfail.
    + specialize (Hfail' N ltac:(lia)). cbn in Hfail'. by rewrite Hok in Hfail'.
  - intros e Hpos Hfail He.
    destruct (wrapper_loop_cases (Z.to_nat max_retries) (Z.to_nat max_retries)
                O fuel) as [(j & a' & Hj & Hfail' & Hok' & _)
                           |(e' & _ & He' & Hloop)]; [lia..| |].
    + cbn in Hok'. destruct (decide (j = Z.to_nat max_retries)) as [->|Hne].
      * congruence.
      * specialize (Hfail j ltac:(lia)). by rewrite Hok' in Hfail.
    + rewrite Z2Nat.id in Hloop by lia. cbn in Hloop.
      rewrite He in He'. injection He' as <-. exact Hloop.
Qed.

End Decorated.

Lemma retry_spec_witness :
  Utils.retry Z Fixture.flaky_func (-1) 1 = Some (Ok None, O, O)
  /\ Utils.retry Z Fixture.flaky_func 3 5 = Some (Ok (Some 7), 3%nat, 2%nat)
  /\ Utils.retry Z Fixture.flaky_func 1 5
     = Some (Raise (ValueError "busy"), 2%nat, 1%nat).
Proof.
  split; [|split].
  - apply (proj1 (retry_spec Z Fixture.flaky_func (-1) 1 ltac:(simpl; lia))).
    lia.
  - apply (proj1 (proj2 (retry_spec Z Fixture.flaky_func 3 5 ltac:(simpl; lia)))
             2%nat 7).
    + lia.
    + intros i Hi. destruct i as [|[|i]]; [reflexivity..|lia].
    + reflexivity.
  - apply (proj2 (proj2 (retry_spec Z Fixture.flaky_func 1 5 ltac:(simpl; lia)))
             (ValueError "busy")).
    + lia.
    + intros i Hi. destruct i as [|i]; [reflexivity|simpl in Hi; lia].
    + reflexivity.
Defined.

(** ** parquet_handler.py: the names of the life cycle *)

Section Names.
Import PyStr Parquet.

Lemma endswith_go_length p s :
  endswith_go p s = true -> (String.length p <= String.length s)%nat.
Proof.
  induction s as [|x s IH]; cbn [endswith_go].
  - rewrite orb_false_r. by intros ->%String.eqb_eq.
  - intros [->%String.eqb_eq|Hs]%orb_true_iff; [done|].
    specialize (IH Hs). cbn. lia.
Qed.

Lemma endswith_go_refl p : endswith_go p p = true.
Proof. destruct p; cbn [endswith_go]; by rewrite String.eqb_refl. Qed.

Lemma endswith_go_app_r p a b :
  endswith_go p b = true -> endswith_go p (a +:+ b) = true.
Proof.
  intros Hb. induction a as [|x a IH]; [done|].
  rewrite app_cons. cbn [endswith_go]. by rewrite IH, orb_true_r.
Qed.

Lemma endswith_go_cons p x s :
  endswith_go p (String x s) = String.eqb p (String x s) || endswith_go p s.
Proof. reflexivity. Qed.

(** A suffix that begins with a character it does not hold again cannot
    start inside itself. *)
Lemma endswith_go_peel c o a rest :
  contains_char c a = false ->
  endswith_go (String c o) (a +:+ rest) = true ->
  endswith_go (String c o) rest = true.
Proof.
  induction a as [|y a IH]; [done|].
  cbn [contains_char]. intros [Hy Ha]%orb_false_iff.
  rewrite app_cons, endswith_go_cons. cbn [String.eqb].
  rewrite Ascii.eqb_sym, Hy. cbn. by apply IH.
Qed.

Lemma suffix_replaced c old' new :
  contains_char c old' = false ->
  forall s,
    endswith (String c old') s = true ->
    endswith new (replace (String c old') new s) = true.
Proof.
  intros Hc. unfold endswith.
  assert (Hgen : forall n s,
    (String.length s <= n)%nat ->
    endswith_go (String c old') s = true ->
    endswith_go new (replace (String c old') new s) = true).
  { induction n as [|n IH]; intros s Hlen Hend.
    { apply endswith_go_length in Hend. cbn in Hend. lia. }
    destruct s as [|x s].
    { apply endswith_go_length in Hend. cbn in Hend. lia. }
    destruct (startswith (String c old') (String x s)) eqn:Hsw.
    - destruct (startswith_prefix _ _ Hsw) as [rest Hrest].
      rewrite Hrest in Hend |- *. rewrite replace_match.
      destruct rest as [|y rest].
      + unfold replace. cbn [replace_go]. rewrite app_empty_r.
        apply endswith_go_refl.
      + apply endswith_go_app_r, IH.
        * apply (f_equal String.length) in Hrest.
          rewrite length_app in Hrest. cbn in Hrest, Hlen |- *. lia.
        * rewrite app_cons, endswith_go_cons in Hend.
          apply orb_true_iff in Hend as [Heq|Hend].
          { apply String.eqb_eq in Heq. rewrite <- app_cons in Heq.
            apply (f_equal String.length) in Heq.
            rewrite length_app in Heq. cbn in Heq. lia. }
          by apply (endswith_go_peel c old' old').
    - rewrite replace_no_match by done. rewrite endswith_go_cons in Hend.
      apply orb_true_iff in Hend as [Heq|Hend].
      + apply String.eqb_eq in Heq. rewrite <- Heq in Hsw.
        pose proof (startswith_app (String c old') "") as Hself.
        rewrite app_empty_r in Hself. congruence.
      + rewrite endswith_go_cons, (IH s); [by rewrite orb_true_r| |done].
        cbn in Hlen. lia. }
  intros s. by apply (Hgen (String.length s)).
Qed.

(** Two suffixes of one string: the shorter ends the longer. *)
Lemma endswith_go_both a b s :
  (String.length a <= String.length b)%nat ->
  endswith_go a s = true -> endswith_go b s = true -> endswith_go a b = true.
Proof.
  intros Hlen. induction s as [|x s IH]; rewrite !(endswith_go_cons _ x s) || idtac.
  - cbn [endswith_go]. rewrite !orb_false_r.
    intros ->%String.eqb_eq ->%String.eqb_eq. done.
  - intros Ha [->%String.eqb_eq|Hb]%orb_true_iff.
    { by rewrite <- endswith_go_cons in Ha. }
    apply orb_true_iff in Ha as [->%String.eqb_eq|Ha]; [|by apply IH].
    apply endswith_go_length in Hb. cbn in Hlen. lia.
Qed.

End Names.

Section Lifecycle.
Import PyStr Parquet.

Lemma processing_not_processed s :
  endswith "_processing.parquet" s = true ->
  endswith "_processed.parquet" s = false.
Proof.
  intros Hs. destruct (endswith "_processed.parquet" s) eqn:Hd; [|done].
  assert (H : endswith_go "_processed.parquet" "_processing.parquet" = true).
  { apply (endswith_go_both _ _ s); [cbn; lia|done..]. }
  by vm_compute in H.
Qed.

Lemma os_rename_fresh pl ds src dst (t : gmap string dataframe) df :
  t !! src = Some df -> src <> dst ->
  dir_there ds (dirname dst) = true -> ~ dst ∈ ds ->
  pl = Posix \/ t !! dst = None ->
  os_rename pl ds src dst t = (Ok tt, <[ dst := df ]> (delete src t)).
Proof.
  intros Hsrc Hne Hdir Hnodir Hpl.
  rewrite (os_rename_there pl ds src dst t df) by done.
  destruct Hpl as [->| ->]; [by destruct (t !! dst)|done].
Qed.

(** X6. A table whose name ends with [.parquet] and is in neither of the
    two marked forms goes through the marked forms in order: marking it as
    processing gives a name that ends with [_processing.parquet], marking
    that as processed gives a name that ends with [_processed.parquet],
    and the three names differ.  When the directories of the two new
    names are there and the new names are no directories, both renamings
    succeed (on POSIX, or when the two targets are free) and in the end
    the rows are under the processed name only. *)
Theorem pending_to_processed pl ds p t df :
  endswith ".parquet" p = true ->
  endswith "_processing.parquet" p = false ->
  endswith "_processed.parquet" p = false ->
  t !! p = Some df ->
  let q := replace ".parquet" "_processing.parquet" p in
  let r := replace "_processing.parquet" "_processed.parquet" q in
  dir_there ds (dirname q) = true -> dir_there ds (dirname r) = true ->
  ~ q ∈ ds -> ~ r ∈ ds ->
  pl = Posix \/ (t !! q = None /\ t !! r = None) ->
  endswith "_processing.parquet" q = true
  /\ endswith "_processed.parquet" r = true
  /\ (p <> q /\ q <> r /\ p <> r)
  /\ exists t1 t2,
       mark_as_processing pl ds p t = (Ok q, t1)
       /\ mark_as_processed pl ds q t1 = (Ok r, t2)
       /\ t1 !! q = Some df
       /\ t2 = <[ r := df ]> (delete q (delete p t)).
Proof.
  intros Hp Hnq Hnr Hdf q r Hdq Hdr Hqd Hrd Hpl.
  assert (Hq : endswith "_processing.parquet" q = true).
  { by apply (suffix_replaced "." "parquet"). }
  assert (Hr : endswith "_processed.parquet" r = true).
  { by apply (suffix_replaced "_" "processing.parquet"). }
  assert (Hpq : p <> q) by (intros Heq; rewrite <- Heq in Hq; congruence).
  assert (Hpr : p <> r) by (intros Heq; rewrite <- Heq in Hr; congruence).
  assert (Hqr : q <> r).
  { intros Heq. apply processing_not_processed in Hq.
    rewrite Heq in Hq. congruence. }
  do 3 (split; [done|]).
  exists (<[ q := df ]> (delete p t)), (<[ r := df ]> (delete q (delete p t))).
  split; [|split; [|split]].
  - unfold mark_as_processing, bind. fold q.
    rewrite (os_rename_fresh pl ds p q t df); [done..|].
    destruct Hpl as [->|[Hfree _]]; [by left|by right].
  - unfold mark_as_processed, bind. fold q r.
    rewrite (os_rename_fresh pl ds q r _ df);
      [|by rewrite lookup_insert_eq|done..|].
    + by rewrite delete_insert_eq.
    + destruct Hpl as [->|[_ Hfree]]; [by left|right].
      by rewrite lookup_insert_ne, lookup_delete_ne.
  - by rewrite lookup_insert_eq.
  - done.
Qed.

Lemma pending_to_processed_witness :
  let p := "in/a.parquet" in
  let q := "in/a_processing.parquet" in
  let r := "in/a_processed.parquet" in
  endswith "_processing.parquet" q = true
  /\ endswith "_processed.parquet" r = true
  /\ (p <> q /\ q <> r /\ p <> r)
  /\ exists t1 t2,
       mark_as_processing Windows Fixture.in_only p Fixture.one_pending
       = (Ok q, t1)
       /\ mark_as_processed Windows Fixture.in_only q t1 = (Ok r, t2)
       /\ t1 !! q = Some Fixture.pending_table
       /\ t2 = <[ r := Fixture.pending_table ]>
                 (delete q (delete p Fixture.one_pending)).
Proof.
  apply (pending_to_processed Windows Fixture.in_only "in/a.parquet"
           Fixture.one_pending Fixture.pending_table).
  - vm_compute. reflexivity.
  - vm_compute. reflexivity.
  - vm_compute. reflexivity.
  - vm_compute. reflexivity.
  - vm_compute. reflexivity.
  - vm_compute. reflexivity.
  - vm_compute. intros H. by apply (bool_decide_pack _) in H.
  - vm_compute. intros H. by apply (bool_decide_pack _) in H.
  - right. split; vm_compute; reflexivity.
Defined.

End Lifecycle.

(** ** app.py: what a pass that returns leaves behind *)

Section Pass.
Import PyStr Parquet App Spec.

Variable pl : platform.
Variable urlopen : Z -> label -> string -> nat -> Net.response.
Variable completed : list (label * row) -> list (label * row).
Variable downloader : Net.Downloader.

(** The pool completes every task that was submitted, once. *)
Hypothesis completed_all : forall l, completed l ≡ₚ l.

(** A row that is unset after the update was unset before, and is under
    none of the labels [keys]. *)
Local Abbreviation untouched :=
  (fun (keys : list label) (a b : label * row) =>
     fst a = fst b
     /\ (isna (snd b) = true -> isna (snd a) = true /\ ~ fst a ∈ keys)).

Lemma loc_set_marks f idx df :
  (forall r, isna (f r) = false) ->
  Forall2 (untouched [idx]) df (loc_set f idx df).
Proof.
  intros Hf. unfold loc_set. induction df as [|[k r] df IH]; cbn [map];
    constructor; [|exact IH].
  cbn. destruct (decide (k = idx)) as [->|Hne]; cbn.
  - split; [done|]. by rewrite Hf.
  - split; [done|]. intros Hna. split; [done|].
    by intros ->%list_elem_of_singleton.
Qed.

Lemma apply_result_marks flag df c item s :
  exists df' c' s',
    apply_result flag (df, c) item s = (Ok (df', c'), s')
    /\ Forall2 (untouched [fst item]) df df'
    /\ c <= c' <= c + 1.
Proof.
  destruct item as [idx [[body|] err]]; cbn.
  - assert (Hfail : forall e s1, exists df' c' s',
        ret (S := Store.state)
            (loc_set (set_error (Some (str_of_exn e))) idx
               (loc_set (set_status (Some "failed")) idx df), c) s1
        = (Ok (df', c'), s')
        /\ Forall2 (untouched [idx]) df df' /\ c <= c' <= c + 1).
    { intros e s1. eexists _, _, _. split; [reflexivity|]. split; [|lia].
      rewrite loc_set_compose. by apply loc_set_marks. }
    unfold try_except, bind. destruct (loc_url df idx) as [u|e]; [|apply Hfail].
    destruct (Store.save_image idx body _ s) as [[path|e] s1]; [|apply Hfail].
    eexists _, _, _. split; [reflexivity|]. split; [|lia].
    destruct flag; rewrite !loc_set_compose; by apply loc_set_marks.
  - eexists _, _, _. split; [reflexivity|]. split; [|lia].
    rewrite loc_set_compose. by apply loc_set_marks.
Qed.

Lemma apply_results_marks flag results df c s :
  exists df' c' s',
    apply_results flag results (df, c) s = (Ok (df', c'), s')
    /\ Forall2 (untouched (map fst results)) df df'
    /\ c <= c' <= c + Z.of_nat (length results).
Proof.
  revert df c s. induction results as [|item results IH]; intros df c s.
  - exists df, c, s. split; [done|]. split; [|cbn; lia].
    clear. induction df as [|a df IH]; constructor; [|done].
    split; [done|]. intros Hna. split; [done|]. apply not_elem_of_nil.
  - cbn [apply_results]. unfold bind.
    destruct (apply_result_marks flag df c item s)
      as (df1 & c1 & s1 & -> & Hstep1 & Hc1).
    destruct (IH df1 c1 s1) as (df2 & c2 & s2 & -> & Hstep2 & Hc2).
    exists df2, c2, s2. split; [done|]. split; [|cbn [length]; lia].
    clear - Hstep1 Hstep2. revert df2 Hstep2.
    induction Hstep1 as [|a b df df1 [Hk Hab] _ IH]; intros df2 Hstep2.
    + inversion Hstep2. constructor.
    + inversion Hstep2 as [|b' d df1' df2' [Hk' Hbd] Hrest]; subst.
      constructor; [|by apply IH].
      split; [congruence|]. intros Hna.
      destruct (Hbd Hna) as [Hnb Hnotin]. destruct (Hab Hnb) as [Hnaa Hne].
      split; [done|]. cbn [map]. rewrite not_elem_of_cons. split.
      * intros Heq. apply Hne. rewrite Heq. left.
      * by rewrite Hk.
Qed.

Lemma filter_none {A} (P : A -> Prop) `{forall x, Decision (P x)} (l : list A) :
  Forall (fun x => ~ P x) l -> filter P l = [].
Proof.
  induction 1 as [|x l Hx Hl IH]; [done|].
  by rewrite filter_cons_False.
Qed.

(** When every unset row was under one of the labels, none is left. *)
Lemma marks_complete keys df df' :
  Forall2 (untouched keys) df df' ->
  (forall a, a ∈ df -> isna (snd a) = true -> fst a ∈ keys) ->
  Forall (fun b => isna (snd b) <> true) df'.
Proof.
  induction 1 as [|a b df df' [Hk Hab] _ IH]; intros Hall; constructor.
  - intros Hna. destruct (Hab Hna) as [Hnaa Hnotin]. destruct Hnotin.
    apply Hall; [left|done].
  - apply IH. intros a' Ha'. apply Hall. by right.
Qed.

Lemma reset_index_from_status i df :
  Forall (fun b => isna (snd b) <> true) df ->
  Forall (fun b => isna (snd b) <> true) (reset_index_from i df).
Proof.
  intros Hdf. revert i.
  induction Hdf as [|[k r] df Hr _ IH]; intros i; cbn [reset_index_from];
    constructor; [done|apply IH].
Qed.

Lemma length_reset_index_from i df :
  length (reset_index_from i df) = length df.
Proof.
  revert i. induction df as [|[k r] df IH]; intros i; [done|].
  cbn. by rewrite IH.
Qed.

Lemma mark_as_processed_target ds pf (t : gmap string dataframe) r t' :
  mark_as_processed pl ds pf t = (Ok r, t') ->
  r = replace "_processing.parquet" "_processed.parquet" pf
  /\ t' !! r = t !! pf.
Proof.
  unfold mark_as_processed, bind, ret.
  destruct (os_rename pl ds pf _ t) as [[[]|e] t1] eqn:E; [|done].
  intros [= <- <-]. split; [done|]. by eapply os_rename_target.
Qed.

(** What the part shared by the two passes leaves when it returns. *)
Lemma process_rows_returns flag pf w n w' :
  process_rows pl urlopen completed downloader flag pf w = (Ok n, w') ->
  exists df df',
    tables w !! pf = Some df
    /\ tables w' !! replace "_processing.parquet" "_processed.parquet" pf
       = Some df'
    /\ find_incomplete_rows df' = []
    /\ length df' = length df
    /\ 0 <= n <= Z.of_nat (length (find_incomplete_rows df)).
Proof.
  destruct w as [t st ds]. cbn [tables].
  unfold process_rows, bind, on_input, on_tables, on_store, read_parquet, download,
    write_parquet, modify, ret. cbn [tables store in_dirs].
  destruct (t !! pf) as [df|] eqn:Hdf; [|done].
  destruct (find_incomplete_rows df) as [|a inc] eqn:Hinc.
  - cbn [tables store in_dirs].
    destruct (mark_as_processed pl ds pf t) as [[q|e] t1] eqn:Hmv; [|done].
    intros [= <- <-]. cbn [tables].
    apply mark_as_processed_target in Hmv as [-> Hq].
    exists df, df. rewrite Hq. repeat split; try done; cbn; lia.
  - rewrite <- Hinc.
    destruct (Net.download_batch _ _ _ _) as [results|e] eqn:Hres; [|done].
    cbn [tables store in_dirs].
    destruct (apply_results_marks flag results df 0 st)
      as (df1 & c1 & st1 & -> & Hmarks & Hc1).
    cbn [fst snd tables store in_dirs].
    destruct (mark_as_processed pl ds pf _) as [[q|e] t1] eqn:Hmv; [|done].
    intros [= <- <-]. cbn [tables].
    apply mark_as_processed_target in Hmv as [-> Hq].
    rewrite lookup_insert_eq in Hq.
    unfold Net.download_batch in Hres.
    destruct (_ <=? _); [done|]. injection Hres as Hres.
    destruct (stored_results urlopen downloader completed
                (completed (find_incomplete_rows df)) [])
      as (Hnodup & Hkeys & _); [constructor|].
    rewrite Hres in Hnodup, Hkeys.
    exists df, (reset_index_from 0 df1). split; [done|]. split; [done|].
    split; [|split].
    + apply filter_none, reset_index_from_status.
      apply (marks_complete (map fst results) df); [done|].
      intros a0 Ha0 Hna. apply Hkeys. right. rewrite completed_all.
      apply list_elem_of_fmap_2, list_elem_of_filter. by split.
    + rewrite length_reset_index_from. symmetry.
      by eapply Forall2_length.
    + split; [lia|].
      assert (length results <= length (find_incomplete_rows df))%nat; [|lia].
      rewrite <- (length_map fst results),
        <- (length_map fst (find_incomplete_rows df)).
      apply submseteq_length, NoDup_submseteq; [done|].
      intros k Hk. apply Hkeys in Hk as [[]%elem_of_nil|Hk].
      by rewrite completed_all in Hk.
Qed.

(** X7. When the pool completes every submitted task, a call of
    [process_parquet_file] that returns, and a turn of the loop of [resume]
    that ends without an exception, leave the table complete: it is under
    the processed name, it has as many rows as the table that was read,
    none of its rows is without a status, and the count handed back is
    between 0 and the number of rows that had no status. *)
Theorem returned_pass_completes_table :
  (forall parquet_file w n w',
      process_parquet_file pl urlopen completed downloader parquet_file w
      = (Ok n, w') ->
      exists df df',
        tables w !! parquet_file = Some df
        /\ tables w' !! replace "_processing.parquet" "_processed.parquet"
                         (replace ".parquet" "_processing.parquet" parquet_file)
           = Some df'
        /\ find_incomplete_rows df' = []
        /\ length df' = length df
        /\ 0 <= n <= Z.of_nat (length (find_incomplete_rows df)))
  /\ (forall input_dir processing_file w n w',
        resume_file pl urlopen completed downloader input_dir processing_file w
        = (Ok n, w') ->
        exists df df',
          tables w !! join input_dir processing_file = Some df
          /\ tables w' !! replace "_processing.parquet" "_processed.parquet"
                           (join input_dir processing_file)
             = Some df'
          /\ find_incomplete_rows df' = []
          /\ length df' = length df
          /\ 0 <= n <= Z.of_nat (length (find_incomplete_rows df))).
Proof.
  split.
  - intros p w n w'.
    change (process_parquet_file pl urlopen completed downloader p)
      with (bind (on_input (fun ds => mark_as_processing pl ds p))
              (process_rows pl urlopen completed downloader false)).
    unfold bind, on_input, on_tables at 1.
    destruct (mark_as_processing pl (in_dirs w) p (tables w)) as [[pf|e] t1] eqn:Hmark;
      [|done].
    unfold mark_as_processing, bind, ret in Hmark.
    destruct (os_rename pl (in_dirs w) p _ (tables w)) as [[[]|e'] t2] eqn:E; [|done].
    injection Hmark as <- <-. intros Hrows.
    apply process_rows_returns in Hrows
      as (df & df' & Hdf & Hdf' & Hnone & Hlen & Hn).
    cbn [tables] in Hdf. exists df, df'. split; [|done].
    exact (eq_trans (eq_sym (os_rename_target _ _ _ _ _ _ E)) Hdf).
  - intros dir name w n w' Hrows.
    by apply (process_rows_returns true (join dir name)) in Hrows.
Qed.

End Pass.

Lemma returned_pass_completes_table_witness :
  let w := Fixture.mixed_world "in/a.parquet" in
  let out := App.process_parquet_file Posix Fixture.reliable_net Fixture.in_order
               Fixture.a_downloader "in/a.parquet" w in
  exists df df',
    App.tables w !! "in/a.parquet" = Some df
    /\ App.tables (snd out) !! "in/a_processed.parquet" = Some df'
    /\ Parquet.find_incomplete_rows df' = []
    /\ length df' = length df
    /\ 0 <= 1 <= Z.of_nat (length (Parquet.find_incomplete_rows df)).
Proof.
  apply (proj1 (returned_pass_completes_table Posix Fixture.reliable_net
                  Fixture.in_order Fixture.a_downloader
                  (fun l => Permutation_refl l))
           "in/a.parquet" (Fixture.mixed_world "in/a.parquet") 1).
  vm_compute. reflexivity.
Defined.

(** ** storage.py: starting again on a tree the program has written *)

Section Restart.
Import PyStr Os Store Spec.

Lemma app_inj_l p a b : p +:+ a = p +:+ b -> a = b.
Proof.
  induction p as [|c p IH]; [done|]. rewrite !app_cons. intros [= H]. by apply IH.
Qed.

Lemma isdigit_parts d :
  isdigit d = true -> d <> "" /\ contains_char "/" d = false.
Proof.
  unfold isdigit. intros [Hne Hd]%andb_true_iff. split.
  - intros ->. done.
  - by apply digits_no_char.
Qed.

Lemma join_digits_inj out d n :
  isdigit d = true -> join out d = batch_dir out n -> d = format_06d n.
Proof.
  intros [_ Hd]%isdigit_parts. rewrite join_relative, batch_dir_eq by done.
  apply app_inj_l.
Qed.

Lemma numeric_subdirs_elem fs out names d :
  listdir fs out = Ok names ->
  d ∈ numeric_subdirs fs out names <->
  isdigit d = true /\ join out d ∈ dirs fs.
Proof.
  intros [_ ->]%listdir_Ok. unfold numeric_subdirs.
  rewrite list_elem_of_filter, andb_true_iff, isdir_true. split.
  - intros [[Hdir Hd] _]. done.
  - intros [Hd Hdir]. split; [done|]. apply list_elem_of_omap.
    exists (join out d). split; [by apply elem_of_elements, elem_of_union_l|].
    apply child_name_Some. destruct (isdigit_parts d Hd). done.
Qed.

(** The output directory is there, and every directory in it with a name
    of digits has a name of decimal digits, which stands for a number that
    is not above the current batch. *)
Local Abbreviation numbered :=
  (fun (out : string) (s : Store.state) =>
     output_dir (fst s) = out
     /\ out ∈ dirs (snd s)
     /\ 0 <= current_batch (fst s)
     /\ forall d, isdigit d = true -> join out d ∈ dirs (snd s) ->
                  all_decimal d = true
                  /\ int_of_digits d <= current_batch (fst s)).

Lemma init_numbered out gb fs0 s0 :
  init out gb fs0 = Ok s0 ->
  numbered out s0 /\ batch_dir out (current_batch (fst s0)) ∈ dirs (snd s0).
Proof.
  intros (n & Hn & Hst & Hmk)%init_Ok.
  destruct (next_batch_number_above _ _ _ Hn) as [Hpos _].
  destruct (makedirs_dirs _ _ _ Hmk) as [Hdirs _].
  destruct (listdir fs0 out) as [names|e] eqn:Hls;
    [|by unfold _get_next_batch_number in Hn; rewrite Hls in Hn].
  destruct (next_batch_number_Ok _ _ _ _ Hls Hn) as [Hall Hcases].
  rewrite Hst, Hdirs. cbn.
  split; [|by apply elem_of_union_l, elem_of_singleton].
  split; [done|]. split.
  { apply listdir_Ok in Hls as [Hout _]. by apply elem_of_union_r. }
  split; [lia|].
  intros d Hd [Heq%elem_of_singleton|Hin]%elem_of_union.
  - apply join_digits_inj in Heq; [|done]. subst d.
    split; [apply format_06d_decimal; lia|].
    rewrite format_06d_value; lia.
  - assert (Hnum : d ∈ numeric_subdirs fs0 out names)
      by by apply numeric_subdirs_elem.
    split; [by apply (proj1 (Forall_forall _ _) Hall)|].
    destruct Hcases as [[Hnil _]|(d0 & _ & -> & Hmax)].
    + rewrite Hnil in Hnum. by apply elem_of_nil in Hnum.
    + apply Hmax in Hnum. lia.
Qed.

Lemma save_image_dirs key img ext st fs :
  let s' := snd (save_image key img ext (st, fs)) in
  dirs (snd s') = dirs fs
  \/ (current_batch (fst s') = current_batch st + 1
      /\ dirs (snd s')
         = {[ batch_dir (output_dir st) (current_batch st + 1) ]} ∪ dirs fs).
Proof.
  cbn zeta. rewrite save_image_unfold.
  destruct (listdir fs (_get_batch_dir st)) as [names|e]; [|by left].
  cbn zeta. destruct (_ <=? _).
  - destruct (makedirs fs _) as [fs1|e] eqn:Hmk; [|by left].
    destruct (makedirs_dirs _ _ _ Hmk) as [Hdirs _].
    destruct (write_file fs1 _ img) as [fs2|e] eqn:Hw; cbn [fst snd];
      right; (split; [done|]).
    + destruct (write_file_Ok _ _ _ _ Hw) as (-> & _ & _). done.
    + done.
  - destruct (write_file fs _ img) as [fs2|e] eqn:Hw; cbn [snd]; [|by left].
    destruct (write_file_Ok _ _ _ _ Hw) as (-> & _ & _). by left.
Qed.

Lemma step_numbered out e s : numbered out s -> numbered out (step e s).
Proof.
  destruct s as [st fs]. intros (Hout & Hdir & Hpos & Hmax).
  destruct (step_state e (st, fs)) as (Ho & _ & Hcur). cbn [fst snd] in *.
  destruct e as [key img ext|p]; cbn [step] in *.
  2:{ done. }
  pose proof (save_image_dirs key img ext st fs) as Hdirs. cbn zeta in Hdirs.
  split; [congruence|].
  destruct Hdirs as [Hsame|[Hnext Hnew]].
  - rewrite Hsame. split; [done|]. split; [lia|].
    intros d Hd Hin. destruct (Hmax d Hd Hin). split; [done|lia].
  - rewrite Hnew, Hnext. split; [by apply elem_of_union_r|]. split; [lia|].
    intros d Hd [Heq%elem_of_singleton|Hin]%elem_of_union.
    + rewrite Hout in Heq. apply join_digits_inj in Heq; [|done]. subst d.
      split; [apply format_06d_decimal; lia|].
      rewrite format_06d_value; lia.
    + destruct (Hmax d Hd Hin). split; [done|lia].
Qed.

Lemma run_numbered out evs s : numbered out s -> numbered out (run evs s).
Proof.
  revert s. induction evs as [|e evs IH]; intros s Hs; cbn [run]; [done|].
  by apply IH, step_numbered.
Qed.

Lemma numbered_next out s :
  numbered out s ->
  batch_dir out (current_batch (fst s)) ∈ dirs (snd s) ->
  _get_next_batch_number out (snd s) = Ok (current_batch (fst s) + 1).
Proof.
  intros (_ & Hdir & Hpos & Hmax) Hcur.
  assert (Hls : exists names, listdir (snd s) out = Ok names).
  { unfold listdir. rewrite (proj2 (isdir_true _ _) Hdir). by eexists. }
  destruct Hls as [names Hls].
  destruct (next_batch_number_cases _ _ _ Hls)
    as [(_ & n & -> & Hcases)|[Hex _]].
  2:{ apply Exists_exists in Hex as (d & Hd & Hbad).
      apply numeric_subdirs_elem in Hd as [Hd Hin]; [|done].
      destruct (Hmax d Hd Hin). congruence. }
  assert (Hnum : format_06d (current_batch (fst s))
                 ∈ numeric_subdirs (snd s) out names).
  { apply numeric_subdirs_elem; [done|]. split; [by apply format_06d_isdigit|].
    done. }
  destruct Hcases as [[Hnil _]|(d & Hd & -> & Hle)].
  - rewrite Hnil in Hnum. by apply elem_of_nil in Hnum.
  - apply Hle in Hnum. rewrite format_06d_value in Hnum by done.
    apply numeric_subdirs_elem in Hd as [Hd Hin]; [|done].
    destruct (Hmax d Hd Hin). f_equal. lia.
Qed.

Lemma save_image_batch_dir key img ext st fs path s' :
  save_image key img ext (st, fs) = (Ok path, s') ->
  _get_batch_dir (fst s') ∈ dirs (snd s').
Proof.
  rewrite save_image_unfold.
  destruct (listdir fs (_get_batch_dir st)) as [names|e] eqn:Hls; [|done].
  apply listdir_Ok in Hls as [Hdir _].
  cbn zeta. destruct (_ <=? _).
  - destruct (makedirs fs _) as [fs1|e] eqn:Hmk; [|done].
    destruct (makedirs_dirs _ _ _ Hmk) as [Hdirs _].
    destruct (write_file fs1 _ img) as [fs2|e] eqn:Hw; [|done].
    destruct (write_file_Ok _ _ _ _ Hw) as (Hd2 & _ & _).
    intros [= _ <-]. cbn [fst snd]. rewrite Hd2, Hdirs.
    by apply elem_of_union_l, elem_of_singleton.
  - destruct (write_file fs _ img) as [fs2|e] eqn:Hw; [|done].
    destruct (write_file_Ok _ _ _ _ Hw) as (Hd2 & _ & _).
    intros [= _ <-]. cbn [fst snd]. by rewrite Hd2.
Qed.

(** X8. A new [Storage] object never goes on with the batch the last one
    was writing: right after [Storage(out, gb)], and after any image saved
    later (with whatever was saved, or removed by somebody else, in
    between), [_get_next_batch_number] on the tree as it stands answers the
    current batch number plus one, so the next start of the program opens
    a new batch directory, however little the current one holds. *)
Theorem restart_opens_next_batch out gb fs0 s0 :
  init out gb fs0 = Ok s0 ->
  _get_next_batch_number out (snd s0) = Ok (current_batch (fst s0) + 1)
  /\ forall evs key img ext path s',
       save_image key img ext (run evs s0) = (Ok path, s') ->
       _get_next_batch_number out (snd s') = Ok (current_batch (fst s') + 1)
       /\ forall s1, init out gb (snd s') = Ok s1 ->
                     current_batch (fst s1) = current_batch (fst s') + 1.
Proof.
  intros [Hnum Hcur]%init_numbered. split; [by apply numbered_next|].
  intros evs key img ext path s' Hsave.
  assert (Hnum' : numbered out s').
  { replace s' with (step (Save key img ext) (run evs s0))
      by (cbn [step]; by rewrite Hsave).
    by apply step_numbered, run_numbered. }
  assert (Hnext : _get_next_batch_number out (snd s')
                  = Ok (current_batch (fst s') + 1)).
  { apply numbered_next; [done|].
    destruct (run evs s0) as [st fs].
    apply save_image_batch_dir in Hsave. rewrite get_batch_dir_eq in Hsave.
    by rewrite (proj1 Hnum') in Hsave. }
  split; [done|].
  intros s1 (n & Hn & Hst & _)%init_Ok. rewrite Hst. cbn. congruence.
Qed.

End Restart.

Lemma restart_opens_next_batch_witness :
  Store._get_next_batch_number "out" (snd (Fixture.fresh_store 1)) = Ok 2
  /\ forall evs key img ext path s',
       Store.save_image key img ext (Spec.run evs (Fixture.fresh_store 1))
       = (Ok path, s') ->
       Store._get_next_batch_number "out" (snd s')
       = Ok (Store.current_batch (fst s') + 1)
       /\ forall s1, Store.init "out" 1 (snd s') = Ok s1 ->
                     Store.current_batch (fst s1)
                     = Store.current_batch (fst s') + 1.
Proof.
  apply (restart_opens_next_batch "out" 1 Fixture.empty_out
           (Fixture.fresh_store 1)).
  vm_compute. reflexivity.
Defined.

Section Occurrences.
Import PyStr Spec.

Lemma occurs_eq old s :
  occurs old s
  = startswith old s
    || match s with EmptyString => false | String _ s' => occurs old s' end.
Proof. by destruct s. Qed.

Lemma occurs_skip b a y : occurs b y = true -> occurs b (a +:+ y) = true.
Proof.
  intros Hy. induction a as [|c a IH]; [done|].
  rewrite app_cons, occurs_eq. by rewrite IH, orb_true_r.
Qed.

Lemma occurs_inv old s :
  occurs old s = true -> exists pre rest, s = pre +:+ old +:+ rest.
Proof.
  induction s as [|c s IH]; rewrite occurs_eq.
  - rewrite orb_false_r. intros [rest ->]%startswith_prefix. by exists "", rest.
  - intros [[rest ->]%startswith_prefix|(pre & rest & ->)%IH]%orb_true_iff.
    + by exists "", rest.
    + by exists (String c pre), rest.
Qed.

(** A string that holds no [b] holds no string that ends with [b]. *)
Lemma occurs_app a b s : occurs b s = false -> occurs (a +:+ b) s = false.
Proof.
  intros Hb. destruct (occurs (a +:+ b) s) eqn:E; [|done].
  apply occurs_inv in E as (pre & rest & ->).
  rewrite app_assoc' in Hb.
  rewrite (occurs_skip b pre) in Hb; [done|].
  apply occurs_skip. by rewrite occurs_eq, startswith_app.
Qed.

Lemma startswith_split old a x b :
  startswith old (a +:+ String x b) = true ->
  startswith old a = true \/ contains_char x old = true.
Proof.
  revert a. induction old as [|o old IH]; intros a; [by left|].
  destruct a as [|c a].
  - rewrite app_empty_l. cbn [startswith contains_char].
    intros [Ho _]%andb_true_iff. right. by rewrite Ho.
  - rewrite app_cons. cbn [startswith contains_char].
    intros [Ho Hs]%andb_true_iff. destruct (IH a Hs) as [H|H].
    + left. by rewrite Ho, H.
    + right. by rewrite H, orb_true_r.
Qed.

(** [replace] goes past a directory part that holds no [old], when [old]
    holds no separator. *)
Lemma replace_after_dir old new a b :
  old <> "" -> contains_char "/" old = false -> occurs old a = false ->
  replace old new (a +:+ "/" +:+ b) = a +:+ "/" +:+ replace old new b.
Proof.
  intros Hne Hold. induction a as [|c a IH]; intros Ha.
  - rewrite !app_empty_l.
    change ("/" +:+ b) with (String "/" b).
    change ("/" +:+ replace old new b) with (String "/" (replace old new b)).
    apply replace_no_match. destruct old as [|o old]; [done|].
    cbn [startswith]. cbn [contains_char] in Hold.
    apply orb_false_iff in Hold as [Ho _]. by rewrite Ho.
  - rewrite occurs_eq in Ha. apply orb_false_iff in Ha as [Hst Ha].
    change (String c a +:+ "/" +:+ b) with (String c (a +:+ "/" +:+ b)).
    change (String c a +:+ "/" +:+ replace old new b)
      with (String c (a +:+ "/" +:+ replace old new b)).
    rewrite replace_no_match; [by rewrite IH|].
    destruct (startswith old (String c (a +:+ "/" +:+ b))) eqn:E; [|done].
    change (String c (a +:+ "/" +:+ b)) with (String c a +:+ String "/" b) in E.
    apply startswith_split in E as [E|E]; congruence.
Qed.

Lemma replace_go_no_char c old new skip s :
  contains_char c s = false -> contains_char c new = false ->
  contains_char c (replace_go old new skip s) = false.
Proof.
  intros Hs Hnew. revert skip Hs.
  induction s as [|x s IH]; intros skip Hs; [done|].
  cbn [contains_char] in Hs. apply orb_false_iff in Hs as [Hx Hs].
  cbn [replace_go]. destruct skip as [|k]; [|by apply IH].
  destruct (startswith old (String x s)).
  - rewrite contains_char_app, Hnew. by apply IH.
  - cbn [contains_char]. rewrite Hx. by apply IH.
Qed.

Lemma endswith_go_trans a b s :
  endswith_go a b = true -> endswith_go b s = true -> endswith_go a s = true.
Proof.
  intros Hab. induction s as [|x s IH]; cbn [endswith_go].
  - rewrite !orb_false_r. intros Hb%String.eqb_eq. subst b.
    cbn [endswith_go] in Hab. by rewrite orb_false_r in Hab.
  - intros [Hb%String.eqb_eq|Hs]%orb_true_iff.
    + subst b. exact Hab.
    + by rewrite (IH Hs), orb_true_r.
Qed.

End Occurrences.

(** ** app.py: what a whole run leaves in the input directory *)

Section Drain.
Import PyStr Os Parquet App Spec.

Variable urlopen : Z -> label -> string -> nat -> Net.response.
Variable completed : list (label * row) -> list (label * row).
Variable downloader : Net.Downloader.
Variable input_dir : string.

(** The names [list_parquet_files] lists, whatever the tables are. *)
Local Abbreviation pending :=
  (fun f : string =>
     (exists n, child_name input_dir f = Some n
                /\ startswith "." n = false
                /\ endswith ".parquet" n = true)
     /\ endswith "_processing.parquet" f = false
     /\ endswith "_processed.parquet" f = false).

(** No table directly in the input directory is in the processing form. *)
Local Abbreviation none_processing :=
  (fun t : gmap string dataframe =>
     forall p n, is_Some (t !! p) -> child_name input_dir p = Some n ->
                 endswith "_processing.parquet" n = true -> False).

Lemma endswith_join s d n : endswith s n = true -> endswith s (join d n) = true.
Proof.
  intros Hn. unfold join, endswith in *.
  destruct (startswith "/" n); [done|].
  destruct (_ || _); [by apply endswith_go_app_r|].
  by do 2 apply endswith_go_app_r.
Qed.

Lemma child_name_endswith s d p n :
  child_name d p = Some n -> endswith s n = true -> endswith s p = true.
Proof. intros [-> _]%child_name_Some. apply endswith_join. Qed.

Lemma pending_parquet f : pending f -> endswith ".parquet" f = true.
Proof. intros [(n & Hn & _ & Hext) _]. by eapply child_name_endswith. Qed.

Lemma os_rename_names pl ds src dst (t : gmap string dataframe) res t' :
  os_rename pl ds src dst t = (res, t') ->
  forall f, is_Some (t' !! f) -> is_Some (t !! f) \/ f = dst.
Proof.
  intros E f Hf.
  destruct (os_rename_cases pl ds src dst t)
    as [Hsame|(df & _ & _ & _ & _ & Hmv)].
  - rewrite E in Hsame. cbn [snd] in Hsame. subst t'. by left.
  - rewrite Hmv in E. injection E as _ <-. revert Hf.
    rewrite lookup_insert. case_decide; [by right|].
    rewrite lookup_delete. case_decide; [by intros [? [=]]|by left].
Qed.

Lemma mark_as_processed_names pl ds pf (t : gmap string dataframe) res t' :
  mark_as_processed pl ds pf t = (res, t') ->
  forall f, is_Some (t' !! f) ->
    is_Some (t !! f)
    \/ f = replace "_processing.parquet" "_processed.parquet" pf.
Proof.
  unfold mark_as_processed, bind, ret.
  destruct (os_rename pl ds pf _ t) as [[[]|e] t1] eqn:E; intros [= _ <-];
    by eapply os_rename_names.
Qed.

(** The names there are after the part shared by the two passes, however
    it ends. *)
Lemma process_rows_names pl flag pf w f :
  is_Some (tables (snd (process_rows pl urlopen completed downloader flag pf w))
           !! f) ->
  is_Some (tables w !! f)
  \/ f = replace "_processing.parquet" "_processed.parquet" pf.
Proof.
  destruct w as [t st ds]. cbn [tables].
  unfold process_rows, bind, on_input, on_tables, on_store, read_parquet,
    download, write_parquet, modify, ret. cbn [tables store in_dirs].
  destruct (t !! pf) as [df|] eqn:Hdf; [|by left].
  destruct (find_incomplete_rows df) as [|a inc] eqn:Hinc.
  - cbn [tables store in_dirs].
    destruct (mark_as_processed pl ds pf t) as [[q|e] t1] eqn:Hmv; cbn;
      by eapply mark_as_processed_names.
  - rewrite <- Hinc.
    destruct (Net.download_batch _ _ _ _) as [results|e] eqn:Hres; [|by left].
    cbn [tables store in_dirs].
    destruct (apply_results_marks flag results df 0 st)
      as (df1 & c1 & st1 & -> & _).
    cbn [fst snd tables store in_dirs].
    assert (Hw : is_Some (<[ pf := reset_index_from 0 df1 ]> t !! f) ->
                 is_Some (t !! f)).
    { rewrite lookup_insert. case_decide; [|done]. subst. by rewrite Hdf. }
    destruct (mark_as_processed pl ds pf _) as [[q|e] t1] eqn:Hmv; cbn;
      intros Hf; (eapply mark_as_processed_names in Hf; [|eassumption]);
      (destruct Hf as [Hf|Hf]; [left; by apply Hw|by right]).
Qed.

(** The directories of the input side are what they were. *)
Lemma process_rows_in_dirs pl flag pf w :
  in_dirs (snd (process_rows pl urlopen completed downloader flag pf w))
  = in_dirs w.
Proof.
  destruct w as [t st ds]. cbn [in_dirs].
  unfold process_rows, bind, on_input, on_tables, on_store, read_parquet,
    download, write_parquet, modify, ret. cbn [tables store in_dirs].
  destruct (t !! pf) as [df|] eqn:Hdf; [|done].
  destruct (find_incomplete_rows df) as [|a inc] eqn:Hinc.
  - cbn [tables store in_dirs].
    by destruct (mark_as_processed pl ds pf t) as [[q|e] t1].
  - rewrite <- Hinc.
    destruct (Net.download_batch _ _ _ _) as [results|e]; [|done].
    cbn [tables store in_dirs].
    destruct (apply_results_marks flag results df 0 st)
      as (df1 & c1 & st1 & -> & _).
    cbn [fst snd tables store in_dirs].
    by destruct (mark_as_processed pl ds pf _) as [[q|e] t1].
Qed.

(** On POSIX, with a pool that has workers, the shared part goes through
    when the table is there and its processed name can be taken, and the
    processing name is given up. *)
Lemma process_rows_posix flag pf (t : gmap string dataframe) st ds df :
  let r := replace "_processing.parquet" "_processed.parquet" pf in
  0 < Net.max_workers downloader ->
  t !! pf = Some df ->
  pf <> r -> dir_there ds (dirname r) = true -> ~ r ∈ ds ->
  exists n w',
    process_rows Posix urlopen completed downloader flag pf (mkWorld t st ds)
    = (Ok n, w')
    /\ tables w' !! pf = None.
Proof.
  intros r Hw Hdf Hne Hdir Hfree.
  unfold process_rows, bind, on_input, on_tables, on_store, read_parquet,
    download, write_parquet, modify, ret. cbn [tables store in_dirs].
  rewrite Hdf.
  assert (Hmv : forall (t0 : gmap string dataframe) df0,
    t0 !! pf = Some df0 ->
    exists t1, mark_as_processed Posix ds pf t0 = (Ok r, t1)
               /\ t1 !! pf = None).
  { intros t0 df0 Hdf0. unfold mark_as_processed, bind, ret. fold r.
    rewrite (os_rename_fresh Posix ds pf r t0 df0); [|done|done|done|done|by left].
    eexists. split; [done|].
    by rewrite lookup_insert_ne, lookup_delete_eq by done. }
  destruct (find_incomplete_rows df) as [|a inc] eqn:Hinc.
  - cbn [tables store in_dirs]. destruct (Hmv t df Hdf) as (t1 & -> & Hgone).
    by eexists _, _.
  - rewrite <- Hinc. unfold Net.download_batch.
    rewrite (proj2 (Z.leb_gt _ _) Hw). cbn [tables store in_dirs].
    match goal with
    | |- context [apply_results flag ?results (df, 0) st] =>
        destruct (apply_results_marks flag results df 0 st)
          as (df1 & c1 & st1 & -> & _)
    end.
    cbn [fst snd tables store in_dirs].
    destruct (Hmv (<[ pf := reset_index_from 0 df1 ]> t) (reset_index_from 0 df1))
      as (t1 & -> & Hgone); [by rewrite lookup_insert_eq|].
    by eexists _, _.
Qed.

Lemma process_parquet_file_unfold pl p w :
  process_parquet_file pl urlopen completed downloader p w
  = match mark_as_processing pl (in_dirs w) p (tables w) with
    | (Ok pf, t1) =>
        process_rows pl urlopen completed downloader false pf
          (mkWorld t1 (store w) (in_dirs w))
    | (Raise e, t1) => (Raise e, mkWorld t1 (store w) (in_dirs w))
    end.
Proof.
  change (process_parquet_file pl urlopen completed downloader p)
    with (bind (on_input (fun ds => mark_as_processing pl ds p))
            (process_rows pl urlopen completed downloader false)).
  unfold bind, on_input, on_tables at 1.
  by destruct (mark_as_processing pl (in_dirs w) p (tables w)) as [[pf|e] t1].
Qed.

Lemma process_parquet_file_in_dirs pl p w :
  in_dirs (snd (process_parquet_file pl urlopen completed downloader p w))
  = in_dirs w.
Proof.
  rewrite process_parquet_file_unfold.
  destruct (mark_as_processing pl (in_dirs w) p (tables w)) as [[pf|e] t1];
    [|done].
  by rewrite process_rows_in_dirs.
Qed.

Lemma mark_as_processing_gone pl ds p (t : gmap string dataframe) :
  t !! p = None -> exists e, mark_as_processing pl ds p t = (Raise e, t).
Proof.
  intros Hp. rewrite mark_as_processing_unfold. cbn zeta.
  unfold os_rename. rewrite Hp.
  destruct (negb _); [by eexists|]. destruct (negb _); by eexists.
Qed.

Lemma mark_as_processing_posix ds p (t : gmap string dataframe) df :
  let q := replace ".parquet" "_processing.parquet" p in
  t !! p = Some df -> p <> q ->
  dir_there ds (dirname q) = true -> ~ q ∈ ds ->
  mark_as_processing Posix ds p t = (Ok q, <[ q := df ]> (delete p t)).
Proof.
  intros q Hp Hne Hdir Hfree. rewrite mark_as_processing_unfold. cbn zeta.
  fold q.
  by rewrite (os_rename_fresh Posix ds p q t df) by (done || by left).
Qed.

Lemma pending_marked p :
  pending p ->
  let q := replace ".parquet" "_processing.parquet" p in
  let r := replace "_processing.parquet" "_processed.parquet" q in
  endswith "_processing.parquet" q = true
  /\ endswith "_processed.parquet" r = true
  /\ p <> q /\ q <> r.
Proof.
  intros Hp q r. pose proof (pending_parquet p Hp) as Hext.
  destruct Hp as (_ & Hnq & Hnr).
  assert (Hq : endswith "_processing.parquet" q = true).
  { by apply (suffix_replaced "." "parquet"). }
  assert (Hr : endswith "_processed.parquet" r = true).
  { by apply (suffix_replaced "_" "processing.parquet"). }
  split; [done|]. split; [done|]. split.
  - intros Heq. rewrite <- Heq in Hq. congruence.
  - intros Heq. apply processing_not_processed in Hq.
    rewrite Heq in Hq. congruence.
Qed.


(** From here on the input directory is a proper directory path that
    holds no [.parquet]: the renamed paths stay in it. *)
Hypothesis input_dir_proper : proper_dir input_dir.
Hypothesis input_dir_plain : occurs ".parquet" input_dir = false.

Lemma glob_dir : dirname (join input_dir "*.parquet") = input_dir.
Proof. unfold dirname. by rewrite split_join. Qed.

Lemma list_parquet_files_elem ds (t : gmap string dataframe) f :
  f ∈ list_parquet_files ds t input_dir
  <-> dir_there ds input_dir = true /\ is_Some (t !! f) /\ pending f.
Proof.
  unfold list_parquet_files, glob_parquet. cbn zeta. rewrite glob_dir.
  destruct (dir_there ds input_dir).
  2:{ split; [|by intros [[=] _]]. intros []%list_elem_of_filter.
      by apply elem_of_nil in H0. }
  unfold listdir_tables.
  rewrite list_elem_of_filter, list_elem_of_fmap. split.
  - intros [Hf (n & -> & [Hn (p & Hp & Hpn)%list_elem_of_omap]%list_elem_of_filter)].
    apply elem_of_elements, elem_of_dom in Hp.
    apply andb_true_iff in Hn as [Hdot%negb_true_iff Hext].
    apply negb_true_iff, orb_false_iff in Hf as [Hf1 Hf2].
    pose proof Hpn as [-> _]%child_name_Some.
    split; [done|]. split; [done|]. split; [by exists n|done].
  - intros [_ [Hsome [(n & Hpn & Hdot & Hext) [Hf1 Hf2]]]].
    split; [by rewrite Hf1, Hf2|].
    exists n. split; [by apply child_name_Some in Hpn as [-> _]|].
    apply list_elem_of_filter. split; [by rewrite Hdot, Hext|].
    apply list_elem_of_omap. exists f. split; [|done].
    by apply elem_of_elements, elem_of_dom.
Qed.

(** A name of the input directory keeps its directory when [old] is
    replaced in its path. *)
Lemma replaced_child old new n :
  old <> "" -> contains_char "/" old = false ->
  contains_char "/" new = false ->
  occurs old input_dir = false ->
  contains_char "/" n = false ->
  replace old new (join input_dir n) = join input_dir (replace old new n)
  /\ contains_char "/" (replace old new n) = false
  /\ dirname (replace old new (join input_dir n)) = input_dir.
Proof.
  intros Hne Hold Hnew Hocc Hn. destruct input_dir_proper as [Hd Hend].
  assert (Hn' : contains_char "/" (replace old new n) = false).
  { by apply replace_go_no_char. }
  assert (E : replace old new (join input_dir n)
              = join input_dir (replace old new n)).
  { rewrite !join_plain by done. by apply replace_after_dir. }
  split; [done|]. split; [done|].
  rewrite E. unfold dirname. by rewrite split_join.
Qed.

Lemma targets_in_dir p :
  pending p ->
  let q := replace ".parquet" "_processing.parquet" p in
  let r := replace "_processing.parquet" "_processed.parquet" q in
  dirname q = input_dir /\ dirname r = input_dir.
Proof.
  intros [(n & [-> [_ Hn]]%child_name_Some & _) _] q r.
  destruct (replaced_child ".parquet" "_processing.parquet" n)
    as (Eq & Hn1 & Hq); [done..|].
  split; [done|]. unfold r, q. rewrite Eq.
  by apply replaced_child; [..|apply (occurs_app "_processing")|].
Qed.

Lemma endswith_parquet s :
  endswith "_processing.parquet" s = true
  \/ endswith "_processed.parquet" s = true ->
  endswith ".parquet" s = true.
Proof.
  unfold endswith. intros [H|H]; (eapply endswith_go_trans; [|exact H]); done.
Qed.

Lemma plain_dirs_free ds s :
  plain_dirs ds -> endswith ".parquet" s = true -> ~ s ∈ ds.
Proof. intros Hds Hs Hin. specialize (Hds s Hin). congruence. Qed.

(** The names there are after [process_parquet_file] on POSIX, however it
    ends. *)
Lemma process_parquet_file_names p w f :
  let q := replace ".parquet" "_processing.parquet" p in
  let r := replace "_processing.parquet" "_processed.parquet" q in
  pending p ->
  dir_there (in_dirs w) input_dir = true -> plain_dirs (in_dirs w) ->
  is_Some (tables (snd (process_parquet_file Posix urlopen completed downloader
                          p w)) !! f) ->
  (is_Some (tables w !! f) /\ f <> p) \/ f = q \/ f = r.
Proof.
  intros q r Hp Hdir Hplain. rewrite process_parquet_file_unfold.
  destruct (pending_marked p Hp) as (Hq & Hr & Hpq & Hqr).
  destruct (targets_in_dir p Hp) as [Hdq Hdr].
  destruct (decide (f = q)) as [|Hfq]; [by right; left|].
  destruct (tables w !! p) as [df|] eqn:Hdf.
  - rewrite (mark_as_processing_posix _ _ _ df); [|done|done|by rewrite Hdq|].
    2:{ apply plain_dirs_free; [done|]. apply endswith_parquet. by left. }
    intros [Hf| ->]%process_rows_names; [|by right; right]. left.
    cbn [tables] in Hf. rewrite lookup_insert_ne, lookup_delete in Hf by done.
    case_decide; [by destruct Hf as [? [=]]|]. split; [done|congruence].
  - destruct (mark_as_processing_gone Posix (in_dirs w) p _ Hdf) as [e ->].
    cbn [snd tables]. intros Hf. left. split; [done|].
    intros ->. rewrite Hdf in Hf. by destruct Hf as [? [=]].
Qed.

(** A pass over a listed file takes it off the list and puts nothing on. *)
Lemma pass_shrinks_listing p w f :
  let w' := snd (process_parquet_file Posix urlopen completed downloader p w) in
  pending p -> plain_dirs (in_dirs w) ->
  f ∈ list_parquet_files (in_dirs w') (tables w') input_dir ->
  f ∈ list_parquet_files (in_dirs w) (tables w) input_dir /\ f <> p.
Proof.
  intros w' Hp Hplain. unfold w'. rewrite process_parquet_file_in_dirs.
  intros (Hdir & Hf & Hpend)%list_parquet_files_elem.
  destruct (pending_marked p Hp) as (Hq & Hr & _).
  apply (process_parquet_file_names p w f Hp Hdir Hplain)
    in Hf as [[Hf Hne]|[->| ->]].
  - split; [|done]. by apply list_parquet_files_elem.
  - destruct Hpend as (_ & Hnq & _). congruence.
  - destruct Hpend as (_ & _ & Hnr). congruence.
Qed.

(** With workers in the pool, a pass over a listed file leaves no file in
    the processing form behind. *)
Lemma pass_leaves_none_processing p w :
  0 < Net.max_workers downloader ->
  pending p ->
  dir_there (in_dirs w) input_dir = true -> plain_dirs (in_dirs w) ->
  none_processing (tables w) ->
  none_processing
    (tables (snd (process_parquet_file Posix urlopen completed downloader p w))).
Proof.
  intros Hw Hp Hdir Hplain Hnone.
  destruct (pending_marked p Hp) as (Hq & Hr & Hpq & Hqr).
  destruct (targets_in_dir p Hp) as [Hdq Hdr].
  rewrite process_parquet_file_unfold.
  destruct (tables w !! p) as [df|] eqn:Hdf.
  2:{ by destruct (mark_as_processing_gone Posix (in_dirs w) p _ Hdf) as [e ->]. }
  rewrite (mark_as_processing_posix _ _ _ df); [|done|done|by rewrite Hdq|].
  2:{ apply plain_dirs_free; [done|]. apply endswith_parquet. by left. }
  destruct (process_rows_posix false
              (replace ".parquet" "_processing.parquet" p)
              (<[ replace ".parquet" "_processing.parquet" p := df ]>
                 (delete p (tables w))) (store w) (in_dirs w) df Hw)
    as (n & w' & Hrun & Hgone);
    [by rewrite lookup_insert_eq|done|by rewrite Hdr| |].
  { apply plain_dirs_free; [done|]. apply endswith_parquet. by right. }
  intros p' n' Hp' Hn' Hproc.
  pose proof (f_equal snd Hrun) as Hsnd. cbn [snd] in Hsnd.
  rewrite Hrun in Hp'. cbn [snd] in Hp'.
  pose proof Hp' as Hnames. rewrite <- Hsnd in Hnames.
  apply process_rows_names in Hnames as [Hin| ->].
  - cbn [tables] in Hin. rewrite lookup_insert in Hin.
    case_decide as Heq.
    + subst p'. rewrite Hgone in Hp'. by destruct Hp' as [? [=]].
    + rewrite lookup_delete in Hin. case_decide; [by destruct Hin as [? [=]]|].
      by eapply Hnone.
  - pose proof (child_name_endswith _ _ _ _ Hn' Hproc) as Hend.
    apply processing_not_processed in Hend. congruence.
Qed.

Lemma run_files_posix parquet_files total_success w :
  dir_there (in_dirs w) input_dir = true -> plain_dirs (in_dirs w) ->
  Forall pending parquet_files ->
  (forall f, f ∈ list_parquet_files (in_dirs w) (tables w) input_dir ->
             f ∈ parquet_files) ->
  exists n w',
    run_files Posix urlopen completed downloader parquet_files total_success w
    = (Ok n, w')
    /\ in_dirs w' = in_dirs w
    /\ list_parquet_files (in_dirs w') (tables w') input_dir = []
    /\ (0 < Net.max_workers downloader ->
        none_processing (tables w) -> none_processing (tables w')).
Proof.
  revert total_success w.
  induction parquet_files as [|p rest IH]; intros tot w Hdir Hplain Hall Hsub.
  - exists tot, w. split; [done|]. split; [done|]. split; [|done].
    destruct (list_parquet_files (in_dirs w) (tables w) input_dir) as [|f l];
      [done|].
    specialize (Hsub f ltac:(left)). by apply elem_of_nil in Hsub.
  - apply Forall_cons in Hall as [Hp Hall]. cbn [run_files].
    unfold bind, try_except, ret.
    pose proof (pass_shrinks_listing p w) as Hshrink.
    pose proof (pass_leaves_none_processing p w) as Hclear.
    pose proof (process_parquet_file_in_dirs Posix p w) as Hds.
    cbn zeta in Hshrink.
    destruct (process_parquet_file Posix urlopen completed downloader p w)
      as [[c|e] w1]; cbn [snd] in Hshrink, Hclear, Hds.
    + destruct (IH (tot + c) w1) as (n & w' & Hrun & Hsame & Hnil & Hnone);
        [by rewrite Hds|by rewrite Hds|done| |].
      { intros f Hf. destruct (Hshrink f Hp Hplain Hf) as [Hin Hne].
        apply Hsub, elem_of_cons in Hin as [?|?]; done. }
      exists n, w'. split; [done|]. split; [congruence|]. split; [done|].
      intros Hw H0. by apply Hnone, Hclear.
    + destruct (IH tot w1) as (n & w' & Hrun & Hsame & Hnil & Hnone);
        [by rewrite Hds|by rewrite Hds|done| |].
      { intros f Hf. destruct (Hshrink f Hp Hplain Hf) as [Hin Hne].
        apply Hsub, elem_of_cons in Hin as [?|?]; done. }
      exists n, w'. split; [done|]. split; [congruence|]. split; [done|].
      intros Hw H0. by apply Hnone, Hclear.
Qed.

Lemma run_posix w :
  plain_dirs (in_dirs w) ->
  exists n w',
    App.run Posix urlopen completed downloader input_dir w = (Ok n, w')
    /\ in_dirs w' = in_dirs w
    /\ list_parquet_files (in_dirs w') (tables w') input_dir = []
    /\ (0 < Net.max_workers downloader ->
        none_processing (tables w) -> none_processing (tables w')).
Proof.
  intros Hplain. unfold App.run, bind, gets.
  destruct (list_parquet_files (in_dirs w) (tables w) input_dir)
    as [|p l] eqn:Hlist.
  - exists 0, w. done.
  - rewrite <- Hlist. apply run_files_posix; [|done| |done].
    + assert (Hp : p ∈ list_parquet_files (in_dirs w) (tables w) input_dir)
        by (rewrite Hlist; left).
      by apply list_parquet_files_elem in Hp as [Hdir _].
    + apply Forall_forall. intros f Hf.
      apply list_parquet_files_elem in Hf as (_ & _ & Hf). exact Hf.
Qed.

(** X9. On POSIX, for an input directory given by a proper path that
    holds no [.parquet] and no pattern character, and with no directory
    named like a table, [run] never raises, and when it returns no file of
    the input directory is left for [list_parquet_files]: every file it
    listed was renamed before anything could fail, whatever the network,
    the pool and the storage did. *)
Theorem run_leaves_nothing_pending w :
  has_magic input_dir = false ->
  plain_dirs (in_dirs w) ->
  exists n w',
    App.run Posix urlopen completed downloader input_dir w = (Ok n, w')
    /\ list_parquet_files (in_dirs w') (tables w') input_dir = [].
Proof.
  intros _ Hplain.
  destruct (run_posix w Hplain) as (n & w' & Hrun & _ & Hnil & _).
  by exists n, w'.
Qed.



End Drain.

Lemma run_leaves_nothing_pending_witness :
  let w := App.mkWorld Fixture.pending_and_stale (Fixture.fresh_store 1)
             Fixture.in_only in
  exists n w',
    App.run Posix Fixture.flaky_net Fixture.in_order Fixture.a_downloader
      "in" w = (Ok n, w')
    /\ Parquet.list_parquet_files (App.in_dirs w') (App.tables w') "in" = [].
Proof.
  apply (run_leaves_nothing_pending Fixture.flaky_net Fixture.in_order
           Fixture.a_downloader "in").
  - split; [done|reflexivity].
  - reflexivity.
  - reflexivity.
  - intros d Hd. change (d ∈ ({[ "in" ]} : gset string)) in Hd.
    apply elem_of_singleton in Hd. subst d. reflexivity.
Defined.


(** ** storage.py: when [save_image] fails, and when it overwrites *)

Section SaveImageEdges.
Import PyStr Os Store Spec.

(** X11. [save_image] does not make the current batch directory again:
    when that directory is not there (any more), the listing in
    [_check_batch_size] raises, [FileNotFoundError] or, with a regular
    file in its place, [NotADirectoryError], and neither the object nor
    the tree is changed. *)
Theorem save_image_without_batch_dir key img ext st fs :
  _get_batch_dir st ∉ dirs fs ->
  save_image key img ext (st, fs)
  = (Raise (if isfile fs (_get_batch_dir st)
            then NotADirectoryError (_get_batch_dir st)
            else FileNotFoundError (_get_batch_dir st)),
     (st, fs)).
Proof.
  intros Hdir. rewrite save_image_unfold. unfold listdir.
  destruct (isdir fs (_get_batch_dir st)) eqn:E;
    [by apply isdir_true in E|].
  by destruct (isfile fs (_get_batch_dir st)).
Qed.

(** X12. When the batch is full and the path of the next batch directory
    is taken by a regular file, [save_image] raises [FileExistsError]
    after it has moved on to the next batch number; the image is not
    written, and from then on every call of [save_image] raises
    [NotADirectoryError] and changes nothing: the object does not get out
    of that state by itself. *)
Theorem failed_rotation_sticks key img ext st fs :
  let d := _get_batch_dir st in
  let st1 := set_current_batch st (current_batch st + 1) in
  let d1 := _get_batch_dir st1 in
  d ∈ dirs fs ->
  threshold (batch_size_gb st) <= sizeOf fs d ->
  is_Some (files fs !! d1) ->
  d1 ∉ dirs fs ->
  save_image key img ext (st, fs) = (Raise (FileExistsError d1), (st1, fs))
  /\ forall key' img' ext',
       save_image key' img' ext' (st1, fs)
       = (Raise (NotADirectoryError d1), (st1, fs)).
Proof.
  intros d st1 d1 Hd Hfull Hfile Hnodir.
  assert (Hisfile : isfile fs d1 = true) by by apply isfile_true.
  split.
  - rewrite save_image_unfold. fold d. unfold listdir.
    rewrite (proj2 (isdir_true _ _) Hd). fold (sizeOf fs d).
    cbn zeta. unfold threshold in Hfull.
    rewrite (proj2 (Z.leb_le _ _) Hfull). fold st1. fold d1.
    unfold makedirs. by rewrite Hisfile.
  - intros key' img' ext'. rewrite save_image_unfold. fold d1. unfold listdir.
    destruct (isdir fs d1) eqn:E; [by apply isdir_true in E|].
    by rewrite Hisfile.
Qed.

(** X13. The file name is made from the key with the separators replaced,
    so different keys can name the same file.  When two keys have the same
    [safe_key] and the second image is saved with the same extension into
    the same batch, it is written to the path of the first: the first
    image is replaced, and no file is added. *)
Theorem save_image_same_name k1 k2 img1 img2 ext s p1 s1 p2 s2 :
  safe_key k1 = safe_key k2 ->
  save_image k1 img1 ext s = (Ok p1, s1) ->
  save_image k2 img2 ext s1 = (Ok p2, s2) ->
  current_batch (fst s2) = current_batch (fst s1) ->
  p2 = p1
  /\ files (snd s1) !! p1 = Some img1
  /\ files (snd s2) = <[ p1 := img2 ]> (files (snd s1))
  /\ dom (files (snd s2)) = dom (files (snd s1))
  /\ dirs (snd s2) = dirs (snd s1).
Proof.
  destruct s as [st fs], s1 as [st1 fs1], s2 as [st2 fs2]. cbn [fst snd].
  intros Hkey (fsa & -> & Hwa & _)%save_image_Ok
    (fsb & -> & Hwb & Hcase)%save_image_Ok Hcur.
  destruct Hcase as [(_ & -> & _)|(_ & -> & ->)]; [cbn in Hcur; lia|].
  rewrite <- Hkey in *.
  destruct (write_file_Ok _ _ _ _ Hwa) as (_ & Hfa & _).
  destruct (write_file_Ok _ _ _ _ Hwb) as (Hdb & Hfb & _).
  split; [done|]. split; [by rewrite Hfa, lookup_insert_eq|].
  split; [done|]. split; [|done].
  rewrite Hfb, dom_insert_L, Hfa, dom_insert_L.
  apply set_eq. intros x. rewrite !elem_of_union. tauto.
Qed.

End SaveImageEdges.

Lemma save_image_without_batch_dir_witness :
  Store.save_image (IntLabel 7) 10%N ".jpg"
    (Store.mkStorage "out" 1 1 0, Fixture.empty_out)
  = (Raise (FileNotFoundError "out/000001"),
     (Store.mkStorage "out" 1 1 0, Fixture.empty_out)).
Proof.
  apply (save_image_without_batch_dir (IntLabel 7) 10%N ".jpg"
           (Store.mkStorage "out" 1 1 0) Fixture.empty_out).
  vm_compute. intros H. by apply (bool_decide_pack _) in H.
Defined.

Lemma failed_rotation_sticks_witness :
  Store.save_image (IntLabel 7) 10%N ".jpg" Fixture.blocked
  = (Raise (FileExistsError "out/000002"),
     (Store.mkStorage "out" 1 2 0, snd Fixture.blocked))
  /\ Store.save_image (IntLabel 8) 10%N ".png"
       (Store.mkStorage "out" 1 2 0, snd Fixture.blocked)
     = (Raise (NotADirectoryError "out/000002"),
        (Store.mkStorage "out" 1 2 0, snd Fixture.blocked)).
Proof.
  destruct (failed_rotation_sticks (IntLabel 7) 10%N ".jpg"
              (fst Fixture.blocked) (snd Fixture.blocked)) as [H1 H2].
  - apply (bool_decide_unpack _). vm_compute. exact I.
  - vm_compute. intros H. discriminate H.
  - vm_compute. eexists. reflexivity.
  - vm_compute. intros H. by apply (bool_decide_pack _) in H.
  - split; [exact H1|exact (H2 (IntLabel 8) 10%N ".png")].
Defined.

Lemma save_image_same_name_witness :
  let s := Fixture.fresh_store 1 in
  let s1 := snd (Store.save_image (StrLabel "a/b") 10%N ".jpg" s) in
  let s2 := snd (Store.save_image (StrLabel "a_b") 20%N ".jpg" s1) in
  "out/000001/a_b.jpg" = "out/000001/a_b.jpg"
  /\ files (snd s1) !! "out/000001/a_b.jpg" = Some 10%N
  /\ files (snd s2) = <[ "out/000001/a_b.jpg" := 20%N ]> (files (snd s1))
  /\ dom (files (snd s2)) = dom (files (snd s1))
  /\ dirs (snd s2) = dirs (snd s1).
Proof.
  cbv zeta.
  apply (save_image_same_name (StrLabel "a/b") (StrLabel "a_b") 10%N 20%N
           ".jpg" (Fixture.fresh_store 1)).
  - vm_compute. reflexivity.
  - vm_compute. reflexivity.
  - vm_compute. reflexivity.
  - vm_compute. reflexivity.
Defined.

(** ** app.py: the rows over a whole run *)

Section WholeRun.
Import PyStr Parquet App Spec.

Variable pl : platform.
Variable urlopen : Z -> label -> string -> nat -> Net.response.
Variable completed : list (label * row) -> list (label * row).
Variable downloader : Net.Downloader.
Variable input_dir : string.

(** The pool hands back tasks that were submitted. *)
Hypothesis completed_submitted : forall l, completed l ⊆ l.

(** Every table has unique row keys. *)
Local Abbreviation all_unique :=
  (fun t : gmap string dataframe =>
     forall q df, t !! q = Some df -> unique_labels df).

Lemma row_step_trans r1 r2 r3 : row_step r1 r2 -> row_step r2 r3 -> row_step r1 r3.
Proof.
  intros [Hu1 H1] [Hu2 H2]. split; [congruence|].
  destruct H1 as [->|[Hnone Hterm]]; [done|].
  destruct H2 as [->|[Hnone2 _]]; [by right|].
  rewrite Hnone2 in Hterm. by destruct Hterm.
Qed.

Lemma table_step_trans df1 df2 df3 :
  table_step df1 df2 -> table_step df2 df3 -> table_step df1 df3.
Proof.
  unfold table_step. intros H12. revert df3.
  induction H12 as [|a b df1 df2 Hab _ IH]; intros df3 H23.
  - inversion H23. constructor.
  - inversion H23 as [|b' c df2' df3' Hbc Hrest]; subst.
    constructor; [by eapply row_step_trans|by apply IH].
Qed.

Lemma tables_step_trans (t0 t1 t2 : gmap string dataframe) :
  tables_step t0 t1 -> tables_step t1 t2 -> tables_step t0 t2.
Proof.
  intros H01 H12 q df2 (q1 & df1 & Hq1 & Hs12)%H12.
  apply H01 in Hq1 as (q0 & df0 & Hq0 & Hs01).
  exists q0, df0. split; [done|]. by eapply table_step_trans.
Qed.

Lemma reset_index_from_labels i df k :
  k ∈ map fst (reset_index_from i df) -> exists j, i <= j /\ k = IntLabel j.
Proof.
  revert i. induction df as [|[k0 r] df IH]; intros i; cbn.
  - by intros ?%elem_of_nil.
  - intros [->|Hin]%elem_of_cons; [exists i; split; [lia|done]|].
    apply IH in Hin as (j & Hj & ->). exists j. split; [lia|done].
Qed.

Lemma reset_index_from_unique i df : unique_labels (reset_index_from i df).
Proof.
  unfold unique_labels. revert i.
  induction df as [|[k0 r] df IH]; intros i; cbn; [constructor|].
  apply NoDup_cons_2; [|apply IH].
  intros (j & Hj & [= ->])%reset_index_from_labels. lia.
Qed.

Lemma process_rows_unique flag pf w :
  all_unique (tables w) ->
  all_unique
    (tables (snd (process_rows pl urlopen completed downloader flag pf w))).
Proof.
  intros Huniq. destruct w as [t st ds]. cbn [tables] in *.
  unfold process_rows, bind, on_input, on_tables, on_store, read_parquet, download,
    write_parquet, modify, ret. cbn [tables store in_dirs].
  destruct (t !! pf) as [df|] eqn:Hdf; [|done].
  destruct (find_incomplete_rows df) as [|a inc] eqn:Hinc.
  - cbn [tables store in_dirs].
    destruct (mark_as_processed pl ds pf t) as [[q|e] t1] eqn:Hmv; cbn;
      intros q' df' Hq'; (eapply mark_as_processed_moved in Hq'; [|eassumption]);
      destruct Hq' as [q1 Hq1]; by eapply Huniq.
  - rewrite <- Hinc.
    destruct (Net.download_batch _ _ _ _) as [results|e] eqn:Hres; [|done].
    cbn [tables store in_dirs].
    destruct (apply_results_marks flag results df 0 st)
      as (df1 & c1 & st1 & -> & _).
    cbn [fst snd tables store in_dirs].
    assert (Hw : all_unique (<[ pf := reset_index_from 0 df1 ]> t)).
    { intros q' df'. rewrite lookup_insert. case_decide.
      - intros [= <-]. apply reset_index_from_unique.
      - apply Huniq. }
    destruct (mark_as_processed pl ds pf _) as [[q|e] t1] eqn:Hmv; cbn;
      intros q' df' Hq'; (eapply mark_as_processed_moved in Hq'; [|eassumption]);
      destruct Hq' as [q1 Hq1]; by eapply Hw.
Qed.

(** One pass over a file, however it ends. *)
Lemma process_parquet_file_pass p w :
  all_unique (tables w) ->
  let w' := snd (process_parquet_file pl urlopen completed downloader p w) in
  tables_step (tables w) (tables w') /\ all_unique (tables w').
Proof.
  intros Huniq. cbn zeta. rewrite process_parquet_file_unfold.
  destruct (mark_as_processing pl (in_dirs w) p (tables w)) as [res t1] eqn:Hmark.
  assert (Hmoved : forall q df, t1 !! q = Some df ->
                                exists q1, tables w !! q1 = Some df).
  { unfold mark_as_processing, bind, ret in Hmark.
    destruct (os_rename pl (in_dirs w) p _ (tables w)) as [[[]|e'] t2] eqn:E;
      injection Hmark as _ <-; eapply os_rename_moved; eassumption. }
  assert (Huniq1 : all_unique t1).
  { intros q df (q1 & Hq1)%Hmoved. by eapply Huniq. }
  destruct res as [pf|e].
  - split.
    + eapply tables_step_from_moved; [exact Hmoved|].
      apply (process_rows_step pl urlopen completed downloader
               completed_submitted false pf (mkWorld t1 (store w) (in_dirs w))).
      cbn [tables]. apply Huniq1.
    + by apply (process_rows_unique false pf (mkWorld t1 (store w) (in_dirs w))).
  - cbn [snd tables]. split; [|done].
    eapply tables_step_moved; [apply tables_step_refl|done].
Qed.

Lemma run_files_pass parquet_files total_success w :
  all_unique (tables w) ->
  let w' := snd (run_files pl urlopen completed downloader parquet_files
                   total_success w) in
  tables_step (tables w) (tables w') /\ all_unique (tables w').
Proof.
  cbn zeta. revert total_success w.
  induction parquet_files as [|p rest IH]; intros tot w Huniq.
  - split; [apply tables_step_refl|done].
  - cbn [run_files]. unfold bind, try_except, ret.
    destruct (process_parquet_file_pass p w Huniq) as [Hstep Huniq1].
    cbn zeta in Hstep, Huniq1.
    destruct (process_parquet_file pl urlopen completed downloader p w)
      as [[c|e] w1]; cbn [snd] in Hstep, Huniq1.
    + destruct (IH (tot + c) w1 Huniq1) as [Hstep2 Huniq2].
      split; [by eapply tables_step_trans|done].
    + destruct (IH tot w1 Huniq1) as [Hstep2 Huniq2].
      split; [by eapply tables_step_trans|done].
Qed.

Lemma run_pass w :
  all_unique (tables w) ->
  let w' := snd (App.run pl urlopen completed downloader input_dir w) in
  tables_step (tables w) (tables w') /\ all_unique (tables w').
Proof.
  intros Huniq. cbn zeta. unfold App.run, bind, gets.
  destruct (list_parquet_files (in_dirs w) (tables w) input_dir) as [|p l].
  - split; [apply tables_step_refl|done].
  - by apply run_files_pass.
Qed.

Lemma resume_files_pass processing_files total_success w :
  all_unique (tables w) ->
  let w' := snd (resume_files pl urlopen completed downloader input_dir
                   processing_files total_success w) in
  tables_step (tables w) (tables w') /\ all_unique (tables w').
Proof.
  cbn zeta. revert total_success w.
  induction processing_files as [|f rest IH]; intros tot w Huniq.
  - split; [apply tables_step_refl|done].
  - cbn [resume_files]. unfold bind, try_except, ret.
    change (resume_file pl urlopen completed downloader input_dir f)
      with (process_rows pl urlopen completed downloader true
              (join input_dir f)).
    pose proof (process_rows_step pl urlopen completed downloader
                  completed_submitted true (join input_dir f) w
                  (Huniq (join input_dir f))) as Hstep.
    pose proof (process_rows_unique true (join input_dir f) w Huniq) as Huniq1.
    destruct (process_rows pl urlopen completed downloader true
                (join input_dir f) w) as [[c|e] w1]; cbn [snd] in Hstep, Huniq1.
    + destruct (IH (tot + c) w1 Huniq1) as [Hstep2 Huniq2].
      split; [by eapply tables_step_trans|done].
    + destruct (IH tot w1 Huniq1) as [Hstep2 Huniq2].
      split; [by eapply tables_step_trans|done].
Qed.

(** X14. Over a whole call of [run] or of [resume], whatever fails on the
    way: when the row keys are unique within every table of the input
    directory, every table there is afterwards comes from a table that was
    there before, row for row in the same order, a row that had a status
    being unchanged and a row that had none being unchanged or now marked
    success or failed; and the keys are still unique within every table,
    the tables written back being numbered anew. *)
Theorem whole_run_rows_only_move_forward w :
  (forall q df, tables w !! q = Some df -> unique_labels df) ->
  (let w' := snd (App.run pl urlopen completed downloader input_dir w) in
   tables_step (tables w) (tables w')
   /\ forall q df, tables w' !! q = Some df -> unique_labels df)
  /\ (let w' := snd (resume pl urlopen completed downloader input_dir w) in
      tables_step (tables w) (tables w')
      /\ forall q df, tables w' !! q = Some df -> unique_labels df).
Proof.
  intros Huniq. split; [by apply run_pass|].
  cbn zeta. destruct w as [t st ds]. cbn [tables] in *.
  unfold resume, bind, on_input, on_tables, os_listdir, ret.
  cbn [tables store in_dirs].
  destruct (bool_decide (input_dir ∈ ds)).
  2:{ cbn [snd tables]. split; [apply tables_step_refl|done]. }
  destruct (filter _ (listdir_tables t input_dir)) as [|f l] eqn:Hlist.
  - by apply (run_pass (mkWorld t st ds)).
  - rewrite <- Hlist.
    destruct (resume_files_pass
                (filter (fun f => endswith "_processing.parquet" f = true)
                        (listdir_tables t input_dir)) 0 (mkWorld t st ds) Huniq)
      as [Hstep1 Huniq1]. cbn zeta in Hstep1, Huniq1.
    destruct (resume_files _ _ _ _ _ _ _ (mkWorld t st ds)) as [[n1|e] w1];
      cbn [snd tables] in Hstep1, Huniq1; [|done].
    destruct (run_pass w1 Huniq1) as [Hstep2 Huniq2].
    cbn zeta in Hstep2, Huniq2.
    destruct (App.run pl urlopen completed downloader input_dir w1)
      as [[n2|e] w2]; cbn [snd] in *;
      (split; [by eapply tables_step_trans|done]).
Qed.

End WholeRun.

Lemma whole_run_rows_only_move_forward_witness :
  let w := Fixture.mixed_world "in/a.parquet" in
  (let w' := snd (App.run Posix Fixture.reliable_net Fixture.in_order
                    Fixture.a_downloader "in" w) in
   Spec.tables_step (App.tables w) (App.tables w')
   /\ forall q df, App.tables w' !! q = Some df -> Spec.unique_labels df)
  /\ (let w' := snd (App.resume Posix Fixture.reliable_net Fixture.in_order
                       Fixture.a_downloader "in" w) in
      Spec.tables_step (App.tables w) (App.tables w')
      /\ forall q df, App.tables w' !! q = Some df -> Spec.unique_labels df).
Proof.
  apply (whole_run_rows_only_move_forward Posix Fixture.reliable_net
           Fixture.in_order Fixture.a_downloader "in").
  - intros l x Hx. exact Hx.
  - intros q df Hq. unfold Fixture.mixed_world in Hq. cbn [App.tables] in Hq.
    apply lookup_singleton_Some in Hq as [_ <-].
    apply (bool_decide_unpack (NoDup _)). vm_compute. exact I.
Defined.

(** ** storage.py: what the batch number depends on *)

Section NumberingInputs.
Import PyStr Os Store Spec.

(** X15. The number [_get_next_batch_number] answers depends on the
    directories only: on two trees with the same directories, the output
    directory among them, it is the same whatever regular files there
    are, in the output directory (the log file, say) or in the batch
    directories (the images). *)
Theorem next_batch_number_ignores_files out fs fs' :
  out ∈ dirs fs ->
  dirs fs' = dirs fs ->
  _get_next_batch_number out fs' = _get_next_batch_number out fs.
Proof.
  intros Hout Hdirs.
  assert (Hls : exists names, listdir fs out = Ok names).
  { unfold listdir. rewrite (proj2 (isdir_true _ _) Hout). by eexists. }
  assert (Hls' : exists names, listdir fs' out = Ok names).
  { unfold listdir. rewrite <- Hdirs in Hout.
    rewrite (proj2 (isdir_true _ _) Hout). by eexists. }
  destruct Hls as [names Hls], Hls' as [names' Hls'].
  assert (Hsame : forall d, d ∈ numeric_subdirs fs' out names' <->
                            d ∈ numeric_subdirs fs out names).
  { intros d. rewrite !numeric_subdirs_elem by done. by rewrite Hdirs. }
  destruct (next_batch_number_cases _ _ _ Hls)
    as [(Hall & n & -> & Hn)|[Hex ->]],
      (next_batch_number_cases _ _ _ Hls')
    as [(Hall' & n' & -> & Hn')|[Hex' ->]].
  2:{ apply Exists_exists in Hex' as (d & Hd & Hdec).
      apply Hsame in Hd.
      rewrite Forall_forall in Hall. rewrite (Hall d Hd) in Hdec. done. }
  2:{ apply Exists_exists in Hex as (d & Hd & Hdec).
      apply Hsame in Hd.
      rewrite Forall_forall in Hall'. rewrite (Hall' d Hd) in Hdec. done. }
  2:{ done. }
  f_equal.
  destruct Hn as [[Hnil ->]|(d & Hd & -> & Hmax)],
           Hn' as [[Hnil' ->]|(d' & Hd' & -> & Hmax')].
  - done.
  - apply Hsame in Hd'. rewrite Hnil in Hd'. by apply elem_of_nil in Hd'.
  - apply Hsame in Hd. rewrite Hnil' in Hd. by apply elem_of_nil in Hd.
  - pose proof (Hmax d' (proj1 (Hsame d') Hd')).
    pose proof (Hmax' d (proj2 (Hsame d) Hd)). lia.
Qed.

End NumberingInputs.

Lemma next_batch_number_ignores_files_witness :
  Store._get_next_batch_number "out"
    (mkFs (dirs (snd Fixture.blocked)) {[ "out/download.log" := 120%N ]})
  = Store._get_next_batch_number "out" (snd Fixture.blocked).
Proof.
  apply (next_batch_number_ignores_files "out" (snd Fixture.blocked)).
  - apply (bool_decide_unpack _). vm_compute. exact I.
  - reflexivity.
Defined.

(** ** app.py: the count a pass hands back *)

Section Count.
Import PyStr Parquet App Spec.

Variable pl : platform.
Variable urlopen : Z -> label -> string -> nat -> Net.response.
Variable completed : list (label * row) -> list (label * row).
Variable downloader : Net.Downloader.

(** The pool hands back tasks that were submitted. *)
Hypothesis completed_submitted : forall l, completed l ⊆ l.

Lemma successes_cons a df :
  successes (a :: df) = (if is_success (snd a) then 1 else 0) + successes df.
Proof.
  unfold successes. cbn [List.filter].
  destruct (is_success (snd a)); cbn [length]; lia.
Qed.

Lemma loc_set_labels f idx df : map fst (loc_set f idx df) = map fst df.
Proof.
  unfold loc_set. rewrite map_map. apply map_ext. intros [k r]. cbn.
  by destruct (decide (k = idx)).
Qed.

Lemma loc_set_other f idx df k r :
  k <> idx -> (k, r) ∈ loc_set f idx df <-> (k, r) ∈ df.
Proof.
  intros Hne. unfold loc_set. rewrite list_elem_of_fmap. split.
  - intros ([k0 r0] & Heq & Hin). cbn in Heq.
    destruct (decide (k0 = idx)); injection Heq as -> ->; [done|exact Hin].
  - intros Hin. exists (k, r). split; [|done]. cbn. by rewrite decide_False.
Qed.

Lemma loc_set_absent f idx df :
  ~ idx ∈ map fst df -> loc_set f idx df = df.
Proof.
  unfold loc_set. induction df as [|[k r] df IH]; [done|]. cbn [map fst].
  rewrite not_elem_of_cons. intros [Hne Hnotin]. cbn.
  rewrite decide_False by done. by rewrite IH.
Qed.

(** With unique keys, writing under the key of a row without status
    changes the number of rows marked success by that row alone. *)
Lemma successes_loc_set f idx (df : dataframe) r :
  NoDup (map fst df) -> (idx, r) ∈ df -> status r = None ->
  successes (loc_set f idx df)
  = successes df + (if is_success (f r) then 1 else 0).
Proof.
  intros Hnd Hin Hnone. induction df as [|[k r0] df IH].
  { by apply elem_of_nil in Hin. }
  cbn [map fst] in Hnd. apply NoDup_cons in Hnd as [Hk Hnd].
  change (loc_set f idx ((k, r0) :: df))
    with ((if decide (k = idx) then (k, f r0) else (k, r0)) :: loc_set f idx df).
  apply elem_of_cons in Hin as [[= <- <-]|Hin].
  - rewrite decide_True by done. rewrite !successes_cons. cbn [snd].
    rewrite loc_set_absent by done.
    unfold is_success at 2. rewrite Hnone. lia.
  - assert (k <> idx).
    { intros ->. apply Hk. by apply (list_elem_of_fmap_2 fst) in Hin. }
    rewrite decide_False by done. rewrite !successes_cons, IH by done. lia.
Qed.

Lemma apply_result_count flag (df : dataframe) c item s :
  NoDup (map fst df) ->
  (exists r, (fst item, r) ∈ df /\ status r = None) ->
  exists df' c' s',
    apply_result flag (df, c) item s = (Ok (df', c'), s')
    /\ map fst df' = map fst df
    /\ successes df' - successes df = c' - c
    /\ forall k r, k <> fst item -> (k, r) ∈ df' <-> (k, r) ∈ df.
Proof.
  intros Hnd (r & Hin & Hnone).
  destruct item as [idx [[body|] err]]; cbn [fst] in *; cbn.
  - assert (Hfail : forall e s1, exists df' c' s',
        ret (S := Store.state)
            (loc_set (set_error (Some (str_of_exn e))) idx
               (loc_set (set_status (Some "failed")) idx df), c) s1
        = (Ok (df', c'), s')
        /\ map fst df' = map fst df
        /\ successes df' - successes df = c' - c
        /\ forall k r, k <> idx -> (k, r) ∈ df' <-> (k, r) ∈ df).
    { intros e s1. eexists _, _, _. split; [reflexivity|].
      rewrite loc_set_compose. split; [apply loc_set_labels|]. split.
      - rewrite (successes_loc_set _ idx df r) by done. cbn. lia.
      - intros k r' Hne. by apply loc_set_other. }
    unfold try_except, bind. destruct (loc_url df idx) as [u|e]; [|apply Hfail].
    destruct (Store.save_image idx body _ s) as [[path|e] s1]; [|apply Hfail].
    eexists _, _, _. split; [reflexivity|].
    destruct flag; rewrite !loc_set_compose;
      (split; [apply loc_set_labels|]);
      (split; [rewrite (successes_loc_set _ idx df r) by done; cbn; lia|]);
      intros k r' Hne; by apply loc_set_other.
  - eexists _, _, _. split; [reflexivity|].
    rewrite loc_set_compose. split; [apply loc_set_labels|]. split.
    + rewrite (successes_loc_set _ idx df r) by done. cbn. lia.
    + intros k r' Hne. by apply loc_set_other.
Qed.

Lemma apply_results_count flag results (df : dataframe) c s :
  NoDup (map fst df) ->
  NoDup (map fst results) ->
  (forall k, k ∈ map fst results -> exists r, (k, r) ∈ df /\ status r = None) ->
  exists df' c' s',
    apply_results flag results (df, c) s = (Ok (df', c'), s')
    /\ successes df' - successes df = c' - c.
Proof.
  revert df c s.
  induction results as [|item results IH]; intros df c s Hnd Hkeys Hunset.
  - exists df, c, s. split; [done|lia].
  - cbn [map] in Hkeys. apply NoDup_cons in Hkeys as [Hfresh Hkeys].
    cbn [apply_results]. unfold bind.
    destruct (apply_result_count flag df c item s Hnd)
      as (df1 & c1 & s1 & -> & Hlab & Hcount & Hother).
    { apply Hunset. left. }
    destruct (IH df1 c1 s1) as (df2 & c2 & s2 & -> & Hcount2).
    + by rewrite Hlab.
    + done.
    + intros k Hk. destruct (Hunset k) as (r & Hr & Hnone); [by right|].
      exists r. split; [|done]. apply Hother; [|done].
      intros ->. by apply Hfresh.
    + exists df2, c2, s2. split; [done|lia].
Qed.

Lemma successes_reset_index_from i df :
  successes (reset_index_from i df) = successes df.
Proof.
  revert i. induction df as [|[k r] df IH]; intros i; [done|].
  cbn [reset_index_from]. by rewrite !successes_cons, IH.
Qed.

Lemma process_rows_count flag pf w n w' (df : dataframe) :
  process_rows pl urlopen completed downloader flag pf w = (Ok n, w') ->
  tables w !! pf = Some df ->
  unique_labels df ->
  exists df',
    tables w' !! replace "_processing.parquet" "_processed.parquet" pf
    = Some df'
    /\ successes df' = successes df + n.
Proof.
  destruct w as [t st ds]. cbn [tables]. intros Hrun Hdf Huniq. revert Hrun.
  unfold process_rows, bind, on_input, on_tables, on_store, read_parquet, download,
    write_parquet, modify, ret. cbn [tables store in_dirs]. rewrite Hdf.
  destruct (find_incomplete_rows df) as [|a inc] eqn:Hinc.
  - cbn [tables store in_dirs].
    destruct (mark_as_processed pl ds pf t) as [[q|e] t1] eqn:Hmv; [|done].
    intros [= <- <-]. cbn [tables].
    apply mark_as_processed_target in Hmv as [-> Hq].
    exists df. split; [by rewrite Hq|lia].
  - rewrite <- Hinc.
    destruct (Net.download_batch _ _ _ _) as [results|e] eqn:Hres; [|done].
    cbn [tables store in_dirs].
    unfold Net.download_batch in Hres.
    destruct (_ <=? _); [done|]. injection Hres as Hres.
    destruct (stored_results urlopen downloader completed
                (completed (find_incomplete_rows df)) [])
      as (Hnodup & Hkeys & _); [constructor|].
    rewrite Hres in Hnodup, Hkeys.
    destruct (apply_results_count flag results df 0 st Huniq Hnodup)
      as (df1 & c1 & st1 & -> & Hcount).
    { intros k [[]%elem_of_nil|Hk]%Hkeys.
      apply list_elem_of_fmap in Hk as ([k' r] & -> & Hin). cbn.
      apply completed_submitted, list_elem_of_filter in Hin as [Hna Hin].
      exists r. split; [done|]. cbn in Hna. unfold isna in Hna.
      by destruct (status r). }
    cbn [fst snd tables store in_dirs].
    destruct (mark_as_processed pl ds pf _) as [[q|e] t1] eqn:Hmv; [|done].
    intros [= <- <-]. cbn [tables].
    apply mark_as_processed_target in Hmv as [-> Hq].
    rewrite lookup_insert_eq in Hq.
    exists (reset_index_from 0 df1). split; [done|].
    rewrite successes_reset_index_from. lia.
Qed.

(** X16. The count a pass hands back is the number of rows it marked
    success: when the row keys of the table are unique and
    [process_parquet_file] returns [n] (or a turn of the loop of [resume]
    adds [n] to the total), the table under the processed name has [n]
    more rows with the status success than the table that was read. *)
Theorem returned_count_is_rows_marked_success :
  (forall parquet_file w n w' df,
      process_parquet_file pl urlopen completed downloader parquet_file w
      = (Ok n, w') ->
      tables w !! parquet_file = Some df ->
      unique_labels df ->
      exists df',
        tables w' !! replace "_processing.parquet" "_processed.parquet"
                       (replace ".parquet" "_processing.parquet" parquet_file)
        = Some df'
        /\ successes df' = successes df + n)
  /\ (forall input_dir processing_file w n w' df,
        resume_file pl urlopen completed downloader input_dir processing_file w
        = (Ok n, w') ->
        tables w !! join input_dir processing_file = Some df ->
        unique_labels df ->
        exists df',
          tables w' !! replace "_processing.parquet" "_processed.parquet"
                         (join input_dir processing_file)
          = Some df'
          /\ successes df' = successes df + n).
Proof.
  split.
  - intros p w n w' df. rewrite process_parquet_file_unfold.
    destruct (mark_as_processing pl (in_dirs w) p (tables w)) as [[pf|e] t1] eqn:Hmark;
      [|done].
    unfold mark_as_processing, bind, ret in Hmark.
    destruct (os_rename pl (in_dirs w) p _ (tables w)) as [[[]|e'] t2] eqn:E; [|done].
    injection Hmark as <- <-. intros Hrows Hdf Huniq.
    apply (process_rows_count false _ _ n w' df Hrows); [|done].
    cbn [tables]. exact (eq_trans (os_rename_target _ _ _ _ _ _ E) Hdf).
  - intros dir name w n w' df Hrows Hdf Huniq.
    by apply (process_rows_count true (join dir name) w n w' df).
Qed.

End Count.

Lemma returned_count_is_rows_marked_success_witness :
  let w := Fixture.mixed_world "in/a.parquet" in
  let out := App.process_parquet_file Posix Fixture.reliable_net
               Fixture.in_order Fixture.a_downloader "in/a.parquet" w in
  exists df',
    App.tables (snd out) !! "in/a_processed.parquet" = Some df'
    /\ Spec.successes df' = Spec.successes Fixture.mixed_table + 1.
Proof.
  apply (proj1 (returned_count_is_rows_marked_success Posix
                  Fixture.reliable_net Fixture.in_order Fixture.a_downloader
                  (fun l x Hx => Hx))
           "in/a.parquet" (Fixture.mixed_world "in/a.parquet") 1).
  - vm_compute. reflexivity.
  - vm_compute. reflexivity.
  - apply (bool_decide_unpack (NoDup _)). vm_compute. exact I.
Defined.
